(** * Overlay pipeline of the face-insight console: layout, fusion, gates, sanitizers

    A shallow embedding of
      - the label layout engine, [layoutLabels] and its helpers
        ([services/overlay]);
      - the anchor fusion engine, [AnchorFusionEngine.updateAnchors] and
        [AnchorFusionEngine.project] ([services/tracking]);
      - the Gemini service: the model gate ([acquireGate],
        [releaseGate]), the fallback orchestrator
        ([generateWithLaneFallback]), the result sanitizers
        ([sanitizeLiteResult], [sanitizeFlashResult],
        [sanitizeDepthResult]) and the three lane entry points;
    followed by the properties the specification states about them;
    and of the code around them:
      - the on-device tracker's frame construction ([track],
        [computeFaceBox], [pointFromLandmarkSet]);
      - the label smoother ([PointSmoother]);
      - the adaptive quality manager and the performance telemetry;
      - the request validation of the analyze routes
        ([parseAnalyzePayload]);
      - the overlay page's cover projection and insight de-duplication
        ([computeCoverProjection], [dedupeProInsights]);
    followed by further properties of all of these.

    Conventions of the embedding.
      - A JavaScript [number] that the code only adds, subtracts,
        multiplies, compares and clamps is a rational [Q] (exact
        arithmetic, no [NaN]); [Date.now()] readings are integer
        milliseconds, [Z].  Untyped JSON carries [JSNum], which adds
        [NaN] and the two infinities.
      - Strings are sequences of 8-bit code units ([string]).
      - [Array.prototype.sort] is a stable sort driven by the sign of the
        comparator ([js_sort]).
      - [Math.hypot], [Math.exp], [Math.sqrt], [Number(string)] and
        [JSON.parse] are run-time library functions; the code that calls
        them is parameterised by them.
      - An [async] function is a function of the world (gates, sticky
        models, clock) and of a script of what the rest of the system
        does at each of its suspension points; logging is not modelled. *)

From Stdlib Require Import QArith Qminmax Qround Qabs Lqa ZArith Lia Bool List Ascii String.
From Stdlib Require Import Sorted Permutation.
From stdpp Require Import gmap strings list pretty.
Import ListNotations.

Local Open Scope Z_scope.

(* ===================================================================== *)
(** ** JavaScript primitives shared by all modules *)
(* ===================================================================== *)

Module JS.

Definition Qltb (a b : Q) : bool := negb (Qle_bool b a).
Definition Qgtb (a b : Q) : bool := Qltb b a.
Definition Qleb (a b : Q) : bool := Qle_bool a b.

(** [Math.min(max, Math.max(min, value))], the [clamp] helper that every
    source file repeats. *)
Definition clamp (value min max : Q) : Q := Qmin max (Qmax min value).

(** [Math.round]: nearest integer, halves towards +infinity. *)
Definition roundZ (q : Q) : Z := Qfloor (q + (1 # 2)).
Definition round (q : Q) : Q := inject_Z (roundZ q).

(** Stable insertion sort by the sign of a comparator, as
    [Array.prototype.sort] is specified for a consistent comparator:
    [cmp a b < 0] puts [a] first, ties keep the original order. *)
Fixpoint js_insert {A} (cmp : A -> A -> Q) (x : A) (l : list A) : list A :=
  match l with
  | [] => [x]
  | y :: l' => if Qgtb (cmp x y) 0 then y :: js_insert cmp x l' else x :: l
  end.

Definition js_sort {A} (cmp : A -> A -> Q) (l : list A) : list A :=
  fold_right (js_insert cmp) [] l.

(** [arr.slice(0, end)] for an integer [end]; a negative [end] counts
    from the end of the array. *)
Definition slice_to {A} (l : list A) (e : Z) : list A :=
  if e <? 0 then firstn (Z.to_nat (Z.of_nat (length l) + e)) l
  else firstn (Z.to_nat e) l.

(** [s.charCodeAt(i)] for every [i], in order. *)
Definition charCodes (s : string) : list Z :=
  map (fun c => Z.of_nat (nat_of_ascii c)) (list_ascii_of_string s).

End JS.

(* ===================================================================== *)
(** ** Label layout engine ([layoutLabels]) *)
(* ===================================================================== *)

Module Layout.
Import JS.

Record LabelLayoutInput := mkInput {
  id : string;
  text : string;
  anchorX : Q;
  anchorY : Q;
  width : Q;
  height : Q;
  priority : Q;
  (** optional in the source; only its truthiness is ever read *)
  preferDistance : bool
}.

(** [LabelLayoutOutput extends LabelLayoutInput] with [x] and [y]. *)
Record LabelLayoutOutput := mkOutput {
  input : LabelLayoutInput;
  x : Q;
  y : Q
}.

Record Bounds := mkBounds {
  bwidth : Q;
  bheight : Q;
  padding : option Q;
  faceCenterX : option Q;
  faceCenterY : option Q
}.

Definition OFFSETS : list (Q * Q) :=
  [ (14, -18); (16, 16); (-16, -18); (-16, 18);
    (24, 0); (-24, 0); (0, -24); (0, 24) ]%Q.

Definition EMOTION_OFFSETS : list (Q * Q) :=
  [ (112, -88); (118, -42); (124, 10); (114, 62); (98, 102); (70, 122);
    (30, 134); (-30, 134); (-70, 122); (-98, 102); (-114, 62); (-124, 10);
    (-118, -42); (-112, -88); (-94, -118); (-56, -136); (0, -144);
    (56, -136); (94, -118); (132, -4); (132, 52); (132, -56);
    (-132, -4); (-132, 52); (-132, -56) ]%Q.

(** [hashText]: [(hash * 31 + code) >>> 0] over the code units. *)
Definition hashText (value : string) : Z :=
  fold_left (fun hash c => (hash * 31 + c) mod 2 ^ 32) (charCodes value) 0.

Definition rotateOffsets (offsets : list (Q * Q)) (start : Z)
  : list (Q * Q) :=
  match offsets with
  | [] => offsets
  | _ =>
      let normalized := Z.to_nat (start mod Z.of_nat (length offsets)) in
      skipn normalized offsets ++ firstn normalized offsets
  end.

Local Open Scope Q_scope.

Definition intersects (a b : LabelLayoutOutput) : bool :=
  Qltb (x a) (x b + width (input b))
  && Qgtb (x a + width (input a)) (x b)
  && Qltb (y a) (y b + height (input b))
  && Qgtb (y a + height (input a)) (y b).

Definition intersectsWithGap (a b : LabelLayoutOutput) (gap : Q) : bool :=
  Qltb (x a - gap) (x b + width (input b) + gap)
  && Qgtb (x a + width (input a) + gap) (x b - gap)
  && Qltb (y a - gap) (y b + height (input b) + gap)
  && Qgtb (y a + height (input a) + gap) (y b - gap).

Definition keepInBounds (layout : LabelLayoutOutput) (bounds : Bounds)
  : LabelLayoutOutput :=
  let padding := default 8%Q (padding bounds) in
  {| input := input layout;
     x := clamp (x layout) padding
            (bwidth bounds - width (input layout) - padding);
     y := clamp (y layout) padding
            (bheight bounds - height (input layout) - padding) |}.

Section Engine.
(** [Math.hypot] of the host. *)
Variable hypot : Q -> Q -> Q.

Definition getOutwardDirection (anchorX anchorY : Q) (bounds : Bounds)
  : option (Q * Q) :=
  match faceCenterX bounds, faceCenterY bounds with
  | Some fcx, Some fcy =>
      let outwardX := anchorX - fcx in
      let outwardY := anchorY - fcy in
      let length := hypot outwardX outwardY in
      if Qltb length (1 # 1000) then None
      else Some (outwardX / length, outwardY / length)
  | _, _ => None
  end%Q.

Definition isPlacementOutward (anchorX anchorY : Q)
    (layout : LabelLayoutOutput) (outwardDirection : Q * Q) : bool :=
  let centerX := x layout + width (input layout) / 2 in
  let centerY := y layout + height (input layout) / 2 in
  let vectorX := centerX - anchorX in
  let vectorY := centerY - anchorY in
  Qgtb (vectorX * fst outwardDirection + vectorY * snd outwardDirection) 0.

(** [Math.hypot(a, b) || 1] *)
Definition hypotOr1 (a b : Q) : Q :=
  let h := hypot a b in if Qeq_bool h 0 then 1 else h.

Definition prioritizeOutwardOffsets (offsets : list (Q * Q))
    (anchorX anchorY : Q) (bounds : Bounds) : list (Q * Q) :=
  match getOutwardDirection anchorX anchorY bounds with
  | None => offsets
  | Some outward =>
      js_sort (fun a b =>
        let aLen := hypotOr1 (fst a) (snd a) in
        let bLen := hypotOr1 (fst b) (snd b) in
        let aScore := (fst a / aLen) * fst outward
                      + (snd a / aLen) * snd outward in
        let bScore := (fst b / bLen) * fst outward
                      + (snd b / bLen) * snd outward in
        if Qgtb (Qabs (bScore - aScore)) (1 # 10000)
        then bScore - aScore else bLen - aLen) offsets
  end%Q.

(** The offsets tried for one label, and its outward direction. *)
Definition offsetsFor (bounds : Bounds) (inp : LabelLayoutInput)
  : list (Q * Q) :=
  if preferDistance inp
  then prioritizeOutwardOffsets
         (rotateOffsets EMOTION_OFFSETS (hashText (id inp)))
         (anchorX inp) (anchorY inp) bounds
  else OFFSETS.

Definition outwardFor (bounds : Bounds) (inp : LabelLayoutInput)
  : option (Q * Q) :=
  if preferDistance inp
  then getOutwardDirection (anchorX inp) (anchorY inp) bounds
  else None.

Definition attemptAt (bounds : Bounds) (inp : LabelLayoutInput)
    (off : Q * Q) : LabelLayoutOutput :=
  keepInBounds {| input := inp;
                  x := anchorX inp + fst off;
                  y := anchorY inp + snd off |} bounds.

(** [placed.some(existing => collisionGap > 0 ? intersectsWithGap(..)
    : intersects(..))] with [collisionGap = preferDistance ? 10 : 0]. *)
Definition hasCollision (placed : list LabelLayoutOutput)
    (inp : LabelLayoutInput) (attempt : LabelLayoutOutput) : bool :=
  existsb (fun existing =>
             if preferDistance inp
             then intersectsWithGap existing attempt 10
             else intersects existing attempt) placed.

Definition hasCollisionRetry (placed : list LabelLayoutOutput)
    (attempt : LabelLayoutOutput) : bool :=
  existsb (fun existing => intersectsWithGap existing attempt 6) placed.

(** First loop over the offsets: the first attempt that is outward
    (when a direction is known) and collision free. *)
Fixpoint primarySearch (bounds : Bounds) (placed : list LabelLayoutOutput)
    (inp : LabelLayoutInput) (outward : option (Q * Q))
    (offsets : list (Q * Q)) : option LabelLayoutOutput :=
  match offsets with
  | [] => None
  | off :: rest =>
      let attempt := attemptAt bounds inp off in
      let skip := match outward with
                  | Some dir => negb (isPlacementOutward (anchorX inp)
                                        (anchorY inp) attempt dir)
                  | None => false
                  end in
      if skip then primarySearch bounds placed inp outward rest
      else if hasCollision placed inp attempt
           then primarySearch bounds placed inp outward rest
           else Some attempt
  end.

(** Second loop ([!candidate && outwardDirection]): the same offsets
    without the outward test, gap 6. *)
Fixpoint retrySearch (bounds : Bounds) (placed : list LabelLayoutOutput)
    (inp : LabelLayoutInput) (offsets : list (Q * Q))
  : option LabelLayoutOutput :=
  match offsets with
  | [] => None
  | off :: rest =>
      let attempt := attemptAt bounds inp off in
      if hasCollisionRetry placed attempt
      then retrySearch bounds placed inp rest
      else Some attempt
  end.

(** Last step ([!candidate]): a fixed placement, clamped, with no
    collision test. *)
Definition fallbackPlacement (bounds : Bounds) (inp : LabelLayoutInput)
    (outward : option (Q * Q)) : LabelLayoutOutput :=
  match preferDistance inp, outward with
  | true, Some dir =>
      let radialDistance := 118%Q in
      keepInBounds
        {| input := inp;
           x := anchorX inp + fst dir * radialDistance - width inp / 2;
           y := anchorY inp + snd dir * radialDistance - height inp / 2 |}
        bounds
  | _, _ =>
      let fallback := if preferDistance inp then (52, 0)%Q else (14, 14)%Q in
      attemptAt bounds inp fallback
  end%Q.

(** Body of [for (const input of sorted)]: the box pushed on [placed]. *)
Definition placeLabel (bounds : Bounds) (placed : list LabelLayoutOutput)
    (inp : LabelLayoutInput) : LabelLayoutOutput :=
  let offsets := offsetsFor bounds inp in
  let outward := outwardFor bounds inp in
  match primarySearch bounds placed inp outward offsets with
  | Some c => c
  | None =>
      let retried := match outward with
                     | Some _ => retrySearch bounds placed inp offsets
                     | None => None
                     end in
      match retried with
      | Some c => c
      | None => fallbackPlacement bounds inp outward
      end
  end.

Definition priorityOrder (a b : LabelLayoutInput) : Q :=
  let diff := (priority b - priority a)%Q in
  if Qgtb (Qabs diff) (3 # 100) then diff
  else inject_Z (hashText (id a) - hashText (id b))%Z.

Definition layoutLabels (inputs : list LabelLayoutInput) (bounds : Bounds)
    (maxLabels : Z) : list LabelLayoutOutput :=
  let sorted := slice_to (js_sort priorityOrder inputs) maxLabels in
  fold_left (fun placed inp => placed ++ [placeLabel bounds placed inp])
            sorted [].

End Engine.

End Layout.

(* ===================================================================== *)
(** ** Shared analysis types ([types/analysis.ts], [mediapipeTracker.ts]) *)
(* ===================================================================== *)

(** [[y, x]] on the 0..1000 grid. *)
Definition NormalizedPoint : Type := Q * Q.

Inductive AnchorKind := emotion | depth | landmark.

Inductive FacialPartHint :=
  | leftEye | rightEye | leftEyeInner | rightEyeInner
  | nose | leftNoseHole | rightNoseHole
  | mouth | mouthLeft | mouthRight | mouthUpper | mouthLower
  | leftBrow | rightBrow | leftBrowInner | rightBrowInner
  | chin | forehead | leftCheek | rightCheek | faceCenter
  | unknown.

Definition isUnknown (p : FacialPartHint) : bool :=
  match p with unknown => true | _ => false end.

Module SemanticAnchor.
Record t := mk {
  id : string;
  label : string;
  kind : AnchorKind;
  facialPart : FacialPartHint;
  point : NormalizedPoint;
  confidence : Q;
  intensity : option string;
  explanation : option string
}.
End SemanticAnchor.

Module TrackedLandmark.
Record t := mk {
  index : Z;
  point : NormalizedPoint
}.
End TrackedLandmark.

Module TrackedFaceFrame.
Record t := mk {
  timestampMs : Q;
  points : list TrackedLandmark.t;
  (** [Partial<Record<FacialPartHint, NormalizedPoint>>] *)
  parts : FacialPartHint -> option NormalizedPoint;
  faceBox : option (Q * Q * Q * Q);
  confidence : Q
}.
End TrackedFaceFrame.

(* ===================================================================== *)
(** ** Anchor fusion engine ([AnchorFusionEngine]) *)
(* ===================================================================== *)

Module Fusion.
Import JS.
Local Open Scope Q_scope.

Record AnchorBinding := mkBinding {
  anchor : SemanticAnchor.t;
  landmarkIndex : option Z;
  offset : option NormalizedPoint;
  lastSeenAt : Q
}.

(** [FusedAnchor extends SemanticAnchor]: the spread anchor plus two
    fields. *)
Record FusedAnchor := mkFused {
  fused : SemanticAnchor.t;
  projectedPoint : NormalizedPoint;
  stale : bool
}.

Record AnchorFusionOptions := mkOptions {
  opt_maxStaleMs : option Q;
  opt_hardMaxStaleMs : option Q;
  opt_reacquireDistance : option Q
}.

(** The engine object.  [bindings] is a [Map<string, AnchorBinding>]:
    keys in insertion order, each key at most once. *)
Record Engine := mkEngine {
  bindings : list (string * AnchorBinding);
  maxStaleMs : Q;
  hardMaxStaleMs : Q;
  reacquireDistanceSq : Q
}.

Definition squaredDistance (a b : NormalizedPoint) : Q :=
  let dy := fst a - fst b in
  let dx := snd a - snd b in
  dy * dy + dx * dx.

Definition addOffset (point offset : NormalizedPoint) : NormalizedPoint :=
  (clamp (fst point + fst offset) 0 1000,
   clamp (snd point + snd offset) 0 1000).

Definition subtractPoint (a b : NormalizedPoint) : NormalizedPoint :=
  (fst a - fst b, snd a - snd b).

(** [frame.points[i]] for a number [i] that is an integer; anything
    outside the array reads [undefined]. *)
Definition pointAt (frame : TrackedFaceFrame.t) (i : Z)
  : option TrackedLandmark.t :=
  if (i <? 0)%Z then None
  else nth_error (TrackedFaceFrame.points frame) (Z.to_nat i).

(** The loop of [nearestLandmarkIndex]; [best = None] is
    [Number.POSITIVE_INFINITY]. *)
Fixpoint nearestLoop (pts : list TrackedLandmark.t) (target : NormalizedPoint)
    (nearest : option Z) (best : option Q) : option Z :=
  match pts with
  | [] => nearest
  | p :: rest =>
      let distance := squaredDistance (TrackedLandmark.point p) target in
      let closer := match best with
                    | None => true
                    | Some b => Qltb distance b
                    end in
      if closer
      then nearestLoop rest target (Some (TrackedLandmark.index p)) (Some distance)
      else nearestLoop rest target nearest best
  end.

Definition nearestLandmarkIndex (frame : TrackedFaceFrame.t)
    (target : NormalizedPoint) : option Z :=
  match TrackedFaceFrame.points frame with
  | [] => None
  | pts => nearestLoop pts target None None
  end.

(** *** [Map] operations used by the engine *)

Fixpoint map_get {V} (k : string) (m : list (string * V)) : option V :=
  match m with
  | [] => None
  | (k', v) :: m' => if String.eqb k k' then Some v else map_get k m'
  end.

(** [Map.prototype.set]: an existing key keeps its position. *)
Fixpoint map_set {V} (k : string) (v : V) (m : list (string * V))
  : list (string * V) :=
  match m with
  | [] => [(k, v)]
  | (k', v') :: m' =>
      if String.eqb k k' then (k, v) :: m' else (k', v') :: map_set k v m'
  end.

Definition constructor (options : AnchorFusionOptions) : Engine :=
  let maxStale := default 4500 (opt_maxStaleMs options) in
  let reacquireDistance := default 130 (opt_reacquireDistance options) in
  {| bindings := [];
     maxStaleMs := maxStale;
     hardMaxStaleMs := Qmax maxStale (default 30000 (opt_hardMaxStaleMs options));
     reacquireDistanceSq := reacquireDistance * reacquireDistance |}.

Definition resolveTargetPoint (a : SemanticAnchor.t)
    (frame : TrackedFaceFrame.t) : NormalizedPoint :=
  if isUnknown (SemanticAnchor.facialPart a) then SemanticAnchor.point a
  else match TrackedFaceFrame.parts frame (SemanticAnchor.facialPart a) with
       | Some p => p
       | None => SemanticAnchor.point a
       end.

(** [frame && part !== "unknown" && frame.parts[part]]; a point is an
    array, hence truthy whenever present. *)
Definition trackedPart (frame : option TrackedFaceFrame.t)
    (part : FacialPartHint) : option NormalizedPoint :=
  match frame with
  | Some f => if isUnknown part then None else TrackedFaceFrame.parts f part
  | None => None
  end.

(** Body of the second loop of [updateAnchors]: the binding stored for
    one incoming anchor. *)
Definition bindAnchor (e : Engine) (frame : option TrackedFaceFrame.t)
    (nowMs : Q) (bs : list (string * AnchorBinding)) (a : SemanticAnchor.t)
  : AnchorBinding :=
  let previous := map_get (SemanticAnchor.id a) bs in
  let target := match frame with
                | Some f => resolveTargetPoint a f
                | None => SemanticAnchor.point a
                end in
  let isKnownPart :=
    match trackedPart frame (SemanticAnchor.facialPart a) with
    | Some _ => true | None => false end in
  let shouldUsePrevious :=
    match previous, frame with
    | Some prev, Some f =>
        match landmarkIndex prev with
        | Some i =>
            match pointAt f i with
            | Some lm => Qltb (squaredDistance (SemanticAnchor.point a)
                                 (TrackedLandmark.point lm))
                              (reacquireDistanceSq e)
            | None => false
            end
        | None => false
        end
    | _, _ => false
    end in
  let landmarkIndex0 := match previous with
                        | Some prev => landmarkIndex prev
                        | None => None
                        end in
  let landmarkIndex1 :=
    match frame with
    | Some f => if negb isKnownPart && negb shouldUsePrevious
                then nearestLandmarkIndex f target else landmarkIndex0
    | None => landmarkIndex0
    end in
  let landmarkIndex2 := if isKnownPart then None else landmarkIndex1 in
  let trackedPoint :=
    match frame, landmarkIndex2 with
    | Some f, Some i =>
        match pointAt f i with
        | Some lm => TrackedLandmark.point lm
        | None => SemanticAnchor.point a
        end
    | _, _ => target
    end in
  let offset := if isKnownPart then (0, 0)
                else subtractPoint (SemanticAnchor.point a) trackedPoint in
  {| anchor := a;
     landmarkIndex := landmarkIndex2;
     offset := Some offset;
     lastSeenAt := nowMs |}.

Definition withBindings (e : Engine) (bs : list (string * AnchorBinding))
  : Engine :=
  {| bindings := bs;
     maxStaleMs := maxStaleMs e;
     hardMaxStaleMs := hardMaxStaleMs e;
     reacquireDistanceSq := reacquireDistanceSq e |}.

Definition updateAnchors (e : Engine) (nextAnchors : list SemanticAnchor.t)
    (frame : option TrackedFaceFrame.t) (nowMs : Q) : Engine :=
  let incomingIds := map SemanticAnchor.id nextAnchors in
  let survivors :=
    List.filter (fun kb =>
      negb (negb (existsb (String.eqb (fst kb)) incomingIds)
            && Qgtb (nowMs - lastSeenAt (snd kb)) (maxStaleMs e)))
      (bindings e) in
  let bound :=
    fold_left (fun bs a =>
                 map_set (SemanticAnchor.id a) (bindAnchor e frame nowMs bs a) bs)
              nextAnchors survivors in
  withBindings e bound.

(** The priority chain of [project] for one binding.  [None] is the
    [TypeError] of [frame.points[fallbackIndex].point] when the nearest
    landmark's [index] names no slot of [frame.points]. *)
Definition resolveProjected (frame : option TrackedFaceFrame.t)
    (b : AnchorBinding) : option NormalizedPoint :=
  let a := anchor b in
  match trackedPart frame (SemanticAnchor.facialPart a) with
  | Some p => Some p
  | None =>
      match frame with
      | None => Some (SemanticAnchor.point a)
      | Some f =>
          let viaLandmark :=
            match landmarkIndex b, offset b with
            | Some i, Some off =>
                match pointAt f i with
                | Some lm => Some (addOffset (TrackedLandmark.point lm) off)
                | None => None
                end
            | _, _ => None
            end in
          match viaLandmark with
          | Some p => Some p
          | None =>
              match nearestLandmarkIndex f (SemanticAnchor.point a) with
              | Some fallbackIndex =>
                  match pointAt f fallbackIndex with
                  | Some lm => Some (TrackedLandmark.point lm)
                  | None => None
                  end
              | None => Some (SemanticAnchor.point a)
              end
          end
      end
  end.

Definition maxAgeMs (e : Engine) (preserveStale : bool) : Q :=
  if preserveStale then hardMaxStaleMs e else maxStaleMs e.

Definition expired (e : Engine) (nowMs : Q) (preserveStale : bool)
    (b : AnchorBinding) : bool :=
  Qgtb (nowMs - lastSeenAt b) (maxAgeMs e preserveStale).

Definition fuse (e : Engine) (nowMs : Q) (b : AnchorBinding)
    (p : NormalizedPoint) : FusedAnchor :=
  {| fused := anchor b;
     projectedPoint := p;
     stale := Qgtb (nowMs - lastSeenAt b) (maxStaleMs e * (1 # 2)) |}.

(** The loop of [project] over [bindings.entries()]: the entries left
    in the map, and [projected] before it is sorted ([None] when the
    loop was left by the [TypeError]; the entries not yet visited then
    stay in the map). *)
Fixpoint projectLoop (e : Engine) (frame : option TrackedFaceFrame.t)
    (nowMs : Q) (preserveStale : bool) (bs : list (string * AnchorBinding))
  : list (string * AnchorBinding) * option (list FusedAnchor) :=
  match bs with
  | [] => ([], Some [])
  | (k, b) :: rest =>
      if expired e nowMs preserveStale b
      then projectLoop e frame nowMs preserveStale rest
      else match resolveProjected frame b with
           | None => ((k, b) :: rest, None)
           | Some p =>
               let '(kept, projected) :=
                 projectLoop e frame nowMs preserveStale rest in
               ((k, b) :: kept,
                match projected with
                | Some l => Some (fuse e nowMs b p :: l)
                | None => None
                end)
           end
  end.

Definition byConfidenceDesc (a b : FusedAnchor) : Q :=
  SemanticAnchor.confidence (fused b) - SemanticAnchor.confidence (fused a).

(** [project]: the engine after pruning, and the returned list
    ([None]: the call threw). *)
Definition project (e : Engine) (frame : option TrackedFaceFrame.t)
    (nowMs : Q) (preserveStale : bool)
  : Engine * option (list FusedAnchor) :=
  let '(kept, projected) :=
    projectLoop e frame nowMs preserveStale (bindings e) in
  (withBindings e kept,
   match projected with
   | Some l => Some (js_sort byConfidenceDesc l)
   | None => None
   end).

End Fusion.

(* ===================================================================== *)
(** ** Untyped JSON and string helpers *)
(* ===================================================================== *)

Module Json.
Import JS.

(** A JavaScript number as it can sit in an untyped value. *)
Inductive JSNum := Fin (q : Q) | NaN | PosInf | NegInf.

(** The values [JSON.parse] produces, plus [undefined] for a missing
    property. *)
#[local] Set Warnings "-register-all".
Inductive JSValue :=
  | JUndefined
  | JNull
  | JBool (b : bool)
  | JNumber (n : JSNum)
  | JString (s : string)
  | JArray (items : list JSValue)
  | JObject (fields : list (string * JSValue)).

Fixpoint lookupField (k : string) (fields : list (string * JSValue)) : JSValue :=
  match fields with
  | [] => JUndefined
  | (k', v) :: rest => if String.eqb k k' then v else lookupField k rest
  end.

(** [v?.key] for the property names the sanitizers read; none of them
    is defined on arrays, strings, numbers or booleans. *)
Definition get (v : JSValue) (k : string) : JSValue :=
  match v with
  | JObject fields => lookupField k fields
  | _ => JUndefined
  end.

(** [value[i]] on an array. *)
Definition item (l : list JSValue) (i : nat) : JSValue :=
  nth i l JUndefined.

(** [Boolean(v)] *)
Definition truthy (v : JSValue) : bool :=
  match v with
  | JUndefined | JNull => false
  | JBool b => b
  | JNumber (Fin q) => negb (Qeq_bool q 0)
  | JNumber NaN => false
  | JNumber _ => true
  | JString s => negb (String.eqb s "")
  | JArray _ | JObject _ => true
  end.

(** [raw && typeof raw === "object"] *)
Definition isObjectLike (v : JSValue) : bool :=
  match v with
  | JArray _ | JObject _ => true
  | _ => false
  end.

(** *** Strings *)

(** ECMAScript white space and line terminators below code unit 256. *)
Definition isWhiteSpace (c : ascii) : bool :=
  let n := nat_of_ascii c in
  ((9 <=? n) && (n <=? 13) || (n =? 32) || (n =? 160))%nat.

Fixpoint trimStart (s : string) : string :=
  match s with
  | String c s' => if isWhiteSpace c then trimStart s' else s
  | EmptyString => EmptyString
  end.

Fixpoint trimEnd (s : string) : string :=
  match s with
  | EmptyString => EmptyString
  | String c s' =>
      match trimEnd s' with
      | EmptyString => if isWhiteSpace c then EmptyString else String c EmptyString
      | t => String c t
      end
  end.

Definition trim (s : string) : string := trimEnd (trimStart s).

Definition lowerChar (c : ascii) : ascii :=
  let n := nat_of_ascii c in
  if ((65 <=? n) && (n <=? 90)
      || (192 <=? n) && (n <=? 222) && negb (n =? 215))%nat
  then ascii_of_nat (n + 32) else c.

Fixpoint toLowerCase (s : string) : string :=
  match s with
  | EmptyString => EmptyString
  | String c s' => String (lowerChar c) (toLowerCase s')
  end.

(** [s.replace(/\s+/g, "-")]; [inRun] tells whether the previous code
    unit was white space. *)
Fixpoint dashRuns (inRun : bool) (s : string) : string :=
  match s with
  | EmptyString => EmptyString
  | String c s' =>
      if isWhiteSpace c
      then (if inRun then dashRuns true s' else String "-" (dashRuns true s'))
      else String c (dashRuns false s')
  end.

Definition slug (s : string) : string := dashRuns false (toLowerCase s).

(** [s.slice(0, n)] *)
Definition sliceStr (n : nat) (s : string) : string := substring 0 n s.

(** [hay.includes(needle)] *)
Fixpoint includes (needle hay : string) : bool :=
  String.prefix needle hay
  || match hay with
     | EmptyString => false
     | String _ hay' => includes needle hay'
     end.

End Json.

(* ===================================================================== *)
(** ** Lane results and their sanitizers *)
(* ===================================================================== *)

Module HeadPose.
Record t := mk { pitch : Q; yaw : Q; roll : Q }.
End HeadPose.

Module EmotionCandidate.
Record t := mk { emotion : string; confidence : Q }.
End EmotionCandidate.

Definition NormalizedFaceBox : Type := Q * Q * Q * Q.

Module LiteAnalysisResult.
Record t := mk {
  model : string;
  frameId : Q;
  capturedAt : Q;
  faceDetected : bool;
  confidence : Q;
  primaryEmotion : string;
  primaryConfidence : Q;
  moodSentence : option string;
  candidates : list EmotionCandidate.t;
  faceBox : option NormalizedFaceBox;
  headPose : option HeadPose.t
}.
End LiteAnalysisResult.

Module FastEmotion.
Record t := mk {
  emotion : string;
  intensity : string;
  confidence : Q;
  point : NormalizedPoint;
  facialPart : FacialPartHint;
  explanation : option string
}.
End FastEmotion.

Module FastLandmark.
Record t := mk {
  name : string;
  point : NormalizedPoint;
  confidence : Q;
  facialPart : FacialPartHint
}.
End FastLandmark.

Module FastAnalysisResult.
Record t := mk {
  model : string;
  frameId : Q;
  capturedAt : Q;
  faceDetected : bool;
  confidence : Q;
  faceBox : option NormalizedFaceBox;
  headPose : option HeadPose.t;
  emotions : list FastEmotion.t;
  landmarks : list FastLandmark.t;
  semanticAnchors : list SemanticAnchor.t
}.
End FastAnalysisResult.

Module DepthInsight.
Record t := mk {
  keyword : string;
  rationale : string;
  medicalInterpretation : option string;
  confidence : Q;
  facialPart : FacialPartHint;
  point : NormalizedPoint
}.
End DepthInsight.

Module DepthAnalysisResult.
Record t := mk {
  model : string;
  frameId : Q;
  capturedAt : Q;
  confidence : Q;
  summary : string;
  insights : list DepthInsight.t;
  semanticAnchors : list SemanticAnchor.t
}.
End DepthAnalysisResult.

Module AnalyzeOptions.
Record t := mk {
  frameId : option Q;
  capturedAt : option Q;
  timeoutMs : option Q;
  videoClipBase64 : option string;
  videoMimeType : option string;
  videoDurationMs : option Q
}.
End AnalyzeOptions.

Module Sanitizer.
Import JS Json.
Local Open Scope Q_scope.

Definition LITE_MODEL : string := "gemini-2.5-flash-lite".
Definition FLASH_MODEL : string := "gemini-3-flash-preview".
Definition PRO_MODEL : string := "gemini-3.1-pro-preview".
Definition PRIMARY_EMOTION_MAX_CHARS : nat := 64.

Definition partOfName (s : string) : FacialPartHint :=
  if String.eqb s "leftEye" then leftEye
  else if String.eqb s "rightEye" then rightEye
  else if String.eqb s "leftEyeInner" then leftEyeInner
  else if String.eqb s "rightEyeInner" then rightEyeInner
  else if String.eqb s "nose" then nose
  else if String.eqb s "leftNoseHole" then leftNoseHole
  else if String.eqb s "rightNoseHole" then rightNoseHole
  else if String.eqb s "mouth" then mouth
  else if String.eqb s "mouthLeft" then mouthLeft
  else if String.eqb s "mouthRight" then mouthRight
  else if String.eqb s "mouthUpper" then mouthUpper
  else if String.eqb s "mouthLower" then mouthLower
  else if String.eqb s "leftBrow" then leftBrow
  else if String.eqb s "rightBrow" then rightBrow
  else if String.eqb s "leftBrowInner" then leftBrowInner
  else if String.eqb s "rightBrowInner" then rightBrowInner
  else if String.eqb s "chin" then chin
  else if String.eqb s "forehead" then forehead
  else if String.eqb s "leftCheek" then leftCheek
  else if String.eqb s "rightCheek" then rightCheek
  else if String.eqb s "faceCenter" then faceCenter
  else unknown.

(** The string a [FacialPartHint] is at run time (template literals). *)
Definition partName (p : FacialPartHint) : string :=
  match p with
  | leftEye => "leftEye" | rightEye => "rightEye"
  | leftEyeInner => "leftEyeInner" | rightEyeInner => "rightEyeInner"
  | nose => "nose" | leftNoseHole => "leftNoseHole"
  | rightNoseHole => "rightNoseHole"
  | mouth => "mouth" | mouthLeft => "mouthLeft" | mouthRight => "mouthRight"
  | mouthUpper => "mouthUpper" | mouthLower => "mouthLower"
  | leftBrow => "leftBrow" | rightBrow => "rightBrow"
  | leftBrowInner => "leftBrowInner" | rightBrowInner => "rightBrowInner"
  | chin => "chin" | forehead => "forehead"
  | leftCheek => "leftCheek" | rightCheek => "rightCheek"
  | faceCenter => "faceCenter" | unknown => "unknown"
  end.

Definition FACIAL_PART_DEFAULT_POINTS (p : FacialPartHint) : NormalizedPoint :=
  match p with
  | leftEye => (370, 330) | rightEye => (370, 670)
  | leftEyeInner => (375, 430) | rightEyeInner => (375, 570)
  | nose => (520, 500)
  | leftNoseHole => (555, 460) | rightNoseHole => (555, 540)
  | mouth => (700, 500)
  | mouthLeft => (705, 410) | mouthRight => (705, 590)
  | mouthUpper => (680, 500) | mouthLower => (735, 500)
  | leftBrow => (300, 320) | rightBrow => (300, 680)
  | leftBrowInner => (315, 430) | rightBrowInner => (315, 570)
  | chin => (880, 500) | forehead => (165, 500)
  | leftCheek => (560, 290) | rightCheek => (560, 710)
  | faceCenter => (470, 500)
  | unknown => (470, 500)
  end.

Definition defaultPointForPart (part : FacialPartHint) : NormalizedPoint :=
  if isUnknown part then FACIAL_PART_DEFAULT_POINTS faceCenter
  else FACIAL_PART_DEFAULT_POINTS part.

Definition toStringOrFallback (value : JSValue) (fallback : string) : string :=
  match value with
  | JString s => if String.eqb (trim s) "" then fallback else trim s
  | _ => fallback
  end.

Definition toFacialPart (value : JSValue) : FacialPartHint :=
  let normalized := match value with JString s => trim s | _ => ""%string end in
  partOfName normalized.

(** [isNumber(v) ? f(v) : d] *)
Definition ifNumber {A} (value : JSValue) (f : Q -> A) (d : A) : A :=
  match value with
  | JNumber (Fin q) => f q
  | _ => d
  end.

Definition toPoint (value : JSValue) (fallback : NormalizedPoint)
  : NormalizedPoint :=
  match value with
  | JArray l =>
      if (length l <? 2)%nat then fallback
      else
        let y := ifNumber (item l 0) (fun v => clamp (round v) 0 1000) (fst fallback) in
        let x := ifNumber (item l 1) (fun v => clamp (round v) 0 1000) (snd fallback) in
        (y, x)
  | _ => fallback
  end.

Definition toFaceBox (value : JSValue) : option NormalizedFaceBox :=
  match value with
  | JArray l =>
      if (length l <? 4)%nat then None
      else
        let ymin := ifNumber (item l 0) (fun v => clamp (round v) 0 1000) 0 in
        let xmin := ifNumber (item l 1) (fun v => clamp (round v) 0 1000) 0 in
        let ymax := ifNumber (item l 2) (fun v => clamp (round v) 0 1000) 1000 in
        let xmax := ifNumber (item l 3) (fun v => clamp (round v) 0 1000) 1000 in
        if Qleb ymax ymin || Qleb xmax xmin then None
        else Some (ymin, xmin, ymax, xmax)
  | _ => None
  end.

Definition toHeadPose (value : JSValue) : option HeadPose.t :=
  if truthy value && isObjectLike value
  then Some {| HeadPose.pitch := ifNumber (get value "pitch") (fun v => clamp v (-90) 90) 0;
               HeadPose.yaw := ifNumber (get value "yaw") (fun v => clamp v (-90) 90) 0;
               HeadPose.roll := ifNumber (get value "roll") (fun v => clamp v (-90) 90) 0 |}
  else None.

Fixpoint nearestPartLoop (point : NormalizedPoint) (landmarks : list FastLandmark.t)
    (best : option FastLandmark.t) (bestDistance : option Q)
  : option FastLandmark.t :=
  match landmarks with
  | [] => best
  | lm :: rest =>
      let dy := fst point - fst (FastLandmark.point lm) in
      let dx := snd point - snd (FastLandmark.point lm) in
      let distance := dy * dy + dx * dx in
      let closer := match bestDistance with
                    | None => true
                    | Some b => Qltb distance b
                    end in
      if closer then nearestPartLoop point rest (Some lm) (Some distance)
      else nearestPartLoop point rest best bestDistance
  end.

Definition nearestLandmarkPart (point : NormalizedPoint)
    (landmarks : list FastLandmark.t) : FacialPartHint :=
  match landmarks with
  | [] => unknown
  | _ => match nearestPartLoop point landmarks None None with
         | Some lm => FastLandmark.facialPart lm
         | None => unknown
         end
  end.

Definition resolvedPartOf (e : FastEmotion.t) (landmarks : list FastLandmark.t)
  : FacialPartHint :=
  if isUnknown (FastEmotion.facialPart e)
  then nearestLandmarkPart (FastEmotion.point e) landmarks
  else FastEmotion.facialPart e.

(** The callback of [emotions.map] in [buildFastAnchors], threading the
    [duplicateCounters] map. *)
Definition emotionAnchor (landmarks : list FastLandmark.t)
    (duplicateCounters : gmap string nat) (e : FastEmotion.t)
  : gmap string nat * SemanticAnchor.t :=
  let resolvedPart := resolvedPartOf e landmarks in
  let emotionKey := slug (FastEmotion.emotion e) in
  let baseKey := (emotionKey ++ "-" ++ partName resolvedPart)%string in
  let seen := default 0%nat (duplicateCounters !! baseKey) in
  (<[baseKey := S seen]> duplicateCounters,
   {| SemanticAnchor.id :=
        ("emo-" ++ baseKey ++ "-" ++ pretty (S seen))%string;
      SemanticAnchor.label := FastEmotion.emotion e;
      SemanticAnchor.kind := emotion;
      SemanticAnchor.facialPart := resolvedPart;
      SemanticAnchor.point := FastEmotion.point e;
      SemanticAnchor.confidence := FastEmotion.confidence e;
      SemanticAnchor.intensity := Some (FastEmotion.intensity e);
      SemanticAnchor.explanation := FastEmotion.explanation e |}).

Fixpoint emotionAnchors (landmarks : list FastLandmark.t)
    (duplicateCounters : gmap string nat) (emotions : list FastEmotion.t)
  : list SemanticAnchor.t :=
  match emotions with
  | [] => []
  | e :: rest =>
      let '(counters, a) := emotionAnchor landmarks duplicateCounters e in
      a :: emotionAnchors landmarks counters rest
  end.

Definition landmarkAnchor (index : nat) (lm : FastLandmark.t) : SemanticAnchor.t :=
  {| SemanticAnchor.id :=
       ("lm-" ++ pretty index ++ "-" ++ slug (FastLandmark.name lm))%string;
     SemanticAnchor.label := FastLandmark.name lm;
     SemanticAnchor.kind := landmark;
     SemanticAnchor.facialPart := FastLandmark.facialPart lm;
     SemanticAnchor.point := FastLandmark.point lm;
     SemanticAnchor.confidence := FastLandmark.confidence lm;
     SemanticAnchor.intensity := None;
     SemanticAnchor.explanation := None |}.

Definition buildFastAnchors (emotions : list FastEmotion.t)
    (landmarks : list FastLandmark.t) : list SemanticAnchor.t :=
  emotionAnchors landmarks ∅ emotions
  ++ imap landmarkAnchor (firstn 8 landmarks).

Definition depthAnchor (index : nat) (i : DepthInsight.t) : SemanticAnchor.t :=
  {| SemanticAnchor.id :=
       ("depth-" ++ pretty index ++ "-" ++ slug (DepthInsight.keyword i))%string;
     SemanticAnchor.label := DepthInsight.keyword i;
     SemanticAnchor.kind := depth;
     SemanticAnchor.facialPart := DepthInsight.facialPart i;
     SemanticAnchor.point := DepthInsight.point i;
     SemanticAnchor.confidence := DepthInsight.confidence i;
     SemanticAnchor.intensity := None;
     SemanticAnchor.explanation := None |}.

Definition buildDepthAnchors (insights : list DepthInsight.t)
  : list SemanticAnchor.t :=
  imap depthAnchor insights.

Section Sanitizers.
(** [Number(s)] of the host, applied to an already trimmed string. *)
Variable stringToNumber : string -> JSNum.
(** [Date.now()] at the time of the call. *)
Variable now : Q.

Definition toConfidence (value : JSValue) (fallback : Q) : Q :=
  match value with
  | JNumber (Fin q) => clamp q 0 1
  | JString s =>
      if String.eqb (trim s) "" then fallback
      else match stringToNumber (trim s) with
           | Fin parsed => clamp parsed 0 1
           | _ => fallback
           end
  | _ => fallback
  end.

(** [a || b] on strings *)
Definition orElse (a b : string) : string :=
  if String.eqb a "" then b else a.

Definition toDefaultLiteResult (options : AnalyzeOptions.t) (model : string)
  : LiteAnalysisResult.t :=
  {| LiteAnalysisResult.model := model;
     LiteAnalysisResult.frameId := default 0 (AnalyzeOptions.frameId options);
     LiteAnalysisResult.capturedAt := default now (AnalyzeOptions.capturedAt options);
     LiteAnalysisResult.faceDetected := false;
     LiteAnalysisResult.confidence := 0;
     LiteAnalysisResult.primaryEmotion := "neutral";
     LiteAnalysisResult.primaryConfidence := 0;
     LiteAnalysisResult.moodSentence :=
       Some "The observed mood appears neutral with low confidence."%string;
     LiteAnalysisResult.candidates := [];
     LiteAnalysisResult.faceBox := None;
     LiteAnalysisResult.headPose := None |}.

Definition toDefaultFlashResult (options : AnalyzeOptions.t) (model : string)
  : FastAnalysisResult.t :=
  {| FastAnalysisResult.model := model;
     FastAnalysisResult.frameId := default 0 (AnalyzeOptions.frameId options);
     FastAnalysisResult.capturedAt := default now (AnalyzeOptions.capturedAt options);
     FastAnalysisResult.faceDetected := false;
     FastAnalysisResult.confidence := 0;
     FastAnalysisResult.faceBox := None;
     FastAnalysisResult.headPose := None;
     FastAnalysisResult.emotions := [];
     FastAnalysisResult.landmarks := [];
     FastAnalysisResult.semanticAnchors := [] |}.

Definition toDefaultDepthResult (options : AnalyzeOptions.t) (model : string)
  : DepthAnalysisResult.t :=
  {| DepthAnalysisResult.model := model;
     DepthAnalysisResult.frameId := default 0 (AnalyzeOptions.frameId options);
     DepthAnalysisResult.capturedAt := default now (AnalyzeOptions.capturedAt options);
     DepthAnalysisResult.confidence := 0;
     DepthAnalysisResult.summary := "";
     DepthAnalysisResult.insights := [];
     DepthAnalysisResult.semanticAnchors := [] |}.

(** [Array.isArray(v) ? v.slice(0, n).map(f) : []] *)
Definition sliceMap {A} (value : JSValue) (n : nat) (f : JSValue -> A)
  : list A :=
  match value with
  | JArray l => map f (firstn n l)
  | _ => []
  end.

Definition liteCandidate (record : JSValue) : EmotionCandidate.t :=
  {| EmotionCandidate.emotion := toStringOrFallback (get record "emotion") "neutral";
     EmotionCandidate.confidence := toConfidence (get record "confidence") (45 # 100) |}.

Definition sameEmotion (primaryEmotion : string) (c : EmotionCandidate.t) : bool :=
  String.eqb (toLowerCase (trim (EmotionCandidate.emotion c)))
             (toLowerCase (trim primaryEmotion)).

Definition sanitizeLiteResult (raw : JSValue) (options : AnalyzeOptions.t)
    (model : string) : LiteAnalysisResult.t :=
  if negb (truthy raw && isObjectLike raw) then toDefaultLiteResult options model
  else
    let source := raw in
    let faceBox := toFaceBox (get source "faceBox") in
    let faceDetected := truthy (get source "faceDetected") || bool_decide (is_Some faceBox) in
    let frameConfidence :=
      toConfidence (get source "confidence")
                   (if faceDetected then 7 # 10 else 1 # 10) in
    let candidates := sliceMap (get source "candidates") 6 liteCandidate in
    let primaryEmotion :=
      sliceStr PRIMARY_EMOTION_MAX_CHARS
        (orElse (orElse (toStringOrFallback (get source "primaryEmotion") "")
                        (match candidates with
                         | c :: _ => EmotionCandidate.emotion c
                         | [] => ""%string
                         end))
                "neutral") in
    let primaryCandidate := List.find (sameEmotion primaryEmotion) candidates in
    let primaryConfidence :=
      toConfidence (get source "primaryConfidence")
        (match primaryCandidate, candidates with
         | Some c, _ => EmotionCandidate.confidence c
         | None, c :: _ => EmotionCandidate.confidence c
         | None, [] => frameConfidence
         end) in
    let moodSentence :=
      orElse (sliceStr 180 (toStringOrFallback (get source "moodSentence") ""))
             ("The observed mood appears " ++ primaryEmotion ++ " with "
              ++ pretty (roundZ (primaryConfidence * 100)) ++ "% confidence.")%string in
    {| LiteAnalysisResult.model := model;
       LiteAnalysisResult.frameId := default 0 (AnalyzeOptions.frameId options);
       LiteAnalysisResult.capturedAt := default now (AnalyzeOptions.capturedAt options);
       LiteAnalysisResult.faceDetected := faceDetected;
       LiteAnalysisResult.confidence := frameConfidence;
       LiteAnalysisResult.primaryEmotion := primaryEmotion;
       LiteAnalysisResult.primaryConfidence := primaryConfidence;
       LiteAnalysisResult.moodSentence := Some moodSentence;
       LiteAnalysisResult.candidates := candidates;
       LiteAnalysisResult.faceBox := faceBox;
       LiteAnalysisResult.headPose := toHeadPose (get source "headPose") |}.

Definition flashEmotion (record : JSValue) : FastEmotion.t :=
  let parsedPart := toFacialPart (get record "facialPart") in
  let facialPart := if isUnknown parsedPart then faceCenter else parsedPart in
  let explanation :=
    sliceStr 120 (toStringOrFallback (get record "explanation") "") in
  {| FastEmotion.emotion := toStringOrFallback (get record "emotion") "neutral";
     FastEmotion.intensity := toStringOrFallback (get record "intensity") "low";
     FastEmotion.confidence := toConfidence (get record "confidence") (4 # 10);
     FastEmotion.point := toPoint (get record "point") (defaultPointForPart facialPart);
     FastEmotion.facialPart := facialPart;
     FastEmotion.explanation :=
       if String.eqb explanation "" then None else Some explanation |}.

Definition sanitizeFlashResult (raw : JSValue) (options : AnalyzeOptions.t)
    (model : string) : FastAnalysisResult.t :=
  if negb (truthy raw && isObjectLike raw) then toDefaultFlashResult options model
  else
    let source := raw in
    let landmarks : list FastLandmark.t := [] in
    let emotions := sliceMap (get source "emotions") 6 flashEmotion in
    let faceBox := toFaceBox (get source "faceBox") in
    let faceDetected :=
      truthy (get source "faceDetected") || bool_decide (is_Some faceBox)
      || (0 <? length landmarks)%nat in
    {| FastAnalysisResult.model := model;
       FastAnalysisResult.frameId := default 0 (AnalyzeOptions.frameId options);
       FastAnalysisResult.capturedAt := default now (AnalyzeOptions.capturedAt options);
       FastAnalysisResult.faceDetected := faceDetected;
       FastAnalysisResult.confidence :=
         toConfidence (get source "confidence")
                      (if faceDetected then 6 # 10 else 1 # 10);
       FastAnalysisResult.faceBox := faceBox;
       FastAnalysisResult.headPose := toHeadPose (get source "headPose");
       FastAnalysisResult.emotions := emotions;
       FastAnalysisResult.landmarks := landmarks;
       FastAnalysisResult.semanticAnchors := buildFastAnchors emotions landmarks |}.

Definition depthInsight (record : JSValue) : DepthInsight.t :=
  {| DepthInsight.keyword := toStringOrFallback (get record "keyword") "neutral";
     DepthInsight.rationale := toStringOrFallback (get record "rationale") "";
     DepthInsight.medicalInterpretation :=
       Some (toStringOrFallback (get record "medicalInterpretation") "");
     DepthInsight.confidence := toConfidence (get record "confidence") (34 # 100);
     DepthInsight.facialPart := toFacialPart (get record "facialPart");
     DepthInsight.point := toPoint (get record "point") (500, 500) |}.

Definition sanitizeDepthResult (raw : JSValue) (options : AnalyzeOptions.t)
    (model : string) : DepthAnalysisResult.t :=
  if negb (truthy raw && isObjectLike raw) then toDefaultDepthResult options model
  else
    let source := raw in
    let insights := sliceMap (get source "insights") 10 depthInsight in
    {| DepthAnalysisResult.model := model;
       DepthAnalysisResult.frameId := default 0 (AnalyzeOptions.frameId options);
       DepthAnalysisResult.capturedAt := default now (AnalyzeOptions.capturedAt options);
       DepthAnalysisResult.confidence :=
         toConfidence (get source "confidence")
                      (match insights with [] => 1 # 10 | _ => 56 # 100 end);
       DepthAnalysisResult.summary := toStringOrFallback (get source "summary") "";
       DepthAnalysisResult.insights := insights;
       DepthAnalysisResult.semanticAnchors := buildDepthAnchors insights |}.

End Sanitizers.

End Sanitizer.

(* ===================================================================== *)
(** ** Model gate ([acquireGate], [releaseGate]) *)
(* ===================================================================== *)

Module Gate.
Import Json.

Definition LITE_COOLDOWN_MS : Z := 450.
Definition FLASH_COOLDOWN_MS : Z := 3200.
Definition PRO_COOLDOWN_MS : Z := 45000.
Definition GATE_POLL_MS : Z := 24.
Definition GATE_MAX_WAIT_MS : Z := 16000.

Inductive LaneName := lite | flash | pro.

Definition LaneName_eqb (a b : LaneName) : bool :=
  match a, b with
  | lite, lite | flash, flash | pro, pro => true
  | _, _ => false
  end.

Record ModelGate := mkGate {
  inFlight : bool;
  lastCompletedAt : Z
}.

(** A thrown value: an object with the three properties the code
    inspects, or anything that is not an object. *)
Inductive JSError :=
  | ErrorObject (status : option Z) (code : option string) (message : option string)
  | ThrownValue.

(** [new Error(message)] *)
Definition newError (message : string) : JSError :=
  ErrorObject None None (Some message).

(** The process-wide registries, the clock read by [Date.now()], and a
    log of the [generateContent] calls made (model and timeout).
    [gates] is the [Record<string, ModelGate>] object; model identifiers
    that name a property of [Object.prototype] are left out (for them
    [acquireGate] never grants). *)
Record World := mkWorld {
  gates : gmap string ModelGate;
  resolvedLaneModels : LaneName -> option string;
  clock : Z;
  calls : list (string * Q)
}.

(** [/pattern/i.test(s)] for a lower-case literal pattern. *)
Definition testCI (pattern s : string) : bool :=
  includes pattern (toLowerCase s).

Definition cooldownForModel (model : string) : Z :=
  if testCI "flash-lite" model then LITE_COOLDOWN_MS
  else if testCI "pro" model then PRO_COOLDOWN_MS
  else if testCI "flash" model then FLASH_COOLDOWN_MS
  else FLASH_COOLDOWN_MS.

(** [getGate]: the gate of [model], created on first use. *)
Definition getGate (gs : gmap string ModelGate) (model : string)
  : gmap string ModelGate * ModelGate :=
  match gs !! model with
  | Some g => (gs, g)
  | None =>
      let g := {| inFlight := false; lastCompletedAt := 0 |} in
      (<[model := g]> gs, g)
  end.

Definition withGates (w : World) (gs : gmap string ModelGate) : World :=
  {| gates := gs;
     resolvedLaneModels := resolvedLaneModels w;
     clock := clock w;
     calls := calls w |}.

Inductive AcquireStep :=
  | Granted
  | SleepFor (ms : Z)
  | TimedOut.

(** One pass through the body of [while (true)] in [acquireGate], up to
    its [return], [throw] or [await sleep(..)]. *)
Definition acquireCheck (gate : ModelGate) (cooldown startedAt nowMs : Z)
  : AcquireStep :=
  if negb (inFlight gate) then
    let elapsed := nowMs - lastCompletedAt gate in
    if elapsed >=? cooldown then Granted
    else SleepFor (Z.min (Z.max (cooldown - elapsed) GATE_POLL_MS) 400)
  else if nowMs - startedAt >? GATE_MAX_WAIT_MS then TimedOut
  else SleepFor GATE_POLL_MS.

(** The same pass on the world: the gate is looked up (and created),
    and [inFlight] is set when the pass grants. *)
Definition tryAcquire (w : World) (model : string) (startedAt : Z)
  : World * AcquireStep :=
  let '(gs, gate) := getGate (gates w) model in
  let step := acquireCheck gate (cooldownForModel model) startedAt (clock w) in
  match step with
  | Granted =>
      (withGates w (<[model := {| inFlight := true;
                                  lastCompletedAt := lastCompletedAt gate |}]> gs),
       step)
  | _ => (withGates w gs, step)
  end.

Definition releaseGate (w : World) (model : string) : World :=
  let '(gs, _) := getGate (gates w) model in
  withGates w (<[model := {| inFlight := false; lastCompletedAt := clock w |}]> gs).

(** What the event loop can do to the gates between two steps of one
    task: time passes, some task runs one pass of [acquireGate], some
    task runs [releaseGate]. *)
Inductive GateEvent :=
  | Tick (dt : Z)
  | Poll (model : string) (startedAt : Z)
  | Release (model : string).

Definition step (w : World) (ev : GateEvent) : World :=
  match ev with
  | Tick dt =>
      {| gates := gates w;
         resolvedLaneModels := resolvedLaneModels w;
         clock := clock w + dt;
         calls := calls w |}
  | Poll model startedAt => fst (tryAcquire w model startedAt)
  | Release model => releaseGate w model
  end.

Definition run (w : World) (evs : list GateEvent) : World :=
  fold_left step evs w.

(** Whether a pass of [acquireGate] for [model] run in [w] grants. *)
Definition grants (w : World) (model : string) (startedAt : Z) : bool :=
  match snd (tryAcquire w model startedAt) with
  | Granted => true
  | _ => false
  end.

Definition monotone (ev : GateEvent) : Prop :=
  match ev with
  | Tick dt => 0 <= dt
  | _ => True
  end.

End Gate.

(* ===================================================================== *)
(** ** Fallback orchestrator and lane entry points *)
(* ===================================================================== *)

Module Lanes.
Import JS Json Gate Sanitizer.

Definition LITE_FALLBACK_MODELS : list string :=
  ["gemini-2.5-flash"; "gemini-3-flash-preview"]%string.
Definition FLASH_FALLBACK_MODELS : list string := ["gemini-3-flash-preview"]%string.
Definition PRO_FALLBACK_MODELS : list string := ["gemini-3.1-pro-preview"]%string.

Definition LITE_TIMEOUT_MS : Q := 6500.
Definition FLASH_TIMEOUT_MS : Q := 9000.
Definition PRO_TIMEOUT_MS : Q := 120000.

(** How one [await withTimeout(getClient().models.generateContent(..))]
    ends: a response with its [text], a rejection (backend error or the
    timeout of [withTimeout]), or [getClient()] throwing before any
    request is made. *)
Inductive BackendOutcome :=
  | Text (text : option string)
  | Rejected (e : JSError)
  | NoClient.

(** The rest of the system as seen by one lane call: what happens to
    the gates during each of its suspensions, and how each of its
    backend calls ends. *)
Record Env := mkEnv {
  wakes : list (list GateEvent);
  responses : list BackendOutcome
}.

(** Result of an [async] function: fulfilled, rejected, or still
    suspended when the script of the environment ends. *)
Inductive Outcome (A : Type) :=
  | Returned (a : A) (w : World) (env : Env)
  | Threw (e : JSError) (w : World) (env : Env)
  | Pending.
Arguments Returned {A}.
Arguments Threw {A}.
Arguments Pending {A}.

Definition gateTimeoutError (model : string) : JSError :=
  newError ("Model " ++ model ++ " gate wait timed out").

(** The loop of [acquireGate]; each [await sleep(..)] consumes one entry
    of [wakes]. *)
Fixpoint acquireLoop (model : string) (startedAt : Z)
    (rs : list BackendOutcome) (ws : list (list GateEvent)) (w : World)
    {struct ws} : Outcome unit :=
  let '(w1, s) := tryAcquire w model startedAt in
  match s with
  | Granted => Returned tt w1 (mkEnv ws rs)
  | TimedOut => Threw (gateTimeoutError model) w1 (mkEnv ws rs)
  | SleepFor _ =>
      match ws with
      | [] => Pending
      | evs :: ws' => acquireLoop model startedAt rs ws' (run w1 evs)
      end
  end.

Definition acquireGate (model : string) (w : World) (env : Env) : Outcome unit :=
  acquireLoop model (clock w) (responses env) (wakes env) w.

Definition matchesAny (patterns : list string) (s : string) : bool :=
  existsb (fun p => includes p s) patterns.

Definition shouldFallbackModelError (error : JSError) : bool :=
  match error with
  | ThrownValue => false
  | ErrorObject status code message =>
      let message := toLowerCase (default ""%string message) in
      let code := toLowerCase (default ""%string code) in
      if bool_decide (status = Some 404) then true
      else if bool_decide (status = Some 400)
              && matchesAny ["model"; "unknown"; "unsupported"; "not found";
                             "invalid"]%string message then true
      else if matchesAny ["model"; "unknown"; "unsupported"; "not found";
                          "does not exist"; "invalid model"]%string message then true
      else matchesAny ["not_found"; "model_not_found"; "unsupported"]%string code
  end.

(** [[...new Set(models)]]: first occurrences, in order. *)
Fixpoint uniq (seen : list string) (l : list string) : list string :=
  match l with
  | [] => []
  | s :: rest =>
      if existsb (String.eqb s) seen then uniq seen rest
      else s :: uniq (s :: seen) rest
  end.

Definition candidateModels (w : World) (lane : LaneName) (preferred : string)
    (fallbacks : list string) : list string :=
  let models :=
    List.filter (fun s => negb (String.eqb s ""))
      (match resolvedLaneModels w lane with
       | Some r => r :: preferred :: fallbacks
       | None => preferred :: fallbacks
       end) in
  uniq [] models.

Definition setResolved (w : World) (lane : LaneName) (model : string) : World :=
  {| gates := gates w;
     resolvedLaneModels :=
       fun l => if LaneName_eqb l lane then Some model else resolvedLaneModels w l;
     clock := clock w;
     calls := calls w |}.

Definition logCall (w : World) (model : string) (timeoutMs : Q) : World :=
  {| gates := gates w;
     resolvedLaneModels := resolvedLaneModels w;
     clock := clock w;
     calls := calls w ++ [(model, timeoutMs)] |}.

(** [await withTimeout(getClient().models.generateContent(..), ..)] for
    one model: [None] while the call is still suspended, otherwise how
    it ended ([inl]: the response's [text], [inr]: the value thrown).
    A request consumes one response and one wake of the environment;
    [getClient()] throwing consumes no wake and makes no request. *)
Definition callBackend (model : string) (timeoutMs : Q) (w : World) (env : Env)
  : option ((option string + JSError) * World * Env) :=
  let request (result : option string + JSError) (rs : list BackendOutcome) :=
    match wakes env with
    | [] => None
    | evs :: ws => Some (result, run (logCall w model timeoutMs) evs, mkEnv ws rs)
    end in
  match responses env with
  | [] => None
  | NoClient :: rs =>
      Some (inr (newError "GEMINI_API_KEY is not set"), w, mkEnv (wakes env) rs)
  | Text text :: rs => request (inl text) rs
  | Rejected e :: rs => request (inr e) rs
  end.

(** The [for (const model of models)] loop of
    [generateWithLaneFallback].  [acquireGate] is awaited before the
    [try]; the [finally] releases the gate on every way out of it. *)
Fixpoint fallbackLoop (lane : LaneName) (label : string) (timeoutMs : Q)
    (models : list string) (lastError : option JSError)
    (w : World) (env : Env) : Outcome (string * string) :=
  match models with
  | [] =>
      Threw (default (newError (label ++ " failed across candidate models"))
                     lastError) w env
  | model :: rest =>
      match acquireGate model w env with
      | Pending => Pending
      | Threw e w1 env1 => Threw e w1 env1
      | Returned _ w1 env1 =>
          match callBackend model timeoutMs w1 env1 with
          | None => Pending
          | Some (inl text, w2, env2) =>
              let w3 := setResolved w2 lane model in
              Returned (default ""%string text, model) (releaseGate w3 model) env2
          | Some (inr error, w2, env2) =>
              if shouldFallbackModelError error
              then fallbackLoop lane label timeoutMs rest (Some error)
                     (releaseGate w2 model) env2
              else Threw error (releaseGate w2 model) env2
          end
      end
  end.

Definition generateWithLaneFallback (lane : LaneName) (label : string)
    (preferredModel : string) (fallbackModels : list string) (timeoutMs : Q)
    (w : World) (env : Env) : Outcome (string * string) :=
  fallbackLoop lane label timeoutMs
    (candidateModels w lane preferredModel fallbackModels) None w env.

Definition computeTimeoutMs (explicitTimeoutMs : option Q) (baseTimeoutMs : Q)
    (base64Image : string) (capTimeoutMs : Q) : Q :=
  let approxBytes :=
    round (inject_Z (Z.of_nat (String.length base64Image)) * 3 / 4) in
  let bySize :=
    if Qgtb approxBytes 380000 then Qmin (baseTimeoutMs + 2400) capTimeoutMs
    else if Qgtb approxBytes 240000 then Qmin (baseTimeoutMs + 1200) capTimeoutMs
    else baseTimeoutMs in
  match explicitTimeoutMs with
  | Some t => if Qgtb t 0 then round t else bySize
  | None => bySize
  end%Q.

Section Analyze.
Variable stringToNumber : string -> JSNum.
(** [JSON.parse] of the host; [None] is its [SyntaxError]. *)
Variable JSON_parse : string -> option JSValue.

Definition safeJsonParse (value : string) : JSValue :=
  if String.eqb value "" then JObject []
  else default (JObject []) (JSON_parse value).

Definition nowOf (w : World) : Q := inject_Z (clock w).

Definition analyzeLitePrimaryEmotion (base64Image : string)
    (options : AnalyzeOptions.t) (w : World) (env : Env)
  : Outcome LiteAnalysisResult.t :=
  let timeoutMs :=
    computeTimeoutMs (AnalyzeOptions.timeoutMs options) LITE_TIMEOUT_MS
                     base64Image 9000 in
  match generateWithLaneFallback lite "Lite primary emotion" LITE_MODEL
          LITE_FALLBACK_MODELS timeoutMs w env with
  | Returned (text, model) w' env' =>
      Returned (sanitizeLiteResult stringToNumber (nowOf w')
                  (safeJsonParse text) options model) w' env'
  | Threw _ w' env' =>
      Returned (toDefaultLiteResult (nowOf w') options
                  (default LITE_MODEL (resolvedLaneModels w' lite))) w' env'
  | Pending => Pending
  end.

Definition analyzeFlashInsights (base64Image : string)
    (options : AnalyzeOptions.t) (w : World) (env : Env)
  : Outcome FastAnalysisResult.t :=
  let timeoutMs :=
    computeTimeoutMs (AnalyzeOptions.timeoutMs options) FLASH_TIMEOUT_MS
                     base64Image 16000 in
  match generateWithLaneFallback flash "Flash insights" FLASH_MODEL
          FLASH_FALLBACK_MODELS timeoutMs w env with
  | Returned (text, model) w' env' =>
      Returned (sanitizeFlashResult stringToNumber (nowOf w')
                  (safeJsonParse text) options model) w' env'
  | Threw _ w' env' =>
      Returned (toDefaultFlashResult (nowOf w') options
                  (default FLASH_MODEL (resolvedLaneModels w' flash))) w' env'
  | Pending => Pending
  end.

Definition analyzeDepthInsights (base64Image : string)
    (options : AnalyzeOptions.t) (w : World) (env : Env)
  : Outcome DepthAnalysisResult.t :=
  let baseTimeoutMs :=
    computeTimeoutMs (AnalyzeOptions.timeoutMs options) PRO_TIMEOUT_MS
                     base64Image 58000 in
  let hasClip :=
    match AnalyzeOptions.videoClipBase64 options with
    | Some clip => negb (String.eqb clip "")
    | None => false
    end in
  let timeoutMs :=
    if hasClip then Qmin (baseTimeoutMs + 10000) 72000 else baseTimeoutMs in
  match generateWithLaneFallback pro "Pro medical interpretation" PRO_MODEL
          PRO_FALLBACK_MODELS timeoutMs w env with
  | Returned (text, model) w' env' =>
      Returned (sanitizeDepthResult stringToNumber (nowOf w')
                  (safeJsonParse text) options model) w' env'
  | Threw _ w' env' =>
      Returned (toDefaultDepthResult (nowOf w') options
                  (default PRO_MODEL (resolvedLaneModels w' pro))) w' env'
  | Pending => Pending
  end.

End Analyze.

End Lanes.

(* ===================================================================== *)
(** ** Vocabulary of the layout properties *)
(* ===================================================================== *)

Module LayoutSpec.
Import JS Layout.

(** How the box of one label was obtained, given the boxes placed
    before it. *)
Definition placedBy (hypot : Q -> Q -> Q) (bounds : Bounds)
    (placed : list LabelLayoutOutput) (c : LabelLayoutOutput)
  : Prop :=
  let inp := input c in
  let offsets := offsetsFor hypot bounds inp in
  let outward := outwardFor hypot bounds inp in
  (primarySearch bounds placed inp outward offsets = Some c
   /\ hasCollision placed inp c = false)
  \/ (primarySearch bounds placed inp outward offsets = None
      /\ outward <> None
      /\ retrySearch bounds placed inp offsets = Some c
      /\ hasCollisionRetry placed c = false)
  \/ (primarySearch bounds placed inp outward offsets = None
      /\ (outward = None \/ retrySearch bounds placed inp offsets = None)
      /\ c = fallbackPlacement bounds inp outward).

(** The loop of [layoutLabels] started from any [placed]. *)
Definition placeAll (hypot : Q -> Q -> Q) (bounds : Bounds)
    (placed : list LabelLayoutOutput)
    (sorted : list LabelLayoutInput) : list LabelLayoutOutput :=
  fold_left (fun placed inp => placed ++ [placeLabel hypot bounds placed inp])
            sorted placed.

(** Two labels that each fit a 100 x 40 viewport (default padding 8) but
    cannot both fit it. *)
Definition overlapInputs : list LabelLayoutInput :=
  [ mkInput "a" "A" 10 10 80 20 1 false;
    mkInput "b" "B" 10 10 80 20 (1 # 2) false ].

Definition overlapBounds : Bounds := mkBounds 100 40 None None None.

(** A label fits the viewport when the range [keepInBounds] clamps to is
    not empty in either direction. *)
Definition fitsViewport (bounds : Bounds) (inp : LabelLayoutInput)
  : bool :=
  let padding := default 8%Q (padding bounds) in
  JS.Qleb padding (bwidth bounds - width inp - padding)
  && JS.Qleb padding (bheight bounds - height inp - padding).

End LayoutSpec.

(* ===================================================================== *)
(** ** Vocabulary of the fusion properties *)
(* ===================================================================== *)

Module FusionSpec.
Import JS Fusion.

(** The frames the tracker builds: every landmark carries its own
    position in [points] as [index]
    ([primaryFace.map((landmark, index) => ({ index, .. }))]). *)
Definition frameIndexed (frame : option TrackedFaceFrame.t) : Prop :=
  match frame with
  | None => True
  | Some f =>
      forall (i : nat) (lm : TrackedLandmark.t),
        nth_error (TrackedFaceFrame.points f) i = Some lm ->
        TrackedLandmark.index lm = Z.of_nat i
  end.

(** Scenario data: fourteen landmarks, the first thirteen far from the
    mouth, landmark 13 at the given point; no named part is tracked. *)
Definition scenarioPoints (p13 : NormalizedPoint) : list TrackedLandmark.t :=
  map (fun i => TrackedLandmark.mk (Z.of_nat i) (0, inject_Z (Z.of_nat i))%Q)
      (seq 0 13)
  ++ [TrackedLandmark.mk 13 p13].

Definition scenarioFrame (timestampMs : Q) (p13 : NormalizedPoint)
    (parts : FacialPartHint -> option NormalizedPoint) : TrackedFaceFrame.t :=
  TrackedFaceFrame.mk timestampMs (scenarioPoints p13) parts None 1.

Definition scenarioAnchor : SemanticAnchor.t :=
  SemanticAnchor.mk "emo-happy-mouth-1" "happy" emotion mouth (700, 500)%Q
                    (9 # 10) (Some "high"%string) None.

Definition freshEngine : Engine := constructor (mkOptions None None None).

Definition mouthAt (p : NormalizedPoint) (part : FacialPartHint)
  : option NormalizedPoint :=
  match part with mouth => Some p | _ => None end.

End FusionSpec.

(* ===================================================================== *)
(** ** Vocabulary of the gate properties *)
(* ===================================================================== *)

Module GateSpec.
Import Gate.

(** [model] was released at or after time [T] and the clock has not gone
    back since. *)
Definition releasedSince (T : Z) (model : string) (w : World) : Prop :=
  T <= clock w
  /\ exists g, gates w !! model = Some g /\ T <= lastCompletedAt g.

(** The gate [acquireGate] works on: the registered one, or the fresh
    one [getGate] would register. *)
Definition gateOf (w : World) (model : string) : ModelGate :=
  snd (getGate (gates w) model).

Definition emptyWorld (nowMs : Z) : World :=
  mkWorld ∅ (fun _ => None) nowMs [].

End GateSpec.

(* ===================================================================== *)
(** ** Vocabulary of the sanitizer properties *)
(* ===================================================================== *)

Module SanitizerSpec.
Import JS Json Sanitizer.
Local Open Scope Q_scope.

Definition unitInterval (q : Q) : Prop := 0 <= q /\ q <= 1.

Definition onGrid (p : NormalizedPoint) : Prop :=
  (0 <= fst p /\ fst p <= 1000) /\ (0 <= snd p /\ snd p <= 1000).

Definition validFaceBox (box : option NormalizedFaceBox) : Prop :=
  match box with
  | None => True
  | Some (ymin, xmin, ymax, xmax) =>
      onGrid (ymin, xmin) /\ onGrid (ymax, xmax) /\ ymin < ymax /\ xmin < xmax
  end.

Definition angle (q : Q) : Prop := -90 <= q /\ q <= 90.

Definition validHeadPose (pose : option HeadPose.t) : Prop :=
  match pose with
  | None => True
  | Some h => angle (HeadPose.pitch h) /\ angle (HeadPose.yaw h)
              /\ angle (HeadPose.roll h)
  end.

Definition validAnchor (a : SemanticAnchor.t) : Prop :=
  unitInterval (SemanticAnchor.confidence a) /\ onGrid (SemanticAnchor.point a).

Definition validLite (r : LiteAnalysisResult.t) : Prop :=
  unitInterval (LiteAnalysisResult.confidence r)
  /\ unitInterval (LiteAnalysisResult.primaryConfidence r)
  /\ (length (LiteAnalysisResult.candidates r) <= 6)%nat
  /\ Forall (fun c => unitInterval (EmotionCandidate.confidence c))
            (LiteAnalysisResult.candidates r)
  /\ validFaceBox (LiteAnalysisResult.faceBox r)
  /\ validHeadPose (LiteAnalysisResult.headPose r).

Definition validFlash (r : FastAnalysisResult.t) : Prop :=
  unitInterval (FastAnalysisResult.confidence r)
  /\ (length (FastAnalysisResult.emotions r) <= 6)%nat
  /\ Forall (fun e => unitInterval (FastEmotion.confidence e)
                      /\ onGrid (FastEmotion.point e))
            (FastAnalysisResult.emotions r)
  /\ Forall (fun l => unitInterval (FastLandmark.confidence l)
                      /\ onGrid (FastLandmark.point l))
            (FastAnalysisResult.landmarks r)
  /\ Forall validAnchor (FastAnalysisResult.semanticAnchors r)
  /\ validFaceBox (FastAnalysisResult.faceBox r)
  /\ validHeadPose (FastAnalysisResult.headPose r).

Definition validDepth (r : DepthAnalysisResult.t) : Prop :=
  unitInterval (DepthAnalysisResult.confidence r)
  /\ (length (DepthAnalysisResult.insights r) <= 10)%nat
  /\ Forall (fun i => unitInterval (DepthInsight.confidence i)
                      /\ onGrid (DepthInsight.point i))
            (DepthAnalysisResult.insights r)
  /\ Forall validAnchor (DepthAnalysisResult.semanticAnchors r).

(** What an emotion finding and the anchor made of it have in common. *)
Definition emotionCore (e : FastEmotion.t)
  : string * FacialPartHint * NormalizedPoint * Q :=
  (FastEmotion.emotion e, FastEmotion.facialPart e, FastEmotion.point e,
   FastEmotion.confidence e).

Definition anchorCore (a : SemanticAnchor.t)
  : string * FacialPartHint * NormalizedPoint * Q :=
  (SemanticAnchor.label a, SemanticAnchor.facialPart a, SemanticAnchor.point a,
   SemanticAnchor.confidence a).

(** Follows the spec's words ("that response's own landmark list"): the
    landmark list a raw mid-lane response carries, each entry read with
    the sanitizer's own field readers.  [sanitizeFlashResult] itself
    never reads the property. *)
Definition responseLandmarks (stringToNumber : string -> JSNum)
    (raw : JSValue) : list FastLandmark.t :=
  match get raw "landmarks" with
  | JArray l =>
      map (fun record =>
             let part := toFacialPart (get record "facialPart") in
             {| FastLandmark.name := toStringOrFallback (get record "name") "landmark";
                FastLandmark.point :=
                  toPoint (get record "point") (defaultPointForPart part);
                FastLandmark.confidence :=
                  toConfidence stringToNumber (get record "confidence") (1 # 2);
                FastLandmark.facialPart := part |}) l
  | _ => []
  end.

(** A mid-lane response with one finding at [700, 500] whose part is
    "unknown" and one landmark, the mouth, at the same point. *)
Definition unknownPartResponse : JSValue :=
  JObject
    [ ("faceDetected", JBool true);
      ("emotions",
       JArray [ JObject [ ("emotion", JString "happy");
                          ("facialPart", JString "unknown");
                          ("point", JArray [JNumber (Fin 700); JNumber (Fin 500)]) ] ]);
      ("landmarks",
       JArray [ JObject [ ("name", JString "mouth");
                          ("facialPart", JString "mouth");
                          ("point", JArray [JNumber (Fin 700); JNumber (Fin 500)]);
                          ("confidence", JNumber (Fin (9 # 10))) ] ]) ]%string.

Definition noOptions : AnalyzeOptions.t :=
  AnalyzeOptions.mk None None None None None None.

End SanitizerSpec.

(* ===================================================================== *)
(** ** Vocabulary of the orchestrator properties *)
(* ===================================================================== *)

Module LanesSpec.
Import JS Json Gate Sanitizer Lanes.

(** The orchestrator call each lane entry point makes. *)
Definition liteCall (base64Image : string) (options : AnalyzeOptions.t)
    (w : World) (env : Env) : Outcome (string * string) :=
  generateWithLaneFallback lite "Lite primary emotion" LITE_MODEL
    LITE_FALLBACK_MODELS
    (computeTimeoutMs (AnalyzeOptions.timeoutMs options) LITE_TIMEOUT_MS
                      base64Image 9000) w env.

Definition flashCall (base64Image : string) (options : AnalyzeOptions.t)
    (w : World) (env : Env) : Outcome (string * string) :=
  generateWithLaneFallback flash "Flash insights" FLASH_MODEL
    FLASH_FALLBACK_MODELS
    (computeTimeoutMs (AnalyzeOptions.timeoutMs options) FLASH_TIMEOUT_MS
                      base64Image 16000) w env.

Definition depthCall (base64Image : string) (options : AnalyzeOptions.t)
    (w : World) (env : Env) : Outcome (string * string) :=
  let baseTimeoutMs :=
    computeTimeoutMs (AnalyzeOptions.timeoutMs options) PRO_TIMEOUT_MS
                     base64Image 58000 in
  let hasClip :=
    match AnalyzeOptions.videoClipBase64 options with
    | Some clip => negb (String.eqb clip "")
    | None => false
    end in
  generateWithLaneFallback pro "Pro medical interpretation" PRO_MODEL
    PRO_FALLBACK_MODELS
    (if hasClip then Qmin (baseTimeoutMs + 10000) 72000 else baseTimeoutMs)%Q
    w env.

Definition neverThrows {A} (o : Outcome A) : Prop :=
  match o with
  | Threw _ _ _ => False
  | _ => True
  end.

Definition safeLite (r : LiteAnalysisResult.t) : Prop :=
  LiteAnalysisResult.faceDetected r = false
  /\ LiteAnalysisResult.confidence r = 0%Q
  /\ LiteAnalysisResult.primaryConfidence r = 0%Q
  /\ LiteAnalysisResult.candidates r = [].

Definition safeFlash (r : FastAnalysisResult.t) : Prop :=
  FastAnalysisResult.faceDetected r = false
  /\ FastAnalysisResult.confidence r = 0%Q
  /\ FastAnalysisResult.emotions r = []
  /\ FastAnalysisResult.landmarks r = []
  /\ FastAnalysisResult.semanticAnchors r = [].

Definition safeDepth (r : DepthAnalysisResult.t) : Prop :=
  DepthAnalysisResult.confidence r = 0%Q
  /\ DepthAnalysisResult.insights r = []
  /\ DepthAnalysisResult.semanticAnchors r = [].

(** The lite model's gate is held by a call that never completes; the
    other candidates' gates have never been used. *)
Definition busyWorld : World :=
  mkWorld {[ LITE_MODEL := mkGate true 990000 ]} (fun _ => None) 1000000 [].

(** The lane call is woken twice, 9 s apart each time; a backend would
    answer the first request made. *)
Definition slowEnv : Env :=
  mkEnv [[Tick 9000]; [Tick 9000]; [Tick 10]] [Text (Some "{}"%string)].

(** A free world in which the backend rejects the first request. *)
Definition rejectingEnv (e : JSError) : Env := mkEnv [[Tick 700]] [Rejected e].

Definition noOptionsLane : AnalyzeOptions.t :=
  AnalyzeOptions.mk None None None None None None.

Definition quotaError : JSError :=
  ErrorObject (Some 429) (Some "RESOURCE_EXHAUSTED"%string)
              (Some "Quota exceeded for requests per minute"%string).

End LanesSpec.

(* ===================================================================== *)
(** ** Vocabulary of the further fusion properties *)
(* ===================================================================== *)

Module FusionInv.
Import JS Fusion.

(** The [bindings] map holds each id once, and every binding sits under
    the id of its own anchor. *)
Definition wellKeyed (e : Engine) : Prop :=
  NoDup (map fst (bindings e))
  /\ Forall (fun kb => fst kb = SemanticAnchor.id (anchor (snd kb))) (bindings e).


Definition onGrid (p : NormalizedPoint) : Prop :=
  ((0 <= fst p /\ fst p <= 1000) /\ (0 <= snd p /\ snd p <= 1000))%Q.

(** The second loop of [updateAnchors] started from any map. *)
Definition bindAll (e : Engine) (frame : option TrackedFaceFrame.t) (nowMs : Q)
    (bs : list (string * AnchorBinding)) (anchors : list SemanticAnchor.t)
  : list (string * AnchorBinding) :=
  fold_left (fun bs a =>
               map_set (SemanticAnchor.id a) (bindAnchor e frame nowMs bs a) bs)
            anchors bs.

End FusionInv.

(* ===================================================================== *)
(** ** Scenario data for the further fusion properties *)
(* ===================================================================== *)

Module FusionScenario.
Import JS Fusion FusionSpec.

Definition calmAnchor : SemanticAnchor.t :=
  SemanticAnchor.mk "emo-calm-unknown-1" "calm" emotion unknown (300, 400)%Q
                    (3 # 10) (Some "low"%string) None.

(** Both scenario anchors bound on the scenario frame at time 1000. *)
Definition twoAnchorEngine : Engine :=
  updateAnchors freshEngine [calmAnchor; scenarioAnchor]
    (Some (scenarioFrame 0 (705, 498)%Q (fun _ => None))) 1000.

End FusionScenario.

(* ===================================================================== *)
(** ** Vocabulary of the further gate and orchestrator properties *)
(* ===================================================================== *)

Module GateInv.
Import Gate Lanes.

(** An event that is not a release of [model]. *)
Definition keepsHeld (model : string) (ev : GateEvent) : Prop :=
  match ev with
  | Release m => m <> model
  | _ => True
  end.

(** The world an [async] function ended in, if it ended. *)
Definition finalWorld {A} (o : Outcome A) : option World :=
  match o with
  | Returned _ w _ => Some w
  | Threw _ w _ => Some w
  | Pending => None
  end.

End GateInv.

(* ===================================================================== *)
(** ** On-device tracker: from detected landmarks to a tracking frame *)
(* ===================================================================== *)

Module Tracker.
Import JS.
Local Open Scope Q_scope.

(** One detected landmark, in image-relative coordinates. *)
Record Landmark := mkLandmark { x : Q; y : Q }.

Definition FACIAL_PART_INDICES (part : FacialPartHint) : list nat :=
  match part with
  | leftEye => [33] | rightEye => [263]
  | leftEyeInner => [133] | rightEyeInner => [362]
  | leftBrow => [70] | rightBrow => [300]
  | leftBrowInner => [52] | rightBrowInner => [282]
  | nose => [1]
  | leftNoseHole => [44] | rightNoseHole => [274]
  | mouth => [13] | mouthLeft => [61] | mouthRight => [291]
  | mouthUpper => [0] | mouthLower => [17]
  | chin => [152] | forehead => [10]
  | leftCheek => [234] | rightCheek => [454]
  | faceCenter => [1]
  | unknown => []
  end%nat.

Definition toNormalizedPoint (x y : Q) : NormalizedPoint :=
  (clamp (round (y * 1000)) 0 1000, clamp (round (x * 1000)) 0 1000).

(** [indices.map((index) => landmarks[index]).filter(Boolean)] *)
Fixpoint candidatesOf (landmarks : list Landmark) (indices : list nat)
  : list Landmark :=
  match indices with
  | [] => []
  | i :: rest =>
      match nth_error landmarks i with
      | Some lm => lm :: candidatesOf landmarks rest
      | None => candidatesOf landmarks rest
      end
  end.

Definition pointFromLandmarkSet (landmarks : list Landmark) (indices : list nat)
  : option NormalizedPoint :=
  match candidatesOf landmarks indices with
  | [] => None
  | candidates =>
      let n := inject_Z (Z.of_nat (length candidates)) in
      let avgX := fold_left (fun sum item => sum + x item) candidates 0 / n in
      let avgY := fold_left (fun sum item => sum + y item) candidates 0 / n in
      Some (toNormalizedPoint avgX avgY)
  end.

(** The loop of [computeFaceBox]: running [minY, minX, maxY, maxX]. *)
Definition growBox (box : Q * Q * Q * Q) (point : TrackedLandmark.t)
  : Q * Q * Q * Q :=
  let '(minY, minX, maxY, maxX) := box in
  let p := TrackedLandmark.point point in
  let minY := if Qltb (fst p) minY then fst p else minY in
  let minX := if Qltb (snd p) minX then snd p else minX in
  let maxY := if Qgtb (fst p) maxY then fst p else maxY in
  let maxX := if Qgtb (snd p) maxX then snd p else maxX in
  (minY, minX, maxY, maxX).

Definition computeFaceBox (points : list TrackedLandmark.t)
  : option (Q * Q * Q * Q) :=
  match points with
  | [] => None
  | _ =>
      let '(minY, minX, maxY, maxX) := fold_left growBox points (1000, 1000, 0, 0) in
      if Qleb maxY minY || Qleb maxX minX then None
      else Some (minY, minX, maxY, maxX)
  end.

(** [MediaPipeTracker.track] from the detection result on: [faceLandmarks]
    is [result.faceLandmarks] ([None] when absent).  The readiness test
    on the landmarker and the video comes before and returns [null]. *)
Definition track (faceLandmarks : option (list (list Landmark)))
    (timestampMs : Q) : option TrackedFaceFrame.t :=
  match faceLandmarks with
  | Some (primaryFace :: _) =>
      match primaryFace with
      | [] => None
      | _ =>
          let points :=
            imap (fun index landmark =>
                    TrackedLandmark.mk (Z.of_nat index)
                      (toNormalizedPoint (x landmark) (y landmark)))
                 primaryFace in
          let parts := fun part =>
            if isUnknown part then None
            else pointFromLandmarkSet primaryFace (FACIAL_PART_INDICES part) in
          Some (TrackedFaceFrame.mk timestampMs points parts
                  (computeFaceBox points) 1)
      end
  | _ => None
  end.

(** A detected face of fourteen landmarks, the last one at image
    position (0.498, 0.705). *)
Definition smallFace : list Landmark :=
  map (fun i => mkLandmark (inject_Z (Z.of_nat i) / 100) (1 # 10)) (seq 0 13)
  ++ [mkLandmark (498 # 1000) (705 # 1000)].

End Tracker.

(* ===================================================================== *)
(** ** Point smoother ([PointSmoother]) *)
(* ===================================================================== *)

Module Smoother.
Import JS.
Local Open Scope Q_scope.

Record SmoothingState := mkState {
  point : NormalizedPoint;
  lastUpdatedAt : Q
}.

Record PointSmootherOptions := mkOptions {
  opt_attackMs : option Q;
  opt_releaseMs : option Q;
  opt_maxStateAgeMs : option Q
}.

Record PointSmoother := mkSmoother {
  states : gmap string SmoothingState;
  attackMs : Q;
  releaseMs : Q;
  maxStateAgeMs : Q
}.

Definition constructor (options : PointSmootherOptions) : PointSmoother :=
  {| states := ∅;
     attackMs := default 65 (opt_attackMs options);
     releaseMs := default 130 (opt_releaseMs options);
     maxStateAgeMs := default 6000 (opt_maxStateAgeMs options) |}.

Definition interpolate (from to alpha : Q) : Q := from + (to - from) * alpha.

Definition withStates (s : PointSmoother) (m : gmap string SmoothingState)
  : PointSmoother :=
  {| states := m;
     attackMs := attackMs s;
     releaseMs := releaseMs s;
     maxStateAgeMs := maxStateAgeMs s |}.

Section Host.
(** [Math.exp] and [Math.sqrt] of the host. *)
Variable exp : Q -> Q.
Variable sqrt : Q -> Q.

Definition alphaOf (s : PointSmoother) (existing : SmoothingState)
    (nextPoint : NormalizedPoint) (nowMs : Q) : Q :=
  let dt := Qmax 1 (nowMs - lastUpdatedAt existing) in
  let dy := fst nextPoint - fst (point existing) in
  let dx := snd nextPoint - snd (point existing) in
  let movement := sqrt (dy * dy + dx * dx) in
  let tau := if Qgtb movement 26 then attackMs s else releaseMs s in
  clamp (1 - exp (- dt / tau)) (1 # 10) (95 # 100).

(** [smooth]: the smoother after the call and the point returned. *)
Definition smooth (s : PointSmoother) (id : string) (nextPoint : NormalizedPoint)
    (nowMs : Q) : PointSmoother * NormalizedPoint :=
  match states s !! id with
  | None =>
      (withStates s (<[id := mkState nextPoint nowMs]> (states s)), nextPoint)
  | Some existing =>
      let alpha := alphaOf s existing nextPoint nowMs in
      let smoothed : NormalizedPoint :=
        (clamp (round (interpolate (fst (point existing)) (fst nextPoint) alpha)) 0 1000,
         clamp (round (interpolate (snd (point existing)) (snd nextPoint) alpha)) 0 1000) in
      (withStates s (<[id := mkState smoothed nowMs]> (states s)), smoothed)
  end.

End Host.

Definition fresh (s : PointSmoother) (nowMs : Q) (st : SmoothingState) : bool :=
  negb (Qgtb (nowMs - lastUpdatedAt st) (maxStateAgeMs s)).

Definition prune (s : PointSmoother) (nowMs : Q) : PointSmoother :=
  withStates s (filter (fun kv => fresh s nowMs (snd kv) = true) (states s)).

(** The smoothed value of one coordinate stays between the rounded,
    clamped old and new values. *)
Definition between (from to r : Q) : Prop :=
  clamp (round (Qmin from to)) 0 1000 <= r
  /\ r <= clamp (round (Qmax from to)) 0 1000.

End Smoother.

(* ===================================================================== *)
(** ** Adaptive quality manager ([AdaptiveQualityManager]) *)
(* ===================================================================== *)

Module Quality.
Import JS Json.
Local Open Scope Q_scope.

Inductive QualityTier := high | balanced | low.

Record QualityProfile := mkProfile {
  tier : QualityTier;
  maxCaptureSide : Q;
  jpegQuality : Q;
  fastIntervalMs : Q;
  depthIntervalMs : Q;
  maxVisibleTags : Q
}.

Definition TIERS (t : QualityTier) : QualityProfile :=
  match t with
  | high => mkProfile high 800 (78 # 100) 500 30000 12
  | balanced => mkProfile balanced 640 (72 # 100) 3500 35000 8
  | low => mkProfile low 480 (65 # 100) 4500 45000 4
  end.

Definition sum (values : list Q) : Q := fold_left Qplus values 0.

Definition average (values : list Q) : Q :=
  match values with
  | [] => 0
  | _ => sum values / inject_Z (Z.of_nat (length values))
  end.

(** [appendWindow]: append, then drop the oldest sample when the window
    is over [max]. *)
Definition appendWindow (window : list Q) (value : Q) (max : nat) : list Q :=
  let next := window ++ [value] in
  if (max <? length next)%nat then tl next else next.

Record Manager := mkManager {
  fastRtts : list Q;
  depthRtts : list Q;
  frameTimes : list Q;
  current : QualityTier
}.

(** [new AdaptiveQualityManager()] *)
Definition initial : Manager := mkManager [] [] [] high.

Definition tierOf (avgFast avgDepth avgFrame : Q) : QualityTier :=
  if Qgtb avgFast 900 || Qgtb avgDepth 3500 || Qgtb avgFrame 26 then low
  else if Qgtb avgFast 520 || Qgtb avgDepth 2100 || Qgtb avgFrame 19 then balanced
  else high.

Definition recomputeTier (m : Manager) : Manager :=
  mkManager (fastRtts m) (depthRtts m) (frameTimes m)
    (tierOf (average (fastRtts m)) (average (depthRtts m))
            (average (frameTimes m))).

(** [Number.isFinite(v) && v > 0] *)
Definition accepted (v : JSNum) : option Q :=
  match v with
  | Fin q => if Qgtb q 0 then Some q else None
  | _ => None
  end.

Definition reportFastRtt (m : Manager) (rttMs : JSNum) : Manager :=
  match accepted rttMs with
  | Some v => recomputeTier (mkManager (appendWindow (fastRtts m) v 24)
                               (depthRtts m) (frameTimes m) (current m))
  | None => m
  end.

Definition reportDepthRtt (m : Manager) (rttMs : JSNum) : Manager :=
  match accepted rttMs with
  | Some v => recomputeTier (mkManager (fastRtts m)
                               (appendWindow (depthRtts m) v 24)
                               (frameTimes m) (current m))
  | None => m
  end.

Definition reportFrameTime (m : Manager) (frameTimeMs : JSNum) : Manager :=
  match accepted frameTimeMs with
  | Some v => recomputeTier (mkManager (fastRtts m) (depthRtts m)
                               (appendWindow (frameTimes m) v 60) (current m))
  | None => m
  end.

Definition getProfile (m : Manager) : QualityProfile := TIERS (current m).

(** One call on the manager, and a sequence of calls from a new one. *)
Inductive Report :=
  | FastRtt (v : JSNum)
  | DepthRtt (v : JSNum)
  | FrameTime (v : JSNum).

Definition report (m : Manager) (r : Report) : Manager :=
  match r with
  | FastRtt v => reportFastRtt m v
  | DepthRtt v => reportDepthRtt m v
  | FrameTime v => reportFrameTime m v
  end.

Definition feed (reports : list Report) : Manager :=
  fold_left report reports initial.

(** What the manager keeps true about itself. *)
Definition consistent (m : Manager) : Prop :=
  (length (fastRtts m) <= 24)%nat
  /\ (length (depthRtts m) <= 24)%nat
  /\ (length (frameTimes m) <= 60)%nat
  /\ Forall (fun v => 0 < v) (fastRtts m ++ depthRtts m ++ frameTimes m)
  /\ current m = tierOf (average (fastRtts m)) (average (depthRtts m))
                        (average (frameTimes m)).

End Quality.

(* ===================================================================== *)
(** ** Performance telemetry ([PerfTelemetry]) *)
(* ===================================================================== *)

Module Perf.
Import JS Json.
Local Open Scope Q_scope.

Definition ascending (a b : Q) : Q := a - b.

Definition percentile (values : list Q) (p : Q) : Q :=
  match values with
  | [] => 0
  | _ =>
      let sorted := js_sort ascending values in
      let last := (Z.of_nat (length sorted) - 1)%Z in
      let index := Z.min last (Z.max 0 (Qfloor (inject_Z last * p))) in
      nth (Z.to_nat index) sorted 0
  end.

Definition trimWindow (values : list Q) (value : Q) (max : nat) : list Q :=
  let next := values ++ [value] in
  if (max <? length next)%nat then tl next else next.

Record PerfTelemetry := mkPerf {
  overlayFpsValues : list Q;
  fastRttValues : list Q;
  depthRttValues : list Q;
  renderedFrames : Z;
  droppedFrames : Z
}.

Definition initial : PerfTelemetry := mkPerf [] [] [] 0 0.

Definition reportFrameTime (t : PerfTelemetry) (frameTimeMs : JSNum)
  : PerfTelemetry :=
  match Quality.accepted frameTimeMs with
  | None => t
  | Some v =>
      mkPerf (overlayFpsValues t) (fastRttValues t) (depthRttValues t)
             (renderedFrames t + 1)
             (if Qgtb v 34 then droppedFrames t + 1 else droppedFrames t)%Z
  end.

Definition reportOverlayFps (t : PerfTelemetry) (fps : JSNum) : PerfTelemetry :=
  match Quality.accepted fps with
  | None => t
  | Some v =>
      mkPerf (trimWindow (overlayFpsValues t) v 120) (fastRttValues t)
             (depthRttValues t) (renderedFrames t) (droppedFrames t)
  end.

Definition reportFastRtt (t : PerfTelemetry) (rttMs : JSNum) : PerfTelemetry :=
  match Quality.accepted rttMs with
  | None => t
  | Some v =>
      mkPerf (overlayFpsValues t) (trimWindow (fastRttValues t) v 240)
             (depthRttValues t) (renderedFrames t) (droppedFrames t)
  end.

Definition reportDepthRtt (t : PerfTelemetry) (rttMs : JSNum) : PerfTelemetry :=
  match Quality.accepted rttMs with
  | None => t
  | Some v =>
      mkPerf (overlayFpsValues t) (fastRttValues t)
             (trimWindow (depthRttValues t) v 120)
             (renderedFrames t) (droppedFrames t)
  end.

Record PerfSnapshot := mkSnapshot {
  overlayFps : Q;
  fastRttP50 : Q;
  depthRttP50 : Q;
  droppedFrameRatio : Q
}.

Definition snapshot (t : PerfTelemetry) : PerfSnapshot :=
  {| overlayFps := percentile (overlayFpsValues t) (1 # 2);
     fastRttP50 := percentile (fastRttValues t) (1 # 2);
     depthRttP50 := percentile (depthRttValues t) (1 # 2);
     droppedFrameRatio :=
       if (renderedFrames t =? 0)%Z then 0
       else inject_Z (droppedFrames t) / inject_Z (renderedFrames t) |}.

Inductive Report :=
  | OverlayFps (v : JSNum)
  | FrameTime (v : JSNum)
  | FastRtt (v : JSNum)
  | DepthRtt (v : JSNum).

Definition report (t : PerfTelemetry) (r : Report) : PerfTelemetry :=
  match r with
  | OverlayFps v => reportOverlayFps t v
  | FrameTime v => reportFrameTime t v
  | FastRtt v => reportFastRtt t v
  | DepthRtt v => reportDepthRtt t v
  end.

Definition feed (reports : list Report) : PerfTelemetry :=
  fold_left report reports initial.

End Perf.


(* ===================================================================== *)
(** ** Request validation of the analyze routes ([api/analyze/shared.ts]) *)
(* ===================================================================== *)

Module Payload.
Import JS Json.
Local Open Scope Q_scope.

Definition MAX_IMAGE_BASE64_LENGTH : Z := 4000000.
Definition MIN_IMAGE_BASE64_LENGTH : Z := 128.
Definition MAX_VIDEO_BASE64_LENGTH : Z := 8000000.
Definition MIN_VIDEO_BASE64_LENGTH : Z := 256.
Definition MAX_FRAME_AGE_MS : Q := 15000.
Definition MAX_VIDEO_DURATION_MS : Q := 8000.

Record AnalyzeRequestPayload := mkPayload {
  image : string;
  frameId : Q;
  capturedAt : Q;
  width : Q;
  height : Q;
  videoClipBase64 : option string;
  videoMimeType : option string;
  videoDurationMs : option Q
}.

(** [{ payload }] or [{ response: fail(message, status) }]. *)
Inductive Parsed :=
  | payload (p : AnalyzeRequestPayload)
  | response (message : string) (status : Z).

Definition fail (message : string) (status : Z) : Parsed :=
  response message status.

(** [s.length] *)
Definition len (s : string) : Z := Z.of_nat (String.length s).

Definition toFiniteNumber (value : JSValue) : option Q :=
  match value with
  | JNumber (Fin q) => Some q
  | _ => None
  end.

Definition toPositiveInt (value : JSValue) : option Q :=
  match toFiniteNumber value with
  | None => None
  | Some parsed =>
      let rounded := round parsed in
      if Qgtb rounded 0 then Some rounded else None
  end.

(** [typeof v === "string" ? v : ""] *)
Definition stringOrEmpty (v : JSValue) : string :=
  match v with
  | JString s => s
  | _ => ""%string
  end.

(** [s || undefined] *)
Definition nonEmpty (s : string) : option string :=
  if String.eqb s "" then None else Some s.

(** [/^video\/webm/i.test(s)] *)
Definition isWebm (s : string) : bool :=
  String.prefix "video/webm" (toLowerCase s).

(** [parseAnalyzePayload] once [request.json()] has produced [body];
    [now] is the reading of [Date.now()].  [maxSide] is the integer the
    routes pass; it is printed into the message. *)
Definition parseAnalyzePayload (body : JSValue) (maxSide : Z) (now : Q)
  : Parsed :=
  let image := stringOrEmpty (get body "image") in
  if String.eqb image "" || (len image <? MIN_IMAGE_BASE64_LENGTH)%Z
  then fail "No image provided" 400
  else if (len image >? MAX_IMAGE_BASE64_LENGTH)%Z
  then fail "Image payload too large" 413
  else
    let width := default 640 (toPositiveInt (get body "width")) in
    let height := default 360 (toPositiveInt (get body "height")) in
    if Qgtb width (inject_Z maxSide) || Qgtb height (inject_Z maxSide)
    then fail ("Input must be downscaled to <= " ++ pretty maxSide ++ "px") 400
    else
      let frameId := default 1 (toPositiveInt (get body "frameId")) in
      let rawCapturedAt := default now (toFiniteNumber (get body "capturedAt")) in
      let capturedAt := Qmin rawCapturedAt now in
      if Qgtb (now - capturedAt) MAX_FRAME_AGE_MS
      then fail "Stale frame rejected" 409
      else
        let videoClipBase64 := stringOrEmpty (get body "videoClipBase64") in
        let videoMimeType :=
          match get body "videoMimeType" with
          | JString s => trim s
          | _ => ""%string
          end in
        let videoDurationMs := toPositiveInt (get body "videoDurationMs") in
        let accepted :=
          payload {| image := image;
                     frameId := frameId;
                     capturedAt := capturedAt;
                     width := width;
                     height := height;
                     videoClipBase64 := nonEmpty videoClipBase64;
                     videoMimeType := nonEmpty videoMimeType;
                     videoDurationMs := videoDurationMs |} in
        if String.eqb videoClipBase64 "" then accepted
        else if (len videoClipBase64 <? MIN_VIDEO_BASE64_LENGTH)%Z
        then fail "Video payload too short" 400
        else if (len videoClipBase64 >? MAX_VIDEO_BASE64_LENGTH)%Z
        then fail "Video payload too large" 413
        else if String.eqb videoMimeType "" || negb (isWebm videoMimeType)
        then fail "Unsupported video format; use video/webm" 400
        else
          match videoDurationMs with
          | None => fail "Video duration is invalid or too long" 400
          | Some d =>
              if Qgtb d MAX_VIDEO_DURATION_MS
              then fail "Video duration is invalid or too long" 400
              else accepted
          end.



(** A body with a [len]-character image and the given other fields. *)
Definition bodyWith (n : nat) (fields : list (string * JSValue)) : JSValue :=
  JObject (("image"%string,
            JString (string_of_list_ascii (repeat "A"%char n))) :: fields).

End Payload.

(* ===================================================================== *)
(** ** Overlay page helpers: cover projection and legend de-duplication *)
(* ===================================================================== *)

Module Page.
Import JS Json.
Local Open Scope Q_scope.

Record CoverProjection := mkProjection {
  offsetX : Q;
  offsetY : Q;
  renderWidth : Q;
  renderHeight : Q
}.

(** The two fields of [HTMLVideoElement] the page reads. *)
Record Video := mkVideo {
  videoWidth : Q;
  videoHeight : Q
}.

(** [video?.field || fallback] for a numeric field. *)
Definition orFallback (v : option Q) (fallback : Q) : Q :=
  match v with
  | Some q => if Qeq_bool q 0 then fallback else q
  | None => fallback
  end.

Definition safeSide (viewportSide : Q) : Q := Qmax 1 viewportSide.

Definition sourceSide (field : option Q) (safe : Q) : Q :=
  Qmax 1 (orFallback field safe).

Definition computeCoverProjection (video : option Video)
    (viewportWidth viewportHeight : Q) : CoverProjection :=
  let safeWidth := safeSide viewportWidth in
  let safeHeight := safeSide viewportHeight in
  let sourceWidth := sourceSide (option_map videoWidth video) safeWidth in
  let sourceHeight := sourceSide (option_map videoHeight video) safeHeight in
  let sourceAspect := sourceWidth / sourceHeight in
  let viewportAspect := safeWidth / safeHeight in
  if Qgtb sourceAspect viewportAspect then
    let renderWidth := safeHeight * sourceAspect in
    {| offsetX := (safeWidth - renderWidth) / 2;
       offsetY := 0;
       renderWidth := renderWidth;
       renderHeight := safeHeight |}
  else if Qltb sourceAspect viewportAspect then
    let renderHeight := safeWidth / sourceAspect in
    {| offsetX := 0;
       offsetY := (safeHeight - renderHeight) / 2;
       renderWidth := safeWidth;
       renderHeight := renderHeight |}
  else
    {| offsetX := 0;
       offsetY := 0;
       renderWidth := safeWidth;
       renderHeight := safeHeight |}.

(** [toPixels]: the pair is [(x, y)]. *)
Definition toPixels (point : NormalizedPoint) (projection : CoverProjection)
  : Q * Q :=
  (offsetX projection + (snd point / 1000) * renderWidth projection,
   offsetY projection + (fst point / 1000) * renderHeight projection).

(** [dedupeProInsights]: the loop over the insights, on the insertion
    ordered [Map]. *)
Definition insightKey (i : DepthInsight.t) : string :=
  toLowerCase (trim (DepthInsight.keyword i)).

(** The body of the loop: [seen] after one more insight. *)
Definition seeInsight (seen : list (string * DepthInsight.t))
    (insight : DepthInsight.t) : list (string * DepthInsight.t) :=
  let key := insightKey insight in
  match Fusion.map_get key seen with
  | Some previous =>
      if Qgtb (DepthInsight.confidence insight)
              (DepthInsight.confidence previous)
      then Fusion.map_set key insight seen
      else seen
  | None => Fusion.map_set key insight seen
  end.

Definition seenInsights (insights : list DepthInsight.t)
  : list (string * DepthInsight.t) :=
  fold_left seeInsight insights [].

Definition byInsightConfidenceDesc (a b : DepthInsight.t) : Q :=
  DepthInsight.confidence b - DepthInsight.confidence a.

Definition dedupeProInsights (insights : list DepthInsight.t)
  : list DepthInsight.t :=
  js_sort byInsightConfidenceDesc (map snd (seenInsights insights)).

End Page.

(* ===================================================================== *)
(** ** Vocabulary of the further sanitizer properties *)
(* ===================================================================== *)

Module SanitizerInv.
Import JS Json Sanitizer.

(** No code unit of [s] is the dash that separates the parts of an
    anchor id. *)
Fixpoint dashFree (s : string) : bool :=
  match s with
  | EmptyString => true
  | String c s' => negb (Ascii.eqb c "-") && dashFree s'
  end.

(** The id of an emotion anchor: its key and its running number. *)
Definition emotionId (k : string) (n : nat) : string :=
  ("emo-" ++ k ++ "-" ++ pretty n)%string.

End SanitizerInv.

(* ===================================================================== *)
(** ** Vocabulary of the page helper properties *)
(* ===================================================================== *)

Module PageInv.
Import JS Page.

(** [seen] holds, under key [k], an insight of confidence at least [c]. *)
Definition covered (seen : list (string * DepthInsight.t)) (k : string) (c : Q)
  : Prop :=
  exists v, Fusion.map_get k seen = Some v /\ (c <= DepthInsight.confidence v)%Q.

End PageInv.
(* ===================================================================== *)
(** * Properties *)
(* ===================================================================== *)

(** ** Comparisons and sorting *)

Section JSFacts.
Import JS.

Lemma Qltb_lt (a b : Q) : Qltb a b = true <-> (a < b)%Q.
Proof.
  unfold Qltb. rewrite negb_true_iff. split.
  - intros H. apply Qnot_le_lt. intros Hle.
    apply Qle_bool_iff in Hle. congruence.
  - intros H. destruct (Qle_bool b a) eqn:E; [|reflexivity].
    apply Qle_bool_iff in E. exfalso. exact (Qlt_not_le _ _ H E).
Qed.

Lemma Qltb_ge (a b : Q) : Qltb a b = false <-> (b <= a)%Q.
Proof.
  unfold Qltb. rewrite negb_false_iff. apply Qle_bool_iff.
Qed.

Lemma clamp_bounds (v lo hi : Q) :
  (lo <= hi)%Q -> (lo <= clamp v lo hi /\ clamp v lo hi <= hi)%Q.
Proof.
  intros Hle. unfold clamp. split.
  - apply Q.min_glb; [exact Hle | apply Q.le_max_l].
  - apply Q.le_min_l.
Qed.

Lemma js_insert_In {A} (cmp : A -> A -> Q) (x y : A) (l : list A) :
  In y (js_insert cmp x l) <-> y = x \/ In y l.
Proof.
  induction l as [|z l IH]; simpl.
  - intuition.
  - destruct (Qgtb (cmp x z) 0); simpl; rewrite ?IH; intuition.
Qed.

Lemma js_sort_In {A} (cmp : A -> A -> Q) (y : A) (l : list A) :
  In y (js_sort cmp l) <-> In y l.
Proof.
  unfold js_sort. induction l as [|x l IH]; simpl; [tauto|].
  rewrite js_insert_In, IH. intuition.
Qed.

Lemma js_sort_length {A} (cmp : A -> A -> Q) (l : list A) :
  length (js_sort cmp l) = length l.
Proof.
  unfold js_sort. induction l as [|x l IH]; simpl; [reflexivity|].
  rewrite <- IH. generalize (fold_right (js_insert cmp) [] l). intros s.
  induction s as [|z s IHs]; simpl; [reflexivity|].
  destruct (Qgtb (cmp x z) 0); simpl; congruence.
Qed.

End JSFacts.

(** ** Label layout *)

Section LayoutFacts.
Import JS Layout LayoutSpec.
Variable hypot : Q -> Q -> Q.
Variable bounds : Bounds.

Lemma attemptAt_input inp off : input (attemptAt bounds inp off) = inp.
Proof. reflexivity. Qed.

Lemma fallbackPlacement_input inp outward :
  input (fallbackPlacement bounds inp outward) = inp.
Proof.
  unfold fallbackPlacement.
  destruct (preferDistance inp), outward; reflexivity.
Qed.

Lemma primarySearch_Some placed inp outward offsets c :
  primarySearch bounds placed inp outward offsets = Some c ->
  hasCollision placed inp c = false /\ input c = inp.
Proof.
  induction offsets as [|off rest IH]; simpl; [discriminate|].
  destruct (match outward with
            | Some dir => negb (isPlacementOutward (anchorX inp) (anchorY inp)
                                  (attemptAt bounds inp off) dir)
            | None => false
            end); [exact IH|].
  destruct (hasCollision placed inp (attemptAt bounds inp off)) eqn:E;
    [exact IH|].
  intros [= <-]. split; [exact E | reflexivity].
Qed.

Lemma retrySearch_Some placed inp offsets c :
  retrySearch bounds placed inp offsets = Some c ->
  hasCollisionRetry placed c = false /\ input c = inp.
Proof.
  induction offsets as [|off rest IH]; simpl; [discriminate|].
  destruct (hasCollisionRetry placed (attemptAt bounds inp off)) eqn:E;
    [exact IH|].
  intros [= <-]. split; [exact E | reflexivity].
Qed.

Lemma placeLabel_placedBy placed inp :
  placedBy hypot bounds placed (placeLabel hypot bounds placed inp)
  /\ input (placeLabel hypot bounds placed inp) = inp.
Proof.
  unfold placeLabel.
  destruct (primarySearch bounds placed inp (outwardFor hypot bounds inp)
              (offsetsFor hypot bounds inp)) as [c|] eqn:E1.
  - destruct (primarySearch_Some _ _ _ _ _ E1) as [Hc Hi].
    split; [|exact Hi]. left. unfold placedBy. rewrite Hi. auto.
  - destruct (outwardFor hypot bounds inp) as [dir|] eqn:Eo; cbn zeta iota.
    + destruct (retrySearch bounds placed inp (offsetsFor hypot bounds inp))
        as [c|] eqn:E2.
      * destruct (retrySearch_Some _ _ _ _ E2) as [Hc Hi].
        split; [|exact Hi]. right; left. unfold placedBy. rewrite Hi, Eo.
        repeat split; auto; discriminate.
      * split; [|apply fallbackPlacement_input].
        right; right. unfold placedBy.
        rewrite fallbackPlacement_input, Eo. auto.
    + split; [|apply fallbackPlacement_input].
      right; right. unfold placedBy.
      rewrite fallbackPlacement_input, Eo. auto.
Qed.

Lemma placeAll_prefix sorted : forall placed,
  exists tail, placeAll hypot bounds placed sorted = placed ++ tail.
Proof.
  induction sorted as [|inp rest IH]; intros placed.
  - exists []. simpl. now rewrite app_nil_r.
  - destruct (IH (placed ++ [placeLabel hypot bounds placed inp])) as [t Ht].
    change (placeAll hypot bounds placed (inp :: rest))
      with (placeAll hypot bounds (placed ++ [placeLabel hypot bounds placed inp]) rest).
    rewrite Ht, <- app_assoc. eauto.
Qed.

Lemma placeAll_each sorted : forall placed pre c post,
  placeAll hypot bounds placed sorted = pre ++ c :: post ->
  (length placed <= length pre)%nat ->
  exists inp, c = placeLabel hypot bounds pre inp.
Proof.
  induction sorted as [|inp rest IH]; intros placed pre c post Heq Hlen.
  - simpl in Heq. subst placed. rewrite length_app in Hlen. simpl in Hlen. lia.
  - change (placeAll hypot bounds placed (inp :: rest))
      with (placeAll hypot bounds (placed ++ [placeLabel hypot bounds placed inp]) rest) in Heq.
    destruct (Nat.eq_dec (length pre) (length placed)) as [E|E].
    + destruct (placeAll_prefix rest (placed ++ [placeLabel hypot bounds placed inp]))
        as [t Ht].
      rewrite Ht in Heq. rewrite <- app_assoc in Heq.
      apply app_inj_1 in Heq; [|congruence].
      destruct Heq as [-> Heq]. simpl in Heq. injection Heq as <- _. eauto.
    + apply (IH _ pre c post Heq). rewrite length_app. simpl. lia.
Qed.

Lemma intersects_within_gap (a b : LabelLayoutOutput) (gap : Q) :
  (0 <= gap)%Q -> intersects a b = true -> intersectsWithGap a b gap = true.
Proof.
  intros Hg. unfold intersects, intersectsWithGap, Qgtb.
  rewrite !andb_true_iff, !Qltb_lt. intros [[[H1 H2] H3] H4].
  repeat split; lra.
Qed.

Lemma existsb_false {A} (f : A -> bool) (l : list A) :
  existsb f l = false -> Forall (fun x => f x = false) l.
Proof.
  induction l as [|x l IH]; simpl; [constructor|].
  intros H. apply orb_false_iff in H. destruct H as [Hx Hl].
  constructor; auto.
Qed.

Lemma clear_of_gap (gap : Q) placed c :
  (0 <= gap)%Q ->
  existsb (fun existing => intersectsWithGap existing c gap) placed = false ->
  Forall (fun existing => intersects existing c = false) placed.
Proof.
  intros Hg H. apply existsb_false in H.
  eapply Forall_impl; [exact H|]. intros e He. simpl in He.
  destruct (intersects e c) eqn:E; [|reflexivity].
  rewrite (intersects_within_gap e c gap Hg E) in He. discriminate.
Qed.

Lemma placedBy_clear placed c :
  placedBy hypot bounds placed c ->
  c <> fallbackPlacement bounds (input c) (outwardFor hypot bounds (input c)) ->
  Forall (fun existing => intersects existing c = false) placed.
Proof.
  intros [[_ H]|[[_ [_ [_ H]]]|[_ [_ H]]]] Hne.
  - unfold hasCollision in H. destruct (preferDistance (input c)).
    + apply (clear_of_gap 10); [lra|exact H].
    + now apply existsb_false.
  - apply (clear_of_gap 6); [lra|exact H].
  - contradiction.
Qed.

End LayoutFacts.

(** C1, as stated, fails: both labels fit the viewport on their own, the
    first is placed at (12, 8), every offset of the second collides with
    it, and the fallback step puts the second at (12, 12) without any
    collision test, on top of the first. *)
Lemma layout_fallback_overlaps :
  forallb (LayoutSpec.fitsViewport LayoutSpec.overlapBounds) LayoutSpec.overlapInputs = true
  /\ (forall hypot,
        Layout.layoutLabels hypot LayoutSpec.overlapInputs LayoutSpec.overlapBounds 12
        = [ Layout.mkOutput (Layout.mkInput "a" "A" 10 10 80 20 1 false) 12 8;
            Layout.mkOutput (Layout.mkInput "b" "B" 10 10 80 20 (1 # 2) false) 12 12 ])
  /\ Layout.intersects
       (Layout.mkOutput (Layout.mkInput "a" "A" 10 10 80 20 1 false) 12 8)
       (Layout.mkOutput (Layout.mkInput "b" "B" 10 10 80 20 (1 # 2) false) 12 12)
     = true.
Proof.
  split; [reflexivity|]. split; [|reflexivity].
  intros hypot. vm_compute. reflexivity.
Qed.

(** The same happens to distance-preferring labels when no face centre
    is known: the second card falls to the fixed offset [52, 0] and lands
    on the first. *)
Example layout_fallback_overlaps_distance :
  let a := Layout.mkInput "a" "A" 10 10 80 20 1 true in
  let b := Layout.mkInput "b" "B" 10 10 80 20 (1 # 2) true in
  forall hypot,
    Layout.layoutLabels hypot [b; a] LayoutSpec.overlapBounds 12
    = [Layout.mkOutput a 8 8; Layout.mkOutput b 12 10]
    /\ Layout.intersects (Layout.mkOutput a 8 8) (Layout.mkOutput b 12 10) = true.
Proof.
  intros a b hypot. split; [vm_compute|]; reflexivity.
Qed.

(** C1 (amended): in the output of [layoutLabels], every box was either
    found by the first pass over the offsets and then collides with no
    box placed before it (gap 10 for a distance-preferring label, plain
    intersection otherwise), or found by the retry pass and then clears
    every earlier box by the gap 6, or it is the fallback placement,
    reached only after both passes found nothing.  Hence a box that is
    not the fallback placement of its label intersects no box placed
    before it. *)
Theorem layout_overlap_only_by_fallback
    (hypot : Q -> Q -> Q) (inputs : list Layout.LabelLayoutInput)
    (bounds : Layout.Bounds) (maxLabels : Z)
    (pre post : list Layout.LabelLayoutOutput) (c : Layout.LabelLayoutOutput) :
  Layout.layoutLabels hypot inputs bounds maxLabels = pre ++ c :: post ->
  LayoutSpec.placedBy hypot bounds pre c
  /\ (c <> Layout.fallbackPlacement bounds (Layout.input c)
             (Layout.outwardFor hypot bounds (Layout.input c)) ->
      Forall (fun existing => Layout.intersects existing c = false) pre).
Proof.
  intros Heq. unfold Layout.layoutLabels in Heq.
  assert (H : LayoutSpec.placedBy hypot bounds pre c).
  { destruct (placeAll_each hypot bounds _ [] pre c post Heq) as [inp ->];
      [simpl; lia|].
    apply placeLabel_placedBy. }
  split; [exact H|]. now apply placedBy_clear.
Qed.

(** The theorem at the two labels above: the first box was found by the
    first pass, the second is the fallback. *)
Lemma layout_overlap_only_by_fallback_witness :
  let a := Layout.mkOutput (Layout.mkInput "a" "A" 10 10 80 20 1 false) 12 8 in
  let b := Layout.mkOutput (Layout.mkInput "b" "B" 10 10 80 20 (1 # 2) false) 12 12 in
  Layout.layoutLabels (fun _ _ => 0%Q) LayoutSpec.overlapInputs
    LayoutSpec.overlapBounds 12 = [a] ++ b :: []
  /\ b = Layout.fallbackPlacement LayoutSpec.overlapBounds (Layout.input b)
           (Layout.outwardFor (fun _ _ => 0%Q) LayoutSpec.overlapBounds (Layout.input b))
  /\ LayoutSpec.placedBy (fun _ _ => 0%Q) LayoutSpec.overlapBounds [a] b
  /\ (b <> Layout.fallbackPlacement LayoutSpec.overlapBounds (Layout.input b)
             (Layout.outwardFor (fun _ _ => 0%Q) LayoutSpec.overlapBounds
                (Layout.input b)) ->
      Forall (fun existing => Layout.intersects existing b = false) [a]).
Proof.
  intros a b.
  assert (H : Layout.layoutLabels (fun _ _ => 0%Q) LayoutSpec.overlapInputs
                LayoutSpec.overlapBounds 12 = [a] ++ b :: [])
    by (vm_compute; reflexivity).
  split; [exact H|]. split; [vm_compute; reflexivity|].
  exact (layout_overlap_only_by_fallback (fun _ _ => 0%Q)
           LayoutSpec.overlapInputs LayoutSpec.overlapBounds 12 [a] [] b H).
Defined.

(** ** Anchor fusion *)

Section FusionFacts.
Import JS Fusion FusionSpec.
Local Open Scope Q_scope.

Lemma string_eqb_true (a b : string) : String.eqb a b = true -> a = b.
Proof. apply String.eqb_eq. Qed.

Lemma map_get_In {V} (k : string) (v : V) (m : list (string * V)) :
  map_get k m = Some v -> In (k, v) m.
Proof.
  induction m as [|[k' v'] m IH]; simpl; [discriminate|].
  destruct (String.eqb k k') eqn:E.
  - apply string_eqb_true in E. intros [= ->]. left. congruence.
  - intros H. right. exact (IH H).
Qed.

Lemma map_get_set {V} (k : string) (v : V) (m : list (string * V)) :
  map_get k (map_set k v m) = Some v.
Proof.
  induction m as [|[k' v'] m IH]; simpl.
  - now rewrite String.eqb_refl.
  - destruct (String.eqb k k') eqn:E; simpl.
    + now rewrite String.eqb_refl.
    + now rewrite E.
Qed.

Lemma map_get_filter_None {V} (P : string * V -> bool) (k : string)
    (m : list (string * V)) :
  map_get k m = None -> map_get k (List.filter P m) = None.
Proof.
  induction m as [|[k' v'] m IH]; simpl; [reflexivity|].
  destruct (String.eqb k k') eqn:E; [discriminate|].
  intros H. destruct (P (k', v')); simpl; [rewrite E|]; exact (IH H).
Qed.

(** *** The nearest landmark is a landmark of the frame *)

Lemma nearestLoop_index pts target : forall nearest best j,
  nearestLoop pts target nearest best = Some j ->
  nearest = Some j
  \/ exists lm, In lm pts /\ TrackedLandmark.index lm = j.
Proof.
  induction pts as [|p rest IH]; intros nearest best j; simpl.
  - auto.
  - destruct (match best with
              | Some b => Qltb (squaredDistance (TrackedLandmark.point p) target) b
              | None => true
              end); intros H; apply IH in H.
    + destruct H as [[= <-]|[lm [Hin Hj]]]; right; eauto.
    + destruct H as [H|[lm [Hin Hj]]]; [left; exact H|right; eauto].
Qed.

Lemma nearest_in_indexed_frame f target j :
  frameIndexed (Some f) ->
  nearestLandmarkIndex f target = Some j ->
  exists lm, pointAt f j = Some lm.
Proof.
  intros Hidx. unfold nearestLandmarkIndex.
  destruct (TrackedFaceFrame.points f) as [|p pts] eqn:Ep; [discriminate|].
  intros H. apply nearestLoop_index in H.
  destruct H as [H|[lm [Hin Hj]]]; [discriminate|].
  rewrite <- Ep in Hin. apply In_nth_error in Hin. destruct Hin as [i Hi].
  exists lm. unfold pointAt. rewrite <- Hj, (Hidx i lm Hi).
  destruct (Z.ltb_spec (Z.of_nat i) 0); [lia|].
  now rewrite Nat2Z.id.
Qed.

Lemma resolveProjected_total frame b :
  frameIndexed frame -> exists p, resolveProjected frame b = Some p.
Proof.
  intros Hidx. unfold resolveProjected.
  destruct (trackedPart frame _); [eauto|].
  destruct frame as [f|]; [|eauto].
  destruct (match landmarkIndex b with
            | Some i => _
            | None => None
            end); [eauto|].
  destruct (nearestLandmarkIndex f _) as [j|] eqn:E; [|eauto].
  destruct (nearest_in_indexed_frame f _ j Hidx E) as [lm ->]. eauto.
Qed.

Lemma resolveProjected_tracked frame b p :
  trackedPart frame (SemanticAnchor.facialPart (anchor b)) = Some p ->
  resolveProjected frame b = Some p.
Proof. intros H. unfold resolveProjected. now rewrite H. Qed.

(** *** The loop of [project] *)

Section Loop.
Variable e : Engine.
Variable frame : option TrackedFaceFrame.t.
Variable nowMs : Q.
Variable preserveStale : bool.

Lemma projectLoop_complete bs : forall kept out k b,
  projectLoop e frame nowMs preserveStale bs = (kept, Some out) ->
  In (k, b) bs -> expired e nowMs preserveStale b = false ->
  exists p, resolveProjected frame b = Some p /\ In (fuse e nowMs b p) out.
Proof.
  induction bs as [|[k0 b0] rest IH]; intros kept out k b Hloop Hin Hexp.
  - destruct Hin.
  - simpl in Hloop.
    destruct (expired e nowMs preserveStale b0) eqn:E0.
    + destruct Hin as [[= -> ->]|Hin]; [congruence|]. eauto.
    + destruct (resolveProjected frame b0) as [p0|] eqn:R0; [|discriminate].
      destruct (projectLoop e frame nowMs preserveStale rest) as [kept' [out'|]];
        [|discriminate].
      injection Hloop as <- <-.
      destruct Hin as [[= -> ->]|Hin].
      * exists p0. split; [exact R0|now left].
      * destruct (IH _ _ _ _ eq_refl Hin Hexp) as [p [Hp Hi]].
        exists p. split; [exact Hp|now right].
Qed.

Lemma projectLoop_sound bs : forall kept out fa,
  projectLoop e frame nowMs preserveStale bs = (kept, Some out) ->
  In fa out ->
  exists k b p, In (k, b) bs /\ expired e nowMs preserveStale b = false
                /\ resolveProjected frame b = Some p /\ fa = fuse e nowMs b p.
Proof.
  induction bs as [|[k0 b0] rest IH]; intros kept out fa Hloop Hin.
  - injection Hloop as <- <-. destruct Hin.
  - simpl in Hloop.
    destruct (expired e nowMs preserveStale b0) eqn:E0.
    + destruct (IH _ _ _ Hloop Hin) as [k [b [p [H1 H2]]]].
      exists k, b, p. split; [now right|exact H2].
    + destruct (resolveProjected frame b0) as [p0|] eqn:R0; [|discriminate].
      destruct (projectLoop e frame nowMs preserveStale rest) as [kept' [out'|]];
        [|discriminate].
      injection Hloop as <- <-.
      destruct Hin as [<-|Hin].
      * exists k0, b0, p0. repeat split; auto. now left.
      * destruct (IH _ _ _ eq_refl Hin) as [k [b [p [H1 H2]]]].
        exists k, b, p. split; [now right|exact H2].
Qed.

Lemma projectLoop_throws bs : forall kept,
  projectLoop e frame nowMs preserveStale bs = (kept, None) ->
  ~ frameIndexed frame.
Proof.
  induction bs as [|[k0 b0] rest IH]; intros kept Hloop Hidx.
  - discriminate.
  - simpl in Hloop.
    destruct (expired e nowMs preserveStale b0); [exact (IH _ Hloop Hidx)|].
    destruct (resolveProjected_total frame b0 Hidx) as [p Hp].
    rewrite Hp in Hloop.
    destruct (projectLoop e frame nowMs preserveStale rest) as [kept' [out'|]];
      [discriminate|]. exact (IH _ eq_refl Hidx).
Qed.

Lemma projectLoop_again bs : forall kept r,
  projectLoop e frame nowMs preserveStale bs = (kept, r) ->
  projectLoop e frame nowMs preserveStale kept = (kept, r).
Proof.
  induction bs as [|[k0 b0] rest IH]; intros kept r Hloop.
  - injection Hloop as <- <-. reflexivity.
  - simpl in Hloop.
    destruct (expired e nowMs preserveStale b0) eqn:E0; [eauto|].
    destruct (resolveProjected frame b0) as [p0|] eqn:R0.
    + destruct (projectLoop e frame nowMs preserveStale rest) as [kept' r'] eqn:L.
      injection Hloop as <- <-. simpl. rewrite E0, R0.
      now rewrite (IH _ _ eq_refl).
    + injection Hloop as <- <-. simpl. now rewrite E0, R0.
Qed.

End Loop.

Lemma project_unfold e frame nowMs ps :
  project e frame nowMs ps
  = (withBindings e (fst (projectLoop e frame nowMs ps (bindings e))),
     match snd (projectLoop e frame nowMs ps (bindings e)) with
     | Some l => Some (js_sort byConfidenceDesc l)
     | None => None
     end).
Proof.
  unfold project.
  now destruct (projectLoop e frame nowMs ps (bindings e)).
Qed.

Lemma projectLoop_withBindings e bs' frame nowMs ps bs :
  projectLoop (withBindings e bs') frame nowMs ps bs
  = projectLoop e frame nowMs ps bs.
Proof.
  induction bs as [|[k b] rest IH]; simpl; [reflexivity|].
  rewrite IH. reflexivity.
Qed.

End FusionFacts.

Section FusionClaims.
Import JS Fusion FusionSpec.
Local Open Scope Q_scope.

Lemma trackedPart_Some f part p :
  part <> unknown -> TrackedFaceFrame.parts f part = Some p ->
  trackedPart (Some f) part = Some p.
Proof.
  intros Hne Hp. unfold trackedPart.
  destruct part; simpl; try exact Hp. congruence.
Qed.

(** C5: a binding that [project] keeps, whose anchor names a facial part
    present in the frame's part map, is returned with exactly that
    part's tracked point, whatever landmark index and offset the binding
    stores; and every returned anchor naming that part sits on that
    point.  ([project] returns unless the frame's landmarks do not carry
    their own positions as indices, which the tracker never produces.) *)
Theorem project_named_part_priority
    (e : Engine) (f : TrackedFaceFrame.t) (nowMs : Q) (preserveStale : bool)
    (k : string) (b : AnchorBinding) (p : NormalizedPoint) :
  In (k, b) (bindings e) ->
  expired e nowMs preserveStale b = false ->
  SemanticAnchor.facialPart (anchor b) <> unknown ->
  TrackedFaceFrame.parts f (SemanticAnchor.facialPart (anchor b)) = Some p ->
  match snd (project e (Some f) nowMs preserveStale) with
  | Some out =>
      In {| fused := anchor b;
            projectedPoint := p;
            stale := Qgtb (nowMs - lastSeenAt b) (maxStaleMs e * (1 # 2)) |} out
      /\ (forall fa, In fa out ->
            SemanticAnchor.facialPart (fused fa)
            = SemanticAnchor.facialPart (anchor b) ->
            projectedPoint fa = p)
  | None => ~ frameIndexed (Some f)
  end.
Proof.
  intros Hin Hexp Hne Hp. rewrite project_unfold. cbn [snd].
  destruct (projectLoop e (Some f) nowMs preserveStale (bindings e))
    as [kept [out|]] eqn:L; cbn [snd].
  - split.
    + apply js_sort_In.
      destruct (projectLoop_complete _ _ _ _ _ _ _ _ _ L Hin Hexp) as [q [Hq Hi]].
      rewrite (resolveProjected_tracked _ _ _ (trackedPart_Some _ _ _ Hne Hp)) in Hq.
      injection Hq as <-. exact Hi.
    + intros fa Hfa Hpart. apply js_sort_In in Hfa.
      destruct (projectLoop_sound _ _ _ _ _ _ _ _ L Hfa)
        as [k' [b' [q [_ [_ [Hq ->]]]]]].
      cbn [fuse fused projectedPoint] in *.
      rewrite <- Hpart in Hne, Hp.
      rewrite (resolveProjected_tracked _ _ _ (trackedPart_Some _ _ _ Hne Hp)) in Hq.
      congruence.
  - exact (projectLoop_throws _ _ _ _ _ _ L).
Qed.

(** The theorem at the binding of the example scenario (landmark 13,
    offset [-5, 2]) once the mouth is tracked at [640, 470]. *)
Lemma project_named_part_priority_witness :
  let e := updateAnchors freshEngine [scenarioAnchor]
             (Some (scenarioFrame 0 (705, 498) (fun _ => None))) 1000 in
  let b := mkBinding scenarioAnchor (Some 13%Z) (Some (-5, 2)) 1000 in
  let f := scenarioFrame 33 (650, 480) (mouthAt (640, 470)) in
  In ("emo-happy-mouth-1"%string, b) (bindings e)
  /\ expired e 1033 false b = false
  /\ SemanticAnchor.facialPart (anchor b) <> unknown
  /\ TrackedFaceFrame.parts f (SemanticAnchor.facialPart (anchor b)) = Some (640, 470)
  /\ snd (project e (Some f) 1033 false)
     = Some [ {| fused := scenarioAnchor;
                 projectedPoint := (640, 470);
                 stale := false |} ]
  /\ match snd (project e (Some f) 1033 false) with
     | Some out =>
         In {| fused := anchor b;
               projectedPoint := (640, 470);
               stale := Qgtb (1033 - lastSeenAt b) (maxStaleMs e * (1 # 2)) |} out
         /\ (forall fa, In fa out ->
               SemanticAnchor.facialPart (fused fa)
               = SemanticAnchor.facialPart (anchor b) ->
               projectedPoint fa = (640, 470))
     | None => ~ frameIndexed
                   (Some (scenarioFrame 33 (650, 480) (mouthAt (640, 470))))
     end.
Proof.
  intros e b f.
  assert (H1 : In ("emo-happy-mouth-1"%string, b) (bindings e))
    by (left; reflexivity).
  assert (H2 : expired e 1033 false b = false) by reflexivity.
  assert (H3 : SemanticAnchor.facialPart (anchor b) <> unknown)
    by discriminate.
  assert (H4 : TrackedFaceFrame.parts f (SemanticAnchor.facialPart (anchor b))
               = Some (640, 470)) by reflexivity.
  refine (conj H1 (conj H2 (conj H3 (conj H4 (conj _ _))))).
  - reflexivity.
  - exact (project_named_part_priority e f 1033 false _ b _ H1 H2 H3 H4).
Defined.

(** C6: an anchor reported at [700, 500] whose facial part is not
    tracked, with no earlier binding, and whose nearest landmark is
    landmark 13 at [705, 498], is bound to landmark 13 with offset
    [-5, 2]; when the next frame has landmark 13 at [650, 480] (part
    still untracked), [project] returns it at [645, 482]. *)
Theorem project_applies_stored_offset
    (e : Engine) (a : SemanticAnchor.t) (f1 f2 : TrackedFaceFrame.t)
    (now1 now2 : Q) (preserveStale : bool) (lm1 lm2 : TrackedLandmark.t) :
  map_get (SemanticAnchor.id a) (bindings e) = None ->
  SemanticAnchor.point a = (700, 500) ->
  trackedPart (Some f1) (SemanticAnchor.facialPart a) = None ->
  trackedPart (Some f2) (SemanticAnchor.facialPart a) = None ->
  nearestLandmarkIndex f1 (700, 500) = Some 13%Z ->
  pointAt f1 13 = Some lm1 -> TrackedLandmark.point lm1 = (705, 498) ->
  pointAt f2 13 = Some lm2 -> TrackedLandmark.point lm2 = (650, 480) ->
  Qgtb (now2 - now1) (maxAgeMs e preserveStale) = false ->
  let e1 := updateAnchors e [a] (Some f1) now1 in
  map_get (SemanticAnchor.id a) (bindings e1)
  = Some {| anchor := a; landmarkIndex := Some 13%Z;
            offset := Some (-5, 2); lastSeenAt := now1 |}
  /\ match snd (project e1 (Some f2) now2 preserveStale) with
     | Some out =>
         In {| fused := a;
               projectedPoint := (645, 482);
               stale := Qgtb (now2 - now1) (maxStaleMs e * (1 # 2)) |} out
     | None => ~ frameIndexed (Some f2)
     end.
Proof.
  intros Hfresh Hpt Hp1 Hp2 Hnear H13 Hlm1 H13' Hlm2 Hage e1.
  assert (Hb : map_get (SemanticAnchor.id a) (bindings e1)
               = Some {| anchor := a; landmarkIndex := Some 13%Z;
                         offset := Some (-5, 2); lastSeenAt := now1 |}).
  { unfold e1, updateAnchors. cbn [bindings withBindings fold_left].
    rewrite map_get_set. f_equal. unfold bindAnchor.
    rewrite (map_get_filter_None _ _ _ Hfresh), Hp1.
    assert (Ht : resolveTargetPoint a f1 = (700, 500)).
    { unfold resolveTargetPoint. unfold trackedPart in Hp1.
      destruct (isUnknown (SemanticAnchor.facialPart a)); [exact Hpt|].
      now rewrite Hp1. }
    rewrite Ht. cbn [negb andb]. rewrite Hnear, H13, Hpt, Hlm1. reflexivity. }
  split; [exact Hb|].
  rewrite project_unfold. cbn [snd].
  destruct (projectLoop e1 (Some f2) now2 preserveStale (bindings e1))
    as [kept [out|]] eqn:L; cbn [snd].
  - apply js_sort_In.
    destruct (projectLoop_complete _ _ _ _ _ _ _ _ _ L (map_get_In _ _ _ Hb) Hage)
      as [q [Hq Hi]].
    unfold resolveProjected in Hq. cbn [anchor landmarkIndex offset] in Hq.
    rewrite Hp2, H13', Hlm2 in Hq. injection Hq as <-. exact Hi.
  - exact (projectLoop_throws _ _ _ _ _ _ L).
Qed.

(** The scenario on a fresh engine and fourteen-landmark frames. *)
Lemma project_applies_stored_offset_witness :
  let f1 := scenarioFrame 0 (705, 498) (fun _ => None) in
  let f2 := scenarioFrame 33 (650, 480) (fun _ => None) in
  let e1 := updateAnchors freshEngine [scenarioAnchor] (Some f1) 1000 in
  snd (project e1 (Some f2) 1033 false)
  = Some [ {| fused := scenarioAnchor;
              projectedPoint := (645, 482);
              stale := false |} ]
  /\ map_get "emo-happy-mouth-1" (bindings e1)
     = Some {| anchor := scenarioAnchor; landmarkIndex := Some 13%Z;
               offset := Some (-5, 2); lastSeenAt := 1000 |}
  /\ match snd (project e1 (Some f2) 1033 false) with
     | Some out =>
         In {| fused := scenarioAnchor;
               projectedPoint := (645, 482);
               stale := Qgtb (1033 - 1000) (maxStaleMs freshEngine * (1 # 2)) |} out
     | None => ~ frameIndexed (Some f2)
     end.
Proof.
  intros f1 f2 e1. split; [reflexivity|].
  exact (project_applies_stored_offset freshEngine scenarioAnchor f1 f2
           1000 1033 false
           (TrackedLandmark.mk 13 (705, 498)) (TrackedLandmark.mk 13 (650, 480))
           eq_refl eq_refl eq_refl eq_refl eq_refl eq_refl eq_refl eq_refl
           eq_refl eq_refl).
Defined.

(** C7: a second [project] with the same frame, time and options, and no
    [updateAnchors] in between, leaves the engine as the first call left
    it and returns the same list in the same order (or throws again
    where the first call threw). *)
Theorem project_idempotent
    (e : Engine) (frame : option TrackedFaceFrame.t) (nowMs : Q)
    (preserveStale : bool) :
  project (fst (project e frame nowMs preserveStale)) frame nowMs preserveStale
  = project e frame nowMs preserveStale.
Proof.
  rewrite (project_unfold e). cbn [fst].
  rewrite project_unfold. cbn [bindings withBindings].
  rewrite !projectLoop_withBindings.
  destruct (projectLoop e frame nowMs preserveStale (bindings e))
    as [kept r] eqn:L. cbn [fst snd].
  rewrite (projectLoop_again _ _ _ _ _ _ _ L). reflexivity.
Qed.

End FusionClaims.

(** ** Model gate *)

Section GateFacts.
Import Gate GateSpec.

Lemma acquireCheck_Granted gate cooldown startedAt nowMs :
  acquireCheck gate cooldown startedAt nowMs = Granted ->
  inFlight gate = false /\ cooldown <= nowMs - lastCompletedAt gate.
Proof.
  unfold acquireCheck. destruct (inFlight gate); simpl.
  - destruct (nowMs - startedAt >? GATE_MAX_WAIT_MS); discriminate.
  - destruct (Z.geb_spec (nowMs - lastCompletedAt gate) cooldown);
      [auto|discriminate].
Qed.

Lemma tryAcquire_clock w model startedAt :
  clock (fst (tryAcquire w model startedAt)) = clock w.
Proof.
  unfold tryAcquire. destruct (getGate (gates w) model) as [gs g].
  destruct (acquireCheck g _ _ _); reflexivity.
Qed.

Lemma tryAcquire_keeps w model startedAt T m :
  releasedSince T m w -> releasedSince T m (fst (tryAcquire w model startedAt)).
Proof.
  intros [Hc [g [Hg HT]]]. split; [now rewrite tryAcquire_clock|].
  unfold tryAcquire, getGate.
  destruct (decide (model = m)) as [->|Hne].
  - rewrite Hg.
    destruct (acquireCheck g _ _ _); cbn [fst gates withGates]; eauto.
    eexists. rewrite lookup_insert_eq. split; [reflexivity|exact HT].
  - destruct (gates w !! model) as [g'|];
      destruct (acquireCheck _ _ _ _); cbn [fst gates withGates];
      exists g; rewrite ?lookup_insert_ne by exact Hne; auto.
Qed.

Lemma releaseGate_keeps w model T m :
  releasedSince T m w -> releasedSince T m (releaseGate w model).
Proof.
  intros [Hc [g [Hg HT]]]. unfold releaseGate, getGate.
  destruct (decide (model = m)) as [->|Hne].
  - rewrite Hg. split; [exact Hc|]. cbn [gates withGates].
    eexists. rewrite lookup_insert_eq. split; [reflexivity|exact Hc].
  - split; [destruct (gates w !! model); exact Hc|].
    destruct (gates w !! model) as [g'|]; cbn [gates withGates];
      exists g; rewrite ?lookup_insert_ne by exact Hne; auto.
Qed.

Lemma step_keeps w ev T m :
  monotone ev -> releasedSince T m w -> releasedSince T m (step w ev).
Proof.
  destruct ev as [dt|model startedAt|model]; simpl; intros Hmono H.
  - destruct H as [Hc Hg]. split; [simpl; lia|exact Hg].
  - now apply tryAcquire_keeps.
  - now apply releaseGate_keeps.
Qed.

Lemma run_keeps evs : forall w T m,
  Forall monotone evs -> releasedSince T m w -> releasedSince T m (run w evs).
Proof.
  induction evs as [|ev evs IH]; intros w T m Hmono H; [exact H|].
  inversion Hmono; subst. simpl. apply IH; [assumption|].
  now apply step_keeps.
Qed.

Lemma releaseGate_released w model :
  releasedSince (clock w) model (releaseGate w model).
Proof.
  unfold releaseGate, getGate.
  destruct (gates w !! model); (split; [simpl; lia|]);
    cbn [gates withGates]; eexists; rewrite lookup_insert_eq;
    (split; [reflexivity|simpl; lia]).
Qed.

Lemma grants_spec w model startedAt :
  grants w model startedAt = true ->
  inFlight (gateOf w model) = false
  /\ cooldownForModel model <= clock w - lastCompletedAt (gateOf w model).
Proof.
  unfold grants, gateOf, tryAcquire.
  destruct (getGate (gates w) model) as [gs g]. cbn [snd].
  destruct (acquireCheck g _ _ _) eqn:E; cbn [snd]; try discriminate.
  intros _. exact (acquireCheck_Granted _ _ _ _ E).
Qed.

End GateFacts.

(** C8: a pass of [acquireGate] grants only when the gate is not in
    flight and the model's cooldown has elapsed since [lastCompletedAt];
    hence, after a release of [model] at time [T] and any interleaving of
    acquire passes, releases and (forward) clock ticks, no grant for
    [model] happens before [T + cooldownForModel model]. *)
Theorem cooldown_respected
    (w : Gate.World) (model : string) (evs : list Gate.GateEvent)
    (startedAt : Z) :
  Forall Gate.monotone evs ->
  Gate.grants (Gate.run (Gate.releaseGate w model) evs) model startedAt = true ->
  let w' := Gate.run (Gate.releaseGate w model) evs in
  Gate.inFlight (GateSpec.gateOf w' model) = false
  /\ Gate.cooldownForModel model
     <= Gate.clock w' - Gate.lastCompletedAt (GateSpec.gateOf w' model)
  /\ Gate.clock w + Gate.cooldownForModel model <= Gate.clock w'.
Proof.
  intros Hmono Hgrant w'.
  destruct (grants_spec _ _ _ Hgrant) as [Hfree Hcool].
  fold w' in Hfree, Hcool.
  destruct (run_keeps evs _ _ _ Hmono (releaseGate_released w model))
    as [_ [g [Hg HT]]].
  fold w' in Hg.
  assert (Hgate : GateSpec.gateOf w' model = g).
  { unfold GateSpec.gateOf, Gate.getGate. now rewrite Hg. }
  rewrite Hgate in *. repeat split; [exact Hfree|exact Hcool|lia].
Qed.

(** A release of the lite model at time 1000000, another task polling
    200 ms later (refused), and a grant 450 ms after the release. *)
Lemma cooldown_respected_witness :
  let w := GateSpec.emptyWorld 1000000 in
  let evs := [Gate.Tick 200; Gate.Poll Sanitizer.LITE_MODEL 1000200; Gate.Tick 250] in
  let w' := Gate.run (Gate.releaseGate w Sanitizer.LITE_MODEL) evs in
  Forall Gate.monotone evs
  /\ Gate.grants w' Sanitizer.LITE_MODEL 1000450 = true
  /\ Gate.grants (Gate.run (Gate.releaseGate w Sanitizer.LITE_MODEL) [Gate.Tick 200])
       Sanitizer.LITE_MODEL 1000200 = false
  /\ Gate.inFlight (GateSpec.gateOf w' Sanitizer.LITE_MODEL) = false
  /\ Gate.cooldownForModel Sanitizer.LITE_MODEL
     <= Gate.clock w' - Gate.lastCompletedAt (GateSpec.gateOf w' Sanitizer.LITE_MODEL)
  /\ Gate.clock w + Gate.cooldownForModel Sanitizer.LITE_MODEL <= Gate.clock w'.
Proof.
  intros w evs w'.
  assert (Hm : Forall Gate.monotone evs).
  { repeat constructor; simpl; lia. }
  assert (Hg : Gate.grants w' Sanitizer.LITE_MODEL 1000450 = true)
    by (vm_compute; reflexivity).
  refine (conj Hm (conj Hg (conj _ _))).
  - vm_compute. reflexivity.
  - exact (cooldown_respected w Sanitizer.LITE_MODEL evs 1000450 Hm Hg).
Defined.

(** ** Sanitizers *)

Section SanitizerFacts.
Import JS Json Sanitizer SanitizerSpec.
Local Open Scope Q_scope.
Variable stringToNumber : string -> JSNum.
Variable now : Q.

Lemma clamp_unit v : unitInterval (clamp v 0 1).
Proof. apply clamp_bounds. lra. Qed.

Lemma clamp_grid v : 0 <= clamp v 0 1000 /\ clamp v 0 1000 <= 1000.
Proof. apply clamp_bounds. lra. Qed.

Lemma clamp_angle v : angle (clamp v (-90) 90).
Proof. apply clamp_bounds. lra. Qed.

Lemma toConfidence_unit value fallback :
  unitInterval fallback ->
  unitInterval (toConfidence stringToNumber value fallback).
Proof.
  intros Hf. unfold toConfidence.
  destruct value as [| |b|[q| | |]|s|l|fs]; try exact Hf.
  - apply clamp_unit.
  - destruct (String.eqb (trim s) ""); [exact Hf|].
    destruct (stringToNumber (trim s)); try exact Hf. apply clamp_unit.
Qed.

Lemma ifNumber_grid value d :
  0 <= d /\ d <= 1000 ->
  0 <= ifNumber value (fun v => clamp (round v) 0 1000) d
  /\ ifNumber value (fun v => clamp (round v) 0 1000) d <= 1000.
Proof.
  intros Hd. unfold ifNumber.
  destruct value as [| |b|[q| | |]|s|l|fs]; try exact Hd. apply clamp_grid.
Qed.

Lemma toPoint_onGrid value fallback :
  onGrid fallback -> onGrid (toPoint value fallback).
Proof.
  intros [Hy Hx]. unfold toPoint.
  destruct value as [| |b|n|s|l|fs]; try (split; assumption).
  destruct (length l <? 2)%nat; [split; assumption|].
  split; cbn [fst snd]; apply ifNumber_grid; assumption.
Qed.

Lemma defaultPointForPart_onGrid part : onGrid (defaultPointForPart part).
Proof.
  destruct part; unfold defaultPointForPart, onGrid; cbn; lra.
Qed.

Lemma toFaceBox_valid value : validFaceBox (toFaceBox value).
Proof.
  unfold toFaceBox.
  destruct value as [| |b|n|s|l|fs]; try exact I.
  destruct (length l <? 4)%nat; [exact I|].
  set (ymin := ifNumber (item l 0) _ 0).
  set (xmin := ifNumber (item l 1) _ 0).
  set (ymax := ifNumber (item l 2) _ 1000).
  set (xmax := ifNumber (item l 3) _ 1000).
  destruct (Qleb ymax ymin) eqn:Ey; [exact I|].
  destruct (Qleb xmax xmin) eqn:Ex; [exact I|].
  cbn [orb validFaceBox].
  assert (Hlt : forall a b, Qleb a b = false -> b < a).
  { intros a b H. apply Qltb_lt. unfold Qltb, Qleb in *. now rewrite H. }
  repeat split; cbn [fst snd];
    try (apply ifNumber_grid; lra); apply Hlt; assumption.
Qed.

Lemma toHeadPose_valid value : validHeadPose (toHeadPose value).
Proof.
  unfold toHeadPose.
  destruct (truthy value && isObjectLike value); [|exact I].
  assert (H : forall v, angle (ifNumber v (fun q => clamp q (-90) 90) 0)).
  { intros v. unfold ifNumber.
    destruct v as [| |b|[q| | |]|s|l|fs];
      try apply clamp_angle; unfold angle; lra. }
  repeat split; apply H.
Qed.

Lemma sliceMap_length {A} value n (f : JSValue -> A) :
  (length (sliceMap value n f) <= n)%nat.
Proof.
  unfold sliceMap. destruct value; simpl; try lia.
  rewrite length_map, length_firstn. lia.
Qed.

Lemma sliceMap_Forall {A} (P : A -> Prop) value n (f : JSValue -> A) :
  (forall v, P (f v)) -> Forall P (sliceMap value n f).
Proof.
  intros H. unfold sliceMap. destruct value; try constructor.
  apply Forall_forall. intros x Hx.
  apply list_elem_of_In, in_map_iff in Hx.
  destruct Hx as [v [<- _]]. apply H.
Qed.

Lemma flashEmotion_valid record :
  unitInterval (FastEmotion.confidence (flashEmotion stringToNumber record))
  /\ onGrid (FastEmotion.point (flashEmotion stringToNumber record)).
Proof.
  split; cbn.
  - apply toConfidence_unit. unfold unitInterval. lra.
  - apply toPoint_onGrid, defaultPointForPart_onGrid.
Qed.

Lemma flashEmotion_named record :
  FastEmotion.facialPart (flashEmotion stringToNumber record) <> unknown.
Proof.
  cbn. destruct (toFacialPart (get record "facialPart")); cbn; discriminate.
Qed.

(** *** Anchors of the emotion list *)

Lemma resolvedPartOf_named e landmarks :
  FastEmotion.facialPart e <> unknown ->
  resolvedPartOf e landmarks = FastEmotion.facialPart e.
Proof.
  intros H. unfold resolvedPartOf.
  destruct (FastEmotion.facialPart e); try reflexivity. congruence.
Qed.

Lemma emotionAnchor_kind landmarks counters e :
  SemanticAnchor.kind (snd (emotionAnchor landmarks counters e)) = emotion.
Proof. reflexivity. Qed.

Lemma emotionAnchor_core landmarks counters e :
  FastEmotion.facialPart e <> unknown ->
  anchorCore (snd (emotionAnchor landmarks counters e)) = emotionCore e.
Proof.
  intros H. unfold anchorCore, emotionCore. cbn.
  now rewrite (resolvedPartOf_named _ _ H).
Qed.

Lemma emotionAnchors_kinds landmarks emotions : forall counters,
  Forall (fun a => SemanticAnchor.kind a = emotion)
         (emotionAnchors landmarks counters emotions).
Proof.
  induction emotions as [|e rest IH]; intros counters; simpl; constructor.
  - reflexivity.
  - apply IH.
Qed.

Lemma emotionAnchors_cores landmarks emotions : forall counters,
  Forall (fun e => FastEmotion.facialPart e <> unknown) emotions ->
  map anchorCore (emotionAnchors landmarks counters emotions)
  = map emotionCore emotions.
Proof.
  induction emotions as [|e rest IH]; intros counters Hn; [reflexivity|].
  inversion Hn; subst. simpl. f_equal.
  - now apply (emotionAnchor_core landmarks counters e).
  - now apply IH.
Qed.

Lemma buildFastAnchors_nil emotions :
  buildFastAnchors emotions [] = emotionAnchors [] ∅ emotions.
Proof. unfold buildFastAnchors. simpl. apply app_nil_r. Qed.

Lemma cores_valid anchors emotions :
  map anchorCore anchors = map emotionCore emotions ->
  Forall (fun e => unitInterval (FastEmotion.confidence e)
                   /\ onGrid (FastEmotion.point e)) emotions ->
  Forall validAnchor anchors.
Proof.
  revert emotions. induction anchors as [|a rest IH]; intros [|e es] Heq Hv;
    try discriminate; constructor.
  - inversion Hv; subst. cbn in Heq. injection Heq as _ _ Hp Hq _.
    unfold validAnchor. rewrite Hp, Hq. assumption.
  - inversion Hv; subst. cbn in Heq. injection Heq as _ _ _ _ Hr. eauto.
Qed.

Lemma depthInsight_valid record :
  unitInterval (DepthInsight.confidence (depthInsight stringToNumber record))
  /\ onGrid (DepthInsight.point (depthInsight stringToNumber record)).
Proof.
  split; cbn.
  - apply toConfidence_unit. unfold unitInterval. lra.
  - apply toPoint_onGrid. unfold onGrid. cbn. lra.
Qed.

Lemma buildDepthAnchors_valid insights :
  Forall (fun i => unitInterval (DepthInsight.confidence i)
                   /\ onGrid (DepthInsight.point i)) insights ->
  Forall validAnchor (buildDepthAnchors insights).
Proof.
  intros H. unfold buildDepthAnchors. apply Forall_forall. intros a Ha.
  apply elem_of_lookup_imap in Ha.
  destruct Ha as [i [x [-> Hx]]].
  apply list_elem_of_lookup_2 in Hx.
  exact (proj1 (Forall_forall _ _) H x Hx).
Qed.

End SanitizerFacts.

Section SanitizerClaims.
Import JS Json Sanitizer SanitizerSpec.
Local Open Scope Q_scope.

Lemma flash_emotions_cores stringToNumber raw :
  let emotions := sliceMap (get raw "emotions") 6 (flashEmotion stringToNumber) in
  Forall (fun e => FastEmotion.facialPart e <> unknown) emotions
  /\ map anchorCore (buildFastAnchors emotions []) = map emotionCore emotions.
Proof.
  intros emotions.
  assert (Hn : Forall (fun e => FastEmotion.facialPart e <> unknown) emotions).
  { apply sliceMap_Forall. apply flashEmotion_named. }
  split; [exact Hn|].
  rewrite buildFastAnchors_nil. now apply emotionAnchors_cores.
Qed.

(** C4: on every untyped input each lane sanitizer yields a result whose
    confidences lie in [0, 1], whose points and face box lie on the
    0..1000 grid, whose head-pose angles lie in [-90, 90], with at most 6
    candidates (lite), at most 6 emotions (flash) and at most 10 insights
    (deep); the derived anchors obey the same bounds.  The sanitizers are
    total functions of the input: no case raises. *)
Theorem sanitizers_total_and_bounded
    (stringToNumber : string -> JSNum) (now : Q) (raw : JSValue)
    (options : AnalyzeOptions.t) (model : string) :
  validLite (sanitizeLiteResult stringToNumber now raw options model)
  /\ validFlash (sanitizeFlashResult stringToNumber now raw options model)
  /\ validDepth (sanitizeDepthResult stringToNumber now raw options model).
Proof.
  assert (U0 : unitInterval 0) by (unfold unitInterval; lra).
  split; [|split].
  - unfold sanitizeLiteResult.
    destruct (negb (truthy raw && isObjectLike raw)).
    + unfold validLite. cbn. repeat split; auto; try lra; try lia; constructor.
    + set (cands := sliceMap (get raw "candidates") 6 (liteCandidate stringToNumber)).
      assert (Hc : Forall (fun c => unitInterval (EmotionCandidate.confidence c)) cands).
      { apply sliceMap_Forall. intros v. cbn.
        apply toConfidence_unit. unfold unitInterval. lra. }
      assert (Hframe : forall b : bool,
                 unitInterval (toConfidence stringToNumber (get raw "confidence")
                                 (if b then 7 # 10 else 1 # 10))).
      { intros b. apply toConfidence_unit. unfold unitInterval.
        destruct b; lra. }
      unfold validLite. cbn -[sliceMap toConfidence toFaceBox toHeadPose].
      fold cands.
      split; [apply Hframe|]. split.
      { apply toConfidence_unit.
        destruct (List.find _ cands) as [c|] eqn:Ef.
        - apply find_some in Ef. destruct Ef as [Hin _].
          apply list_elem_of_In in Hin.
          exact (proj1 (Forall_forall _ _) Hc c Hin).
        - destruct cands as [|c rest]; [apply Hframe|].
          now inversion Hc. }
      split; [apply sliceMap_length|]. split; [exact Hc|].
      split; [apply toFaceBox_valid|apply toHeadPose_valid].
  - unfold sanitizeFlashResult.
    destruct (negb (truthy raw && isObjectLike raw)).
    + unfold validFlash. cbn. repeat split; auto; try lra; try lia; constructor.
    + destruct (flash_emotions_cores stringToNumber raw) as [Hn Hcore].
      assert (Hv : Forall (fun e => unitInterval (FastEmotion.confidence e)
                                    /\ onGrid (FastEmotion.point e))
                     (sliceMap (get raw "emotions") 6 (flashEmotion stringToNumber))).
      { apply sliceMap_Forall. apply flashEmotion_valid. }
      unfold validFlash.
      cbn -[sliceMap toConfidence toFaceBox toHeadPose buildFastAnchors].
      split.
      { apply toConfidence_unit. unfold unitInterval.
        destruct (_ || _ || _)%bool; lra. }
      split; [apply sliceMap_length|]. split; [exact Hv|].
      split; [constructor|]. split; [exact (cores_valid _ _ Hcore Hv)|].
      split; [apply toFaceBox_valid|apply toHeadPose_valid].
  - unfold sanitizeDepthResult.
    destruct (negb (truthy raw && isObjectLike raw)).
    + unfold validDepth. cbn. repeat split; auto; try lra; try lia; constructor.
    + assert (Hv : Forall (fun i => unitInterval (DepthInsight.confidence i)
                                    /\ onGrid (DepthInsight.point i))
                     (sliceMap (get raw "insights") 10 (depthInsight stringToNumber))).
      { apply sliceMap_Forall. apply depthInsight_valid. }
      unfold validDepth.
      cbn -[sliceMap toConfidence buildDepthAnchors].
      split.
      { apply toConfidence_unit. unfold unitInterval.
        destruct (sliceMap _ _ _); lra. }
      split; [apply sliceMap_length|]. split; [exact Hv|].
      now apply buildDepthAnchors_valid.
Qed.

(** C10: the mid-lane sanitizer always returns an empty landmark list;
    its semantic anchors are exactly the anchors of its (at most 6)
    emotions, in order, all of kind "emotion"; every emotion carries a
    named facial part, which its anchor copies, so none is resolved
    through a landmark list. *)
Theorem flash_lane_has_no_landmarks
    (stringToNumber : string -> JSNum) (now : Q) (raw : JSValue)
    (options : AnalyzeOptions.t) (model : string) :
  let r := sanitizeFlashResult stringToNumber now raw options model in
  FastAnalysisResult.landmarks r = []
  /\ (length (FastAnalysisResult.semanticAnchors r) <= 6)%nat
  /\ Forall (fun a => SemanticAnchor.kind a = emotion)
            (FastAnalysisResult.semanticAnchors r)
  /\ map anchorCore (FastAnalysisResult.semanticAnchors r)
     = map emotionCore (FastAnalysisResult.emotions r)
  /\ Forall (fun e => FastEmotion.facialPart e <> unknown)
            (FastAnalysisResult.emotions r).
Proof.
  intros r. unfold r, sanitizeFlashResult.
  destruct (negb (truthy raw && isObjectLike raw)).
  - cbn. repeat split; auto; try lia; constructor.
  - cbn -[sliceMap toConfidence toFaceBox toHeadPose buildFastAnchors].
    destruct (flash_emotions_cores stringToNumber raw) as [Hn Hcore].
    split; [reflexivity|]. split.
    { rewrite <- (length_map anchorCore), Hcore, length_map.
      apply sliceMap_length. }
    split; [rewrite buildFastAnchors_nil; apply emotionAnchors_kinds|].
    split; [exact Hcore|exact Hn].
Qed.

(** C2, as stated, fails: the finding's part is "unknown", it carries the
    point [700, 500], and the response lists the mouth at that very
    point, yet the sanitized finding and its anchor are assigned to
    "faceCenter", not to "mouth"; the sanitized landmark list is empty. *)
Lemma flash_unknown_part_ignores_landmarks :
  get unknownPartResponse "landmarks" <> JUndefined
  /\ forall stringToNumber now,
       let r := sanitizeFlashResult stringToNumber now unknownPartResponse
                  noOptions "gemini-3-flash-preview" in
       nearestLandmarkPart (700, 500)
         (responseLandmarks stringToNumber unknownPartResponse) = mouth
       /\ map emotionCore (FastAnalysisResult.emotions r)
          = [("happy"%string, faceCenter, (700, 500), 4 # 10)]
       /\ map anchorCore (FastAnalysisResult.semanticAnchors r)
          = [("happy"%string, faceCenter, (700, 500), 4 # 10)]
       /\ FastAnalysisResult.landmarks r = [].
Proof.
  split; [discriminate|]. intros stringToNumber now r.
  repeat split; reflexivity.
Qed.

(** C2 (amended): in a mid-lane response, a finding among the first six
    whose facial part is "unknown" (or no recognised part name) is
    assigned to "faceCenter", in the sanitized emotion and in its anchor
    alike; its point is the reported one, or the default point of
    "faceCenter" when none is usable.  The response's landmark list plays
    no part: the sanitized landmark list is empty. *)
Theorem flash_unknown_part_becomes_faceCenter
    (stringToNumber : string -> JSNum) (now : Q) (raw : JSValue)
    (options : AnalyzeOptions.t) (model : string)
    (items : list JSValue) (i : nat) (record : JSValue) :
  truthy raw && isObjectLike raw = true ->
  get raw "emotions" = JArray items ->
  (i < 6)%nat ->
  nth_error items i = Some record ->
  toFacialPart (get record "facialPart") = unknown ->
  let r := sanitizeFlashResult stringToNumber now raw options model in
  FastAnalysisResult.landmarks r = []
  /\ exists e a,
       nth_error (FastAnalysisResult.emotions r) i = Some e
       /\ nth_error (FastAnalysisResult.semanticAnchors r) i = Some a
       /\ FastEmotion.facialPart e = faceCenter
       /\ FastEmotion.point e = toPoint (get record "point") (470, 500)
       /\ anchorCore a = emotionCore e.
Proof.
  intros Hobj Hem Hi Hrec Hpart r. unfold r, sanitizeFlashResult.
  rewrite Hobj.
  cbn -[sliceMap toConfidence toFaceBox toHeadPose buildFastAnchors].
  split; [reflexivity|].
  destruct (flash_emotions_cores stringToNumber raw) as [_ Hcore].
  assert (He : nth_error (sliceMap (get raw "emotions") 6 (flashEmotion stringToNumber)) i
               = Some (flashEmotion stringToNumber record)).
  { rewrite Hem. unfold sliceMap.
    rewrite nth_error_map, nth_error_firstn.
    destruct (Nat.ltb_spec i 6); [|lia]. now rewrite Hrec. }
  assert (Ha : nth_error (map anchorCore
                 (buildFastAnchors
                    (sliceMap (get raw "emotions") 6 (flashEmotion stringToNumber)) []))
                 i = Some (emotionCore (flashEmotion stringToNumber record))).
  { rewrite Hcore, nth_error_map, He. reflexivity. }
  rewrite nth_error_map in Ha.
  destruct (nth_error (buildFastAnchors _ []) i) as [a|] eqn:Ea; [|discriminate].
  assert (Hac : anchorCore a = emotionCore (flashEmotion stringToNumber record))
    by (cbn [option_map] in Ha; congruence).
  exists (flashEmotion stringToNumber record), a.
  split; [exact He|]. split; [reflexivity|].
  unfold flashEmotion. cbn [FastEmotion.facialPart FastEmotion.point].
  rewrite Hpart. cbn [isUnknown].
  split; [reflexivity|]. split; [reflexivity|].
  rewrite Hac. unfold emotionCore, flashEmotion.
  cbn [FastEmotion.emotion FastEmotion.facialPart FastEmotion.point
       FastEmotion.confidence].
  rewrite Hpart. reflexivity.
Qed.

(** The amended statement at the response above. *)
Lemma flash_unknown_part_becomes_faceCenter_witness :
  let record :=
    JObject [ ("emotion", JString "happy"); ("facialPart", JString "unknown");
              ("point", JArray [JNumber (Fin 700); JNumber (Fin 500)]) ]%string in
  let r := sanitizeFlashResult (fun _ => NaN) 0 unknownPartResponse noOptions
             "gemini-3-flash-preview" in
  truthy unknownPartResponse && isObjectLike unknownPartResponse = true
  /\ get unknownPartResponse "emotions" = JArray [record]
  /\ (0 < 6)%nat
  /\ nth_error [record] 0 = Some record
  /\ toFacialPart (get record "facialPart") = unknown
  /\ FastAnalysisResult.landmarks r = []
  /\ exists e a,
       nth_error (FastAnalysisResult.emotions r) 0 = Some e
       /\ nth_error (FastAnalysisResult.semanticAnchors r) 0 = Some a
       /\ FastEmotion.facialPart e = faceCenter
       /\ FastEmotion.point e = toPoint (get record "point") (470, 500)
       /\ anchorCore a = emotionCore e.
Proof.
  intros record r.
  assert (H3 : (0 < 6)%nat) by (repeat constructor).
  refine (conj eq_refl (conj eq_refl (conj H3 (conj eq_refl (conj eq_refl _))))).
  exact (flash_unknown_part_becomes_faceCenter (fun _ => NaN) 0
           unknownPartResponse noOptions "gemini-3-flash-preview"
           [record] 0%nat record eq_refl eq_refl H3 eq_refl eq_refl).
Defined.

End SanitizerClaims.

(** ** Fallback orchestrator and lanes *)

Section LaneFacts.
Import JS Json Gate Sanitizer Lanes LanesSpec.

Lemma tryAcquire_frame w model startedAt :
  calls (fst (tryAcquire w model startedAt)) = calls w
  /\ resolvedLaneModels (fst (tryAcquire w model startedAt)) = resolvedLaneModels w.
Proof.
  unfold tryAcquire. destruct (getGate (gates w) model) as [gs g].
  destruct (acquireCheck g _ _ _); split; reflexivity.
Qed.

Lemma step_frame w ev :
  calls (step w ev) = calls w
  /\ resolvedLaneModels (step w ev) = resolvedLaneModels w.
Proof.
  destruct ev as [dt|model startedAt|model]; simpl.
  - split; reflexivity.
  - apply tryAcquire_frame.
  - unfold releaseGate. destruct (getGate (gates w) model). split; reflexivity.
Qed.

Lemma run_frame evs : forall w,
  calls (run w evs) = calls w
  /\ resolvedLaneModels (run w evs) = resolvedLaneModels w.
Proof.
  induction evs as [|ev evs IH]; intros w; simpl; [split; reflexivity|].
  destruct (IH (step w ev)) as [H1 H2], (step_frame w ev) as [H3 H4].
  split; congruence.
Qed.

Lemma acquireLoop_Threw model startedAt rs ws : forall w e w' env',
  acquireLoop model startedAt rs ws w = Threw e w' env' ->
  e = gateTimeoutError model
  /\ calls w' = calls w
  /\ resolvedLaneModels w' = resolvedLaneModels w
  /\ responses env' = rs.
Proof.
  induction ws as [|evs ws IH]; intros w e w' env'; simpl;
    destruct (tryAcquire w model startedAt) as [w1 s] eqn:E;
    pose proof (tryAcquire_frame w model startedAt) as [Hc Hr];
    rewrite E in Hc, Hr; cbn [fst] in Hc, Hr;
    destruct s; try discriminate.
  - intros [= <- <- <-]. auto.
  - intros H. apply IH in H. destruct H as [He [H1 [H2 H3]]].
    destruct (run_frame evs w1) as [H4 H5].
    repeat split; congruence.
  - intros [= <- <- <-]. auto.
Qed.

End LaneFacts.

(** C3, as stated, fails: the lite model's gate stays in flight, the
    wait exceeds 16 s, and [generateWithLaneFallback] rejects with the
    gate-timeout error at once; the two further candidates, whose gates
    are free, are never tried (no backend call is made at all, the
    waiting response is left unconsumed). *)
Lemma gate_timeout_skips_remaining_candidates :
  Lanes.candidateModels LanesSpec.busyWorld Gate.lite Sanitizer.LITE_MODEL
    Lanes.LITE_FALLBACK_MODELS
  = ["gemini-2.5-flash-lite"; "gemini-2.5-flash"; "gemini-3-flash-preview"]%string
  /\ Gate.gates LanesSpec.busyWorld !! "gemini-2.5-flash"%string = None
  /\ Gate.gates LanesSpec.busyWorld !! "gemini-3-flash-preview"%string = None
  /\ match Lanes.generateWithLaneFallback Gate.lite "Lite primary emotion"
             Sanitizer.LITE_MODEL Lanes.LITE_FALLBACK_MODELS 6500
             LanesSpec.busyWorld LanesSpec.slowEnv with
     | Lanes.Threw e w' env' =>
         e = Gate.newError "Model gemini-2.5-flash-lite gate wait timed out"
         /\ Gate.calls w' = []
         /\ Gate.clock w' = 1018000
         /\ Lanes.responses env' = [Lanes.Text (Some "{}"%string)]
     | _ => False
     end.
Proof.
  split; [reflexivity|]. split; [reflexivity|]. split; [reflexivity|].
  vm_compute. repeat split; reflexivity.
Qed.

(** C3 (amended): when acquiring the gate of a candidate model times
    out, the orchestrator's loop rejects with that gate-timeout error
    there and then, whatever candidates remain: it makes no backend call
    for any of them and leaves the lane's sticky model untouched.  (The
    lane entry point then answers with its default result, see C9.) *)
Theorem gate_timeout_aborts_lane_call
    (lane : Gate.LaneName) (label : string) (timeoutMs : Q)
    (model : string) (rest : list string) (lastError : option Gate.JSError)
    (w : Gate.World) (env : Lanes.Env)
    (e : Gate.JSError) (w' : Gate.World) (env' : Lanes.Env) :
  Lanes.acquireGate model w env = Lanes.Threw e w' env' ->
  Lanes.fallbackLoop lane label timeoutMs (model :: rest) lastError w env
  = Lanes.Threw e w' env'
  /\ e = Lanes.gateTimeoutError model
  /\ Gate.calls w' = Gate.calls w
  /\ Gate.resolvedLaneModels w' = Gate.resolvedLaneModels w
  /\ Lanes.responses env' = Lanes.responses env.
Proof.
  intros H. split.
  - simpl. now rewrite H.
  - unfold Lanes.acquireGate in H. exact (acquireLoop_Threw _ _ _ _ _ _ _ _ H).
Qed.

(** The amended statement on the run above. *)
Lemma gate_timeout_aborts_lane_call_witness :
  let w' := Gate.run (Gate.run LanesSpec.busyWorld [Gate.Tick 9000]) [Gate.Tick 9000] in
  let env' := Lanes.mkEnv [[Gate.Tick 10]] [Lanes.Text (Some "{}"%string)] in
  let e := Lanes.gateTimeoutError Sanitizer.LITE_MODEL in
  Lanes.acquireGate Sanitizer.LITE_MODEL LanesSpec.busyWorld LanesSpec.slowEnv
  = Lanes.Threw e w' env'
  /\ Lanes.fallbackLoop Gate.lite "Lite primary emotion" 6500
       (Sanitizer.LITE_MODEL :: Lanes.LITE_FALLBACK_MODELS) None
       LanesSpec.busyWorld LanesSpec.slowEnv
     = Lanes.Threw e w' env'
  /\ e = Lanes.gateTimeoutError Sanitizer.LITE_MODEL
  /\ Gate.calls w' = Gate.calls LanesSpec.busyWorld
  /\ Gate.resolvedLaneModels w' = Gate.resolvedLaneModels LanesSpec.busyWorld
  /\ Lanes.responses env' = Lanes.responses LanesSpec.slowEnv.
Proof.
  intros w' env' e.
  assert (H : Lanes.acquireGate Sanitizer.LITE_MODEL LanesSpec.busyWorld
                LanesSpec.slowEnv = Lanes.Threw e w' env') by reflexivity.
  split; [exact H|].
  exact (gate_timeout_aborts_lane_call Gate.lite "Lite primary emotion" 6500
           Sanitizer.LITE_MODEL Lanes.LITE_FALLBACK_MODELS None
           LanesSpec.busyWorld LanesSpec.slowEnv e w' env' H).
Defined.

Section LaneClaims.
Import JS Json Gate Sanitizer Lanes LanesSpec.

Lemma defaults_are_safe (now : Q) (options : AnalyzeOptions.t) (model : string) :
  safeLite (toDefaultLiteResult now options model)
  /\ safeFlash (toDefaultFlashResult now options model)
  /\ safeDepth (toDefaultDepthResult now options model).
Proof. repeat split; reflexivity. Qed.

(** C9: whenever the orchestrator call of a lane rejects, with whatever
    error (attempt timeout, quota, network, gate wait exceeded, ...), the
    lane's analyze function fulfils with the lane's default result built
    at that moment: [faceDetected] false where the lane has it, empty
    candidate / emotion / landmark / insight / anchor lists, confidence
    0.  No analyze function ever rejects. *)
Theorem lane_failure_yields_default
    (stringToNumber : string -> JSNum) (JSON_parse : string -> option JSValue)
    (base64Image : string) (options : AnalyzeOptions.t)
    (w : World) (env : Env) :
  (forall e w' env',
     liteCall base64Image options w env = Threw e w' env' ->
     let r := toDefaultLiteResult (nowOf w') options
                (default LITE_MODEL (resolvedLaneModels w' lite)) in
     analyzeLitePrimaryEmotion stringToNumber JSON_parse base64Image options w env
     = Returned r w' env'
     /\ safeLite r)
  /\ (forall e w' env',
        flashCall base64Image options w env = Threw e w' env' ->
        let r := toDefaultFlashResult (nowOf w') options
                   (default FLASH_MODEL (resolvedLaneModels w' flash)) in
        analyzeFlashInsights stringToNumber JSON_parse base64Image options w env
        = Returned r w' env'
        /\ safeFlash r)
  /\ (forall e w' env',
        depthCall base64Image options w env = Threw e w' env' ->
        let r := toDefaultDepthResult (nowOf w') options
                   (default PRO_MODEL (resolvedLaneModels w' pro)) in
        analyzeDepthInsights stringToNumber JSON_parse base64Image options w env
        = Returned r w' env'
        /\ safeDepth r)
  /\ neverThrows (analyzeLitePrimaryEmotion stringToNumber JSON_parse
                    base64Image options w env)
  /\ neverThrows (analyzeFlashInsights stringToNumber JSON_parse
                    base64Image options w env)
  /\ neverThrows (analyzeDepthInsights stringToNumber JSON_parse
                    base64Image options w env).
Proof.
  unfold liteCall, flashCall, depthCall,
    analyzeLitePrimaryEmotion, analyzeFlashInsights, analyzeDepthInsights.
  split; [|split; [|split; [|split; [|split]]]].
  - intros e w' env' H. cbv zeta. rewrite H.
    split; [reflexivity|apply defaults_are_safe].
  - intros e w' env' H. cbv zeta. rewrite H.
    split; [reflexivity|apply defaults_are_safe].
  - intros e w' env' H. cbv zeta. rewrite H.
    split; [reflexivity|apply defaults_are_safe].
  - destruct (generateWithLaneFallback lite _ _ _ _ w env) as [[t m] ? ?| |];
      exact I.
  - destruct (generateWithLaneFallback flash _ _ _ _ w env) as [[t m] ? ?| |];
      exact I.
  - destruct (generateWithLaneFallback pro _ _ _ _ w env) as [[t m] ? ?| |];
      exact I.
Qed.

(** The lite lane when the gate wait is exceeded (the run of C3): the
    call fulfils with the default result. *)
Lemma lane_failure_yields_default_witness :
  let w' := run (run busyWorld [Tick 9000]) [Tick 9000] in
  let env' := mkEnv [[Tick 10]] [Text (Some "{}"%string)] in
  let r := toDefaultLiteResult (nowOf w') noOptionsLane
             (default LITE_MODEL (resolvedLaneModels w' lite)) in
  liteCall "" noOptionsLane busyWorld slowEnv
  = Threw (gateTimeoutError LITE_MODEL) w' env'
  /\ analyzeLitePrimaryEmotion (fun _ => NaN) (fun _ => None) ""
       noOptionsLane busyWorld slowEnv
     = Returned r w' env'
  /\ safeLite r.
Proof.
  intros w' env' r.
  assert (H : liteCall "" noOptionsLane busyWorld slowEnv
              = Threw (gateTimeoutError LITE_MODEL) w' env') by reflexivity.
  split; [exact H|].
  exact (proj1 (lane_failure_yields_default (fun _ => NaN) (fun _ => None) ""
                  noOptionsLane busyWorld slowEnv)
               (gateTimeoutError LITE_MODEL) w' env' H).
Defined.

(** Other failure modes reach the same default: a quota rejection and an
    attempt timeout on a free gate abort the call after one attempt. *)
Example quota_and_timeout_yield_default :
  let timeoutError := newError "Lite primary emotion timed out after 6500ms" in
  shouldFallbackModelError quotaError = false
  /\ shouldFallbackModelError timeoutError = false
  /\ (forall e, In e [quotaError; timeoutError] ->
        match analyzeLitePrimaryEmotion (fun _ => NaN) (fun _ => None) ""
                noOptionsLane (GateSpec.emptyWorld 1000000) (rejectingEnv e) with
        | Returned r w' _ =>
            safeLite r /\ map fst (calls w') = [LITE_MODEL]
            /\ inFlight (GateSpec.gateOf w' LITE_MODEL) = false
        | _ => False
        end).
Proof.
  intros timeoutError. split; [reflexivity|]. split; [reflexivity|].
  intros e [<-|[<-|[]]]; vm_compute; repeat split; reflexivity.
Qed.

(** A complete successful run of the lite lane on a free gate: one
    request to the preferred model, which becomes the lane's sticky
    model; the gate is released at the time the response arrived. *)
Example lite_success_run :
  let parsed := JObject [ ("primaryEmotion", JString "happy");
                          ("confidence", JNumber (Fin (9 # 10))) ]%string in
  match analyzeLitePrimaryEmotion (fun _ => NaN) (fun _ => Some parsed) ""
          noOptionsLane (GateSpec.emptyWorld 1000000)
          (mkEnv [[Tick 700]] [Text (Some "response"%string)]) with
  | Returned r w' _ =>
      LiteAnalysisResult.primaryEmotion r = "happy"%string
      /\ LiteAnalysisResult.model r = LITE_MODEL
      /\ LiteAnalysisResult.capturedAt r = 1000700%Q
      /\ resolvedLaneModels w' lite = Some LITE_MODEL
      /\ map fst (calls w') = [LITE_MODEL]
      /\ GateSpec.gateOf w' LITE_MODEL = mkGate false 1000700
  | _ => False
  end.
Proof. vm_compute. repeat split; reflexivity. Qed.

End LaneClaims.

(* ===================================================================== *)
(** * Further properties of the modelled code *)
(* ===================================================================== *)

(** ** Sorting *)

Section SortFacts.
Import JS.

Lemma js_insert_Permutation {A} (cmp : A -> A -> Q) (x : A) (l : list A) :
  Permutation (js_insert cmp x l) (x :: l).
Proof.
  induction l as [|y l IH]; simpl; [reflexivity|].
  destruct (Qgtb (cmp x y) 0); [|reflexivity].
  rewrite IH. apply perm_swap.
Qed.

Lemma js_sort_Permutation {A} (cmp : A -> A -> Q) (l : list A) :
  Permutation (js_sort cmp l) l.
Proof.
  unfold js_sort. induction l as [|x l IH]; simpl; [reflexivity|].
  rewrite js_insert_Permutation. now constructor.
Qed.

(** A comparator that never claims both [a] after [b] and [b] after
    [a] gives a list in which no element has to come after its
    successor. *)
Lemma js_insert_Sorted {A} (cmp : A -> A -> Q) (x : A) (l : list A) :
  (forall a b, Qgtb (cmp a b) 0 = true -> Qgtb (cmp b a) 0 = false) ->
  Sorted (fun a b => Qgtb (cmp a b) 0 = false) l ->
  Sorted (fun a b => Qgtb (cmp a b) 0 = false) (js_insert cmp x l).
Proof.
  intros Hanti Hs. induction Hs as [|y l Hs IH Hhd]; simpl.
  - repeat constructor.
  - destruct (Qgtb (cmp x y) 0) eqn:E.
    + constructor; [exact IH|].
      destruct l as [|z l]; simpl.
      * constructor. now apply Hanti.
      * destruct (Qgtb (cmp x z) 0).
        -- constructor. now inversion Hhd.
        -- constructor. now apply Hanti.
    + constructor; [now constructor|]. now constructor.
Qed.

Lemma js_sort_Sorted {A} (cmp : A -> A -> Q) (l : list A) :
  (forall a b, Qgtb (cmp a b) 0 = true -> Qgtb (cmp b a) 0 = false) ->
  Sorted (fun a b => Qgtb (cmp a b) 0 = false) (js_sort cmp l).
Proof.
  intros Hanti. unfold js_sort. induction l as [|x l IH]; simpl.
  - constructor.
  - now apply js_insert_Sorted.
Qed.

End SortFacts.

(** ** Label layout: bounds, labels placed, offsets tried *)

Section LayoutMore.
Import JS Layout LayoutSpec.
Local Open Scope Q_scope.
Variable hypot : Q -> Q -> Q.
Variable bounds : Bounds.

Lemma fallbackPlacement_clamped inp outward :
  exists l, fallbackPlacement bounds inp outward = keepInBounds l bounds
            /\ input l = inp.
Proof.
  unfold fallbackPlacement, attemptAt.
  destruct (preferDistance inp), outward; eexists; split; reflexivity.
Qed.

Lemma primarySearch_clamped placed inp outward offsets c :
  primarySearch bounds placed inp outward offsets = Some c ->
  exists l, c = keepInBounds l bounds /\ input l = inp.
Proof.
  induction offsets as [|off rest IH]; simpl; [discriminate|].
  destruct (match outward with
            | Some dir => negb (isPlacementOutward (anchorX inp) (anchorY inp)
                                  (attemptAt bounds inp off) dir)
            | None => false
            end); [exact IH|].
  destruct (hasCollision placed inp (attemptAt bounds inp off)); [exact IH|].
  intros [= <-]. unfold attemptAt. eexists; split; reflexivity.
Qed.

Lemma retrySearch_clamped placed inp offsets c :
  retrySearch bounds placed inp offsets = Some c ->
  exists l, c = keepInBounds l bounds /\ input l = inp.
Proof.
  induction offsets as [|off rest IH]; simpl; [discriminate|].
  destruct (hasCollisionRetry placed (attemptAt bounds inp off)); [exact IH|].
  intros [= <-]. unfold attemptAt. eexists; split; reflexivity.
Qed.

Lemma placeLabel_clamped placed inp :
  exists l, placeLabel hypot bounds placed inp = keepInBounds l bounds
            /\ input l = inp.
Proof.
  unfold placeLabel.
  destruct (primarySearch bounds placed inp _ _) as [c|] eqn:E1.
  - exact (primarySearch_clamped _ _ _ _ _ E1).
  - destruct (outwardFor hypot bounds inp) as [dir|]; cbn zeta iota.
    + destruct (retrySearch bounds placed inp _) as [c|] eqn:E2.
      * exact (retrySearch_clamped _ _ _ _ E2).
      * apply fallbackPlacement_clamped.
    + apply fallbackPlacement_clamped.
Qed.

Lemma clamp_upper (v lo hi : Q) : clamp v lo hi <= hi.
Proof. unfold clamp. apply Q.le_min_l. Qed.




Lemma rotateOffsets_Permutation offsets start :
  Permutation (rotateOffsets offsets start) offsets.
Proof.
  unfold rotateOffsets. destruct offsets as [|o rest]; [reflexivity|].
  set (n := Z.to_nat _). rewrite Permutation_app_comm.
  now rewrite firstn_skipn.
Qed.

End LayoutMore.

(** X1 (layout boundedness): every box returned by [layoutLabels] ends,
    on both axes, no later than the viewport size minus the label size
    minus the padding; when the label fits the viewport it also starts
    no earlier than the padding.  This holds for the fallback placements
    too. *)
Theorem layout_within_viewport
    (hypot : Q -> Q -> Q) (inputs : list Layout.LabelLayoutInput)
    (bounds : Layout.Bounds) (maxLabels : Z) (c : Layout.LabelLayoutOutput) :
  In c (Layout.layoutLabels hypot inputs bounds maxLabels) ->
  let padding := default 8%Q (Layout.padding bounds) in
  (Layout.x c <= Layout.bwidth bounds - Layout.width (Layout.input c) - padding
   /\ Layout.y c <= Layout.bheight bounds - Layout.height (Layout.input c) - padding
   /\ (LayoutSpec.fitsViewport bounds (Layout.input c) = true ->
       padding <= Layout.x c /\ padding <= Layout.y c))%Q.
Proof.
  intros Hin padding. apply in_split in Hin. destruct Hin as [pre [post Heq]].
  unfold Layout.layoutLabels in Heq.
  destruct (placeAll_each hypot bounds _ [] pre c post Heq) as [inp ->];
    [simpl; lia|].
  destruct (placeLabel_clamped hypot bounds pre inp) as [l [-> Hl]].
  unfold Layout.keepInBounds. cbn [Layout.x Layout.y Layout.input].
  fold padding. split; [apply clamp_upper|]. split; [apply clamp_upper|].
  unfold LayoutSpec.fitsViewport. fold padding. rewrite andb_true_iff.
  unfold JS.Qleb. rewrite !Qle_bool_iff. intros [Hw Hh].
  split; apply clamp_bounds; assumption.
Qed.

Lemma layout_within_viewport_witness :
  let b := Layout.mkOutput (Layout.mkInput "b" "B" 10 10 80 20 (1 # 2) false) 12 12 in
  In b (Layout.layoutLabels (fun _ _ => 0%Q) LayoutSpec.overlapInputs
          LayoutSpec.overlapBounds 12)
  /\ (Layout.x b <= 100 - 80 - 8 /\ Layout.y b <= 40 - 20 - 8
      /\ (LayoutSpec.fitsViewport LayoutSpec.overlapBounds (Layout.input b) = true ->
          8 <= Layout.x b /\ 8 <= Layout.y b))%Q.
Proof.
  intros b.
  assert (H : In b (Layout.layoutLabels (fun _ _ => 0%Q) LayoutSpec.overlapInputs
                      LayoutSpec.overlapBounds 12))
    by (vm_compute; right; left; reflexivity).
  split; [exact H|].
  exact (layout_within_viewport (fun _ _ => 0%Q) LayoutSpec.overlapInputs
           LayoutSpec.overlapBounds 12 b H).
Defined.


(** X3: the offsets tried for a label are a rearrangement of the whole
    offset table of its kind ([EMOTION_OFFSETS] for a distance-preferring
    label, [OFFSETS] otherwise): rotation by the id hash and the outward
    sort drop no offset and repeat none. *)
Theorem offsets_tried_are_the_table
    (hypot : Q -> Q -> Q) (bounds : Layout.Bounds)
    (inp : Layout.LabelLayoutInput) :
  Permutation (Layout.offsetsFor hypot bounds inp)
    (if Layout.preferDistance inp then Layout.EMOTION_OFFSETS
     else Layout.OFFSETS).
Proof.
  unfold Layout.offsetsFor. destruct (Layout.preferDistance inp); [|reflexivity].
  unfold Layout.prioritizeOutwardOffsets.
  destruct (Layout.getOutwardDirection hypot _ _ bounds).
  - rewrite js_sort_Permutation. apply rotateOffsets_Permutation.
  - apply rotateOffsets_Permutation.
Qed.

(** ** Anchor fusion: the bindings map *)

Section FusionMore.
Import JS Fusion FusionSpec FusionInv.
Local Open Scope Q_scope.

Lemma map_get_set_ne {V} (k k' : string) (v : V) (m : list (string * V)) :
  k <> k' -> map_get k (map_set k' v m) = map_get k m.
Proof.
  intros Hne. induction m as [|[k0 v0] m IH]; simpl.
  - destruct (String.eqb_spec k k'); [contradiction|reflexivity].
  - destruct (String.eqb_spec k' k0) as [->|Hk]; simpl.
    + destruct (String.eqb_spec k k0); [contradiction|reflexivity].
    + now rewrite IH.
Qed.

Lemma map_get_None_keys {V} (k : string) (m : list (string * V)) :
  map_get k m = None <-> ~ In k (map fst m).
Proof.
  induction m as [|[k0 v0] m IH]; simpl; [tauto|].
  destruct (String.eqb_spec k k0) as [->|Hk].
  - split; [discriminate|]. intros H. exfalso. apply H. now left.
  - rewrite IH. split; intros H; [intros [E|E]; [congruence|tauto]|tauto].
Qed.

Lemma map_set_keys {V} (k : string) (v : V) (m : list (string * V)) :
  (In k (map fst m) -> map fst (map_set k v m) = map fst m)
  /\ (~ In k (map fst m) -> map fst (map_set k v m) = map fst m ++ [k]).
Proof.
  induction m as [|[k0 v0] m [IH1 IH2]]; simpl.
  - split; [intros []|reflexivity].
  - destruct (String.eqb_spec k k0) as [->|Hk]; simpl.
    + split; [reflexivity|]. intros H. exfalso. apply H. now left.
    + split.
      * intros [H|H]; [congruence|]. now rewrite IH1.
      * intros H. rewrite IH2; [reflexivity|]. tauto.
Qed.

Lemma map_set_NoDup {V} (k : string) (v : V) (m : list (string * V)) :
  NoDup (map fst m) -> NoDup (map fst (map_set k v m)).
Proof.
  intros H. destruct (map_set_keys k v m) as [H1 H2].
  destruct (in_dec String.string_dec k (map fst m)) as [Hin|Hin].
  - now rewrite H1.
  - rewrite H2 by assumption.
    apply NoDup_app. split; [exact H|]. split.
    + intros x Hx Hk. apply list_elem_of_In in Hx.
      apply list_elem_of_In in Hk. destruct Hk as [<-|[]]. contradiction.
    + apply NoDup_singleton.
Qed.

Lemma map_set_Forall {V} (P : string * V -> Prop) (k : string) (v : V)
    (m : list (string * V)) :
  P (k, v) -> Forall P m -> Forall P (map_set k v m).
Proof.
  intros Hk H. induction H as [|[k0 v0] m H0 H IH]; simpl.
  - now repeat constructor.
  - destruct (String.eqb k k0); constructor; auto.
Qed.

Lemma filter_keys_NoDup {V} (P : string * V -> bool) (m : list (string * V)) :
  NoDup (map fst m) -> NoDup (map fst (List.filter P m)).
Proof.
  induction m as [|kv m IH]; simpl; [auto|].
  intros H. apply NoDup_cons in H. destruct H as [Hn H].
  destruct (P kv); simpl; [|auto]. apply NoDup_cons. split; [|auto].
  intros Hin. apply Hn. apply list_elem_of_In in Hin. apply list_elem_of_In.
  apply in_map_iff in Hin. destruct Hin as [x [Hx Hin]].
  apply filter_In in Hin. apply in_map_iff. exists x. tauto.
Qed.

Lemma filter_Forall {A} (P : A -> Prop) (f : A -> bool) (l : list A) :
  Forall P l -> Forall P (List.filter f l).
Proof.
  induction 1 as [|x l Hx H IH]; simpl; [constructor|].
  destruct (f x); [constructor|]; auto.
Qed.

Lemma map_get_filter {V} (P : string * V -> bool) (k : string) (v : V)
    (m : list (string * V)) :
  NoDup (map fst m) -> map_get k m = Some v ->
  map_get k (List.filter P m) = if P (k, v) then Some v else None.
Proof.
  induction m as [|[k0 v0] m IH]; simpl; [discriminate|].
  intros Hnd. apply NoDup_cons in Hnd. destruct Hnd as [Hn Hnd].
  destruct (String.eqb_spec k k0) as [->|Hk].
  - intros [= ->]. destruct (P (k0, v)) eqn:E; simpl.
    + now rewrite String.eqb_refl.
    + apply map_get_None_keys. intros Hin. apply Hn.
      apply list_elem_of_In. apply in_map_iff in Hin.
      destruct Hin as [x [Hx Hin]]. apply filter_In in Hin.
      apply in_map_iff. exists x. tauto.
  - intros H. destruct (P (k0, v0)); simpl.
    + destruct (String.eqb_spec k k0); [contradiction|]. now apply IH.
    + now apply IH.
Qed.

(** *** The binding loop of [updateAnchors] *)

Section Binding.
Variable e : Engine.
Variable frame : option TrackedFaceFrame.t.
Variable nowMs : Q.

Lemma bindAll_other anchors : forall bs k,
  ~ In k (map SemanticAnchor.id anchors) ->
  map_get k (bindAll e frame nowMs bs anchors) = map_get k bs.
Proof.
  induction anchors as [|a rest IH]; intros bs k Hk; [reflexivity|].
  simpl in Hk. cbn [bindAll fold_left]. fold (bindAll e frame nowMs
    (map_set (SemanticAnchor.id a) (bindAnchor e frame nowMs bs a) bs) rest).
  rewrite IH by tauto. apply map_get_set_ne. intros ->. tauto.
Qed.

Lemma bindAll_bound anchors : forall bs a,
  NoDup (map SemanticAnchor.id anchors) -> In a anchors ->
  exists bs', map_get (SemanticAnchor.id a) (bindAll e frame nowMs bs anchors)
              = Some (bindAnchor e frame nowMs bs' a).
Proof.
  induction anchors as [|a0 rest IH]; intros bs a Hnd Hin; [destruct Hin|].
  simpl in Hnd. apply NoDup_cons in Hnd. destruct Hnd as [Hn Hnd].
  cbn [bindAll fold_left]. fold (bindAll e frame nowMs
    (map_set (SemanticAnchor.id a0) (bindAnchor e frame nowMs bs a0) bs) rest).
  destruct Hin as [->|Hin].
  - exists bs. rewrite bindAll_other.
    + apply map_get_set.
    + intros H. apply Hn. now apply list_elem_of_In.
  - now apply IH.
Qed.

Lemma bindAll_wellKeyed anchors : forall bs,
  NoDup (map fst bs) ->
  Forall (fun kb => fst kb = SemanticAnchor.id (anchor (snd kb))) bs ->
  NoDup (map fst (bindAll e frame nowMs bs anchors))
  /\ Forall (fun kb => fst kb = SemanticAnchor.id (anchor (snd kb)))
            (bindAll e frame nowMs bs anchors).
Proof.
  induction anchors as [|a rest IH]; intros bs Hnd Hk; [split; assumption|].
  cbn [bindAll fold_left]. apply IH.
  - now apply map_set_NoDup.
  - apply map_set_Forall; [reflexivity|exact Hk].
Qed.

End Binding.

Lemma updateAnchors_bindings e nextAnchors frame nowMs :
  bindings (updateAnchors e nextAnchors frame nowMs)
  = bindAll e frame nowMs
      (List.filter (fun kb =>
         negb (negb (existsb (String.eqb (fst kb))
                       (map SemanticAnchor.id nextAnchors))
               && Qgtb (nowMs - lastSeenAt (snd kb)) (maxStaleMs e)))
         (bindings e))
      nextAnchors.
Proof. reflexivity. Qed.

Lemma projectLoop_kept e frame nowMs ps bs :
  (forall k, In k (map fst (fst (projectLoop e frame nowMs ps bs))) ->
             In k (map fst bs))
  /\ (NoDup (map fst bs) ->
      NoDup (map fst (fst (projectLoop e frame nowMs ps bs))))
  /\ (forall P : string * AnchorBinding -> Prop,
        Forall P bs -> Forall P (fst (projectLoop e frame nowMs ps bs))).
Proof.
  induction bs as [|[k b] rest [IH1 [IH2 IH3]]]; simpl.
  - repeat split; auto.
  - destruct (expired e nowMs ps b).
    + repeat split.
      * intros k0 H. right. now apply IH1.
      * intros H. apply NoDup_cons in H. now apply IH2.
      * intros P H. inversion H; subst. now apply IH3.
    + destruct (resolveProjected frame b) as [p|]; [|repeat split; auto].
      destruct (projectLoop e frame nowMs ps rest) as [kept r].
      cbn [fst] in *. repeat split.
      * intros k0 [H|H]; [now left|right; now apply IH1].
      * intros H. apply NoDup_cons in H. destruct H as [Hn H]. simpl.
        apply NoDup_cons. split; [|now apply IH2].
        intros Hin. apply Hn. apply list_elem_of_In.
        apply IH1. now apply list_elem_of_In.
      * intros P H. inversion H; subst. constructor; [assumption|now apply IH3].
Qed.

End FusionMore.

Section FusionMoreClaims.
Import JS Fusion FusionSpec FusionInv.
Local Open Scope Q_scope.

(** X4: [updateAnchors] and [project] keep the bindings map well keyed:
    at most one binding per anchor id, each stored under the id of its
    own anchor.  A new engine starts well keyed. *)
Theorem bindings_stay_well_keyed
    (e : Engine) (nextAnchors : list SemanticAnchor.t)
    (frame : option TrackedFaceFrame.t) (nowMs : Q) (preserveStale : bool) :
  wellKeyed e ->
  wellKeyed (updateAnchors e nextAnchors frame nowMs)
  /\ wellKeyed (fst (project e frame nowMs preserveStale)).
Proof.
  intros [Hnd Hk]. split.
  - unfold wellKeyed. rewrite updateAnchors_bindings.
    apply bindAll_wellKeyed.
    + now apply filter_keys_NoDup.
    + now apply filter_Forall.
  - unfold wellKeyed. rewrite project_unfold. cbn [fst bindings withBindings].
    destruct (projectLoop_kept e frame nowMs preserveStale (bindings e))
      as [_ [H2 H3]]. split; [now apply H2|now apply H3].
Qed.

Lemma bindings_stay_well_keyed_witness :
  wellKeyed freshEngine
  /\ wellKeyed (updateAnchors freshEngine [scenarioAnchor; scenarioAnchor]
                  (Some (scenarioFrame 0 (705, 498) (fun _ => None))) 1000)
  /\ wellKeyed (fst (project freshEngine
                       (Some (scenarioFrame 0 (705, 498) (fun _ => None)))
                       1000 false)).
Proof.
  assert (H : wellKeyed freshEngine) by (split; constructor).
  split; [exact H|].
  exact (bindings_stay_well_keyed freshEngine [scenarioAnchor; scenarioAnchor]
           (Some (scenarioFrame 0 (705, 498) (fun _ => None))) 1000 false H).
Defined.

(** X5: after [updateAnchors] with pairwise distinct anchor ids, every
    incoming anchor whose named facial part is tracked in the frame is
    bound under its id with no landmark index, the zero offset and
    [lastSeenAt] set to the call time, whatever binding it had before. *)
Theorem updateAnchors_binds_named_part_exactly
    (e : Engine) (nextAnchors : list SemanticAnchor.t)
    (f : TrackedFaceFrame.t) (nowMs : Q) (a : SemanticAnchor.t)
    (p : NormalizedPoint) :
  NoDup (map SemanticAnchor.id nextAnchors) ->
  In a nextAnchors ->
  trackedPart (Some f) (SemanticAnchor.facialPart a) = Some p ->
  map_get (SemanticAnchor.id a)
          (bindings (updateAnchors e nextAnchors (Some f) nowMs))
  = Some {| anchor := a; landmarkIndex := None; offset := Some (0, 0);
            lastSeenAt := nowMs |}.
Proof.
  intros Hnd Hin Hp. rewrite updateAnchors_bindings.
  match goal with
  | |- context [bindAll _ _ _ ?bs _] =>
      destruct (bindAll_bound e (Some f) nowMs nextAnchors bs a Hnd Hin)
        as [bs' ->]
  end.
  f_equal. unfold bindAnchor. rewrite Hp. reflexivity.
Qed.

Lemma updateAnchors_binds_named_part_exactly_witness :
  let f := scenarioFrame 33 (650, 480) (mouthAt (640, 470)) in
  let e := updateAnchors freshEngine [scenarioAnchor]
             (Some (scenarioFrame 0 (705, 498) (fun _ => None))) 1000 in
  NoDup (map SemanticAnchor.id [scenarioAnchor])
  /\ In scenarioAnchor [scenarioAnchor]
  /\ trackedPart (Some f) (SemanticAnchor.facialPart scenarioAnchor) = Some (640, 470)
  /\ map_get "emo-happy-mouth-1" (bindings e)
     = Some {| anchor := scenarioAnchor; landmarkIndex := Some 13%Z;
               offset := Some (-5, 2); lastSeenAt := 1000 |}
  /\ map_get (SemanticAnchor.id scenarioAnchor)
             (bindings (updateAnchors e [scenarioAnchor] (Some f) 1033))
     = Some {| anchor := scenarioAnchor; landmarkIndex := None;
               offset := Some (0, 0); lastSeenAt := 1033 |}.
Proof.
  intros f e.
  assert (H1 : NoDup (map SemanticAnchor.id [scenarioAnchor]))
    by (repeat constructor; intros H; inversion H).
  assert (H2 : In scenarioAnchor [scenarioAnchor]) by (left; reflexivity).
  refine (conj H1 (conj H2 (conj eq_refl (conj eq_refl _)))).
  exact (updateAnchors_binds_named_part_exactly e [scenarioAnchor] f 1033
           scenarioAnchor (640, 470) H1 H2 eq_refl).
Defined.

(** X6: a binding whose id is absent from the incoming anchors survives
    [updateAnchors] unchanged while its age is at most [maxStaleMs], and
    is dropped once it is older. *)
Theorem updateAnchors_keeps_recent_omitted
    (e : Engine) (nextAnchors : list SemanticAnchor.t)
    (frame : option TrackedFaceFrame.t) (nowMs : Q)
    (k : string) (b : AnchorBinding) :
  NoDup (map fst (bindings e)) ->
  map_get k (bindings e) = Some b ->
  ~ In k (map SemanticAnchor.id nextAnchors) ->
  map_get k (bindings (updateAnchors e nextAnchors frame nowMs))
  = if Qgtb (nowMs - lastSeenAt b) (maxStaleMs e) then None else Some b.
Proof.
  intros Hnd Hget Hk. rewrite updateAnchors_bindings.
  rewrite bindAll_other by exact Hk.
  rewrite (map_get_filter _ k b _ Hnd Hget). cbn [fst snd].
  assert (Hex : existsb (String.eqb k) (map SemanticAnchor.id nextAnchors) = false).
  { destruct (existsb _ _) eqn:E; [|reflexivity].
    apply existsb_exists in E. destruct E as [x [Hx Hxk]].
    apply String.eqb_eq in Hxk. subst x. contradiction. }
  rewrite Hex. cbn [negb andb].
  now destruct (Qgtb (nowMs - lastSeenAt b) (maxStaleMs e)).
Qed.

Lemma updateAnchors_keeps_recent_omitted_witness :
  let e := updateAnchors freshEngine [scenarioAnchor]
             (Some (scenarioFrame 0 (705, 498) (fun _ => None))) 1000 in
  let b := mkBinding scenarioAnchor (Some 13%Z) (Some (-5, 2)) 1000 in
  NoDup (map fst (bindings e))
  /\ map_get "emo-happy-mouth-1" (bindings e) = Some b
  /\ ~ In "emo-happy-mouth-1"%string (map SemanticAnchor.id [])
  /\ map_get "emo-happy-mouth-1" (bindings (updateAnchors e [] None 5500)) = Some b
  /\ map_get "emo-happy-mouth-1" (bindings (updateAnchors e [] None 5501)) = None
  /\ map_get "emo-happy-mouth-1" (bindings (updateAnchors e [] None 5500))
     = if Qgtb (5500 - lastSeenAt b) (maxStaleMs e) then None else Some b.
Proof.
  intros e b.
  assert (H1 : NoDup (map fst (bindings e)))
    by (repeat constructor; intros H; inversion H).
  assert (H3 : ~ In "emo-happy-mouth-1"%string (map SemanticAnchor.id []))
    by (intros []).
  refine (conj H1 (conj eq_refl (conj H3 (conj eq_refl (conj eq_refl _))))).
  exact (updateAnchors_keeps_recent_omitted e [] None 5500
           "emo-happy-mouth-1" b H1 eq_refl H3).
Defined.

Lemma Sorted_weaken {A} (R R' : A -> A -> Prop) (l : list A) :
  (forall a b, R a b -> R' a b) -> Sorted R l -> Sorted R' l.
Proof.
  intros H. induction 1 as [|x l Hs IH Hhd]; constructor; [exact IH|].
  destruct Hhd; constructor; auto.
Qed.

(** X7: the list [project] returns is in order of descending confidence:
    no anchor is followed by one of higher confidence. *)
Theorem project_sorted_by_confidence
    (e : Engine) (frame : option TrackedFaceFrame.t) (nowMs : Q)
    (preserveStale : bool) (out : list FusedAnchor) :
  snd (project e frame nowMs preserveStale) = Some out ->
  Sorted (fun a b => SemanticAnchor.confidence (fused b)
                     <= SemanticAnchor.confidence (fused a)) out.
Proof.
  rewrite project_unfold. cbn [snd].
  destruct (snd (projectLoop e frame nowMs preserveStale (bindings e)))
    as [l|]; [|discriminate].
  intros [= <-].
  apply (Sorted_weaken (fun a b => Qgtb (byConfidenceDesc a b) 0 = false)).
  - intros a b H. unfold byConfidenceDesc, Qgtb in H.
    apply Qltb_ge in H. lra.
  - apply js_sort_Sorted. intros a b H. unfold byConfidenceDesc, Qgtb in *.
    apply Qltb_lt in H. apply Qltb_ge. lra.
Qed.

(** X8: without a tracking frame [project] never throws and returns
    every kept anchor at its originally reported point. *)
Theorem project_without_frame_keeps_reported_points
    (e : Engine) (nowMs : Q) (preserveStale : bool) :
  exists out,
    snd (project e None nowMs preserveStale) = Some out
    /\ Forall (fun fa => projectedPoint fa = SemanticAnchor.point (fused fa)) out.
Proof.
  rewrite project_unfold. cbn [snd].
  destruct (projectLoop e None nowMs preserveStale (bindings e))
    as [kept [l|]] eqn:L; cbn [snd].
  - eexists. split; [reflexivity|]. apply Forall_forall. intros fa Hfa.
    apply list_elem_of_In, js_sort_In in Hfa.
    destruct (projectLoop_sound _ _ _ _ _ _ _ _ L Hfa)
      as [k [b [p [_ [_ [Hp ->]]]]]].
    cbn in Hp. injection Hp as <-. reflexivity.
  - exfalso. exact (projectLoop_throws _ _ _ _ _ _ L I).
Qed.

End FusionMoreClaims.

Section FusionRoundTrip.
Import JS Fusion FusionSpec FusionInv FusionScenario.
Local Open Scope Q_scope.

Lemma project_sorted_by_confidence_witness :
  snd (project twoAnchorEngine None 1033 false)
  = Some [ {| fused := scenarioAnchor; projectedPoint := (700, 500); stale := false |};
           {| fused := calmAnchor; projectedPoint := (300, 400); stale := false |} ]
  /\ Sorted (fun a b => SemanticAnchor.confidence (fused b)
                        <= SemanticAnchor.confidence (fused a))
       [ {| fused := scenarioAnchor; projectedPoint := (700, 500); stale := false |};
         {| fused := calmAnchor; projectedPoint := (300, 400); stale := false |} ].
Proof.
  assert (H : snd (project twoAnchorEngine None 1033 false)
              = Some [ {| fused := scenarioAnchor; projectedPoint := (700, 500);
                          stale := false |};
                       {| fused := calmAnchor; projectedPoint := (300, 400);
                          stale := false |} ]) by reflexivity.
  split; [exact H|].
  exact (project_sorted_by_confidence twoAnchorEngine None 1033 false _ H).
Defined.







End FusionRoundTrip.

(** ** Model gate: mutual exclusion and polling *)

Section GateMore.
Import Gate GateSpec GateInv.

Lemma acquireCheck_inFlight gate cooldown startedAt nowMs :
  inFlight gate = true -> acquireCheck gate cooldown startedAt nowMs <> Granted.
Proof.
  intros H. unfold acquireCheck. rewrite H. simpl.
  destruct (nowMs - startedAt >? GATE_MAX_WAIT_MS); discriminate.
Qed.


Lemma tryAcquire_held w m startedAt model g :
  gates w !! model = Some g -> inFlight g = true ->
  exists g', gates (fst (tryAcquire w m startedAt)) !! model = Some g'
             /\ inFlight g' = true.
Proof.
  intros Hg Hf. unfold tryAcquire, getGate.
  destruct (decide (m = model)) as [->|Hne].
  - rewrite Hg.
    destruct (acquireCheck g _ _ _) eqn:E; cbn [fst gates withGates]; eauto.
    exfalso. exact (acquireCheck_inFlight _ _ _ _ Hf E).
  - destruct (gates w !! m) as [g'|];
      destruct (acquireCheck _ _ _ _); cbn [fst gates withGates];
      exists g; rewrite ?lookup_insert_ne by exact Hne; auto.
Qed.

Lemma run_held evs model : forall w g,
  Forall (keepsHeld model) evs ->
  gates w !! model = Some g -> inFlight g = true ->
  exists g', gates (run w evs) !! model = Some g' /\ inFlight g' = true.
Proof.
  induction evs as [|ev evs IH]; intros w g Hev Hg Hf; [eauto|].
  inversion Hev as [|? ? Hk Hrest]; subst. simpl.
  assert (H : exists g', gates (step w ev) !! model = Some g' /\ inFlight g' = true).
  { destruct ev as [dt|m startedAt|m]; cbn [step keepsHeld] in *.
    - cbn [gates]. eauto.
    - now apply (tryAcquire_held w m startedAt model g).
    - unfold releaseGate, getGate.
      destruct (gates w !! m); cbn [gates withGates];
        exists g; (split; [|exact Hf]);
        rewrite !lookup_insert_ne by exact Hk; exact Hg. }
  destruct H as [g' [Hg' Hf']]. exact (IH _ g' Hrest Hg' Hf').
Qed.

End GateMore.

(** X10 (gate mutual exclusion): once a pass of [acquireGate] has been
    granted for a model, no pass for that model by any task is granted
    until the model is released, whatever the clock does and whatever
    happens to the other models' gates. *)
Theorem gate_mutual_exclusion
    (w : Gate.World) (model : string) (startedAt startedAt' : Z)
    (evs : list Gate.GateEvent) :
  Gate.grants w model startedAt = true ->
  Forall (GateInv.keepsHeld model) evs ->
  Gate.grants (Gate.run (fst (Gate.tryAcquire w model startedAt)) evs)
              model startedAt' = false.
Proof.
  intros Hgrant Hev.
  assert (Hheld : exists g, Gate.gates (fst (Gate.tryAcquire w model startedAt))
                              !! model = Some g /\ Gate.inFlight g = true).
  { unfold Gate.grants, Gate.tryAcquire in *.
    destruct (Gate.getGate (Gate.gates w) model) as [gs g].
    destruct (Gate.acquireCheck g _ _ _); try discriminate.
    cbn [fst Gate.gates Gate.withGates]. eexists.
    rewrite lookup_insert_eq. split; reflexivity. }
  destruct Hheld as [g [Hg Hf]].
  destruct (run_held evs model _ g Hev Hg Hf) as [g' [Hg' Hf']].
  set (w1 := Gate.run _ evs) in *.
  unfold Gate.grants, Gate.tryAcquire, Gate.getGate. rewrite Hg'.
  destruct (Gate.acquireCheck g' _ _ _) eqn:E; try reflexivity.
  exfalso. exact (acquireCheck_inFlight _ _ _ _ Hf' E).
Qed.

Lemma gate_mutual_exclusion_witness :
  let w := GateSpec.emptyWorld 1000000 in
  let evs := [Gate.Tick 60000; Gate.Release "gemini-2.5-flash"%string;
              Gate.Poll Sanitizer.LITE_MODEL 1000000] in
  Gate.grants w Sanitizer.LITE_MODEL 1000000 = true
  /\ Forall (GateInv.keepsHeld Sanitizer.LITE_MODEL) evs
  /\ Gate.grants (Gate.run (fst (Gate.tryAcquire w Sanitizer.LITE_MODEL 1000000)) evs)
       Sanitizer.LITE_MODEL 1060000 = false.
Proof.
  intros w evs.
  assert (H1 : Gate.grants w Sanitizer.LITE_MODEL 1000000 = true) by reflexivity.
  assert (H2 : Forall (GateInv.keepsHeld Sanitizer.LITE_MODEL) evs).
  { repeat constructor. simpl. discriminate. }
  refine (conj H1 (conj H2 _)).
  exact (gate_mutual_exclusion w Sanitizer.LITE_MODEL 1000000 1060000 evs H1 H2).
Defined.

(** X11 (bounded polling): whenever a pass of [acquireGate] goes to
    sleep, it asks for at least the poll interval (24 ms) and at most
    400 ms; and it gives up with the gate-timeout error only while the
    gate is in flight, after more than 16 s of waiting. *)
Theorem acquire_pass_sleep_bounds
    (gate : Gate.ModelGate) (cooldown startedAt nowMs : Z) :
  match Gate.acquireCheck gate cooldown startedAt nowMs with
  | Gate.SleepFor ms => 24 <= ms <= 400
  | Gate.TimedOut => Gate.inFlight gate = true /\ 16000 < nowMs - startedAt
  | Gate.Granted => Gate.inFlight gate = false
  end.
Proof.
  unfold Gate.acquireCheck, Gate.GATE_POLL_MS, Gate.GATE_MAX_WAIT_MS.
  destruct (Gate.inFlight gate); simpl.
  - destruct (Z.gtb_spec (nowMs - startedAt) 16000); [auto|lia].
  - destruct (nowMs - Gate.lastCompletedAt gate >=? cooldown); [reflexivity|lia].
Qed.

(** ** Fallback orchestrator: candidates, attempts, success *)

Section OrchestratorMore.
Import JS Json Gate Sanitizer Lanes LanesSpec GateInv.

Lemma existsb_eqb_In (s : string) (l : list string) :
  existsb (String.eqb s) l = true <-> In s l.
Proof.
  rewrite existsb_exists. split.
  - intros [x [Hx E]]. apply String.eqb_eq in E. now subst.
  - intros H. exists s. split; [exact H|apply String.eqb_refl].
Qed.

Lemma uniq_In (l : list string) : forall seen x,
  In x (uniq seen l) <-> In x l /\ ~ In x seen.
Proof.
  induction l as [|s rest IH]; intros seen x; simpl; [tauto|].
  destruct (existsb (String.eqb s) seen) eqn:E.
  - apply existsb_eqb_In in E. rewrite IH. split.
    + tauto.
    + intros [[->|H] Hn]; [contradiction|tauto].
  - assert (Hs : ~ In s seen).
    { intros H. apply existsb_eqb_In in H. congruence. }
    simpl. rewrite IH. simpl. split.
    + intros [->|[H Hn]]; [tauto|]. split; [tauto|]. tauto.
    + intros [[->|H] Hn]; [tauto|].
      destruct (String.string_dec s x) as [->|Hne]; [tauto|]. right. tauto.
Qed.

Lemma uniq_NoDup (l : list string) : forall seen, NoDup (uniq seen l).
Proof.
  induction l as [|s rest IH]; intros seen; simpl; [constructor|].
  destruct (existsb (String.eqb s) seen); [apply IH|].
  apply NoDup_cons. split; [|apply IH].
  intros H. apply list_elem_of_In, uniq_In in H. destruct H as [_ H].
  apply H. now left.
Qed.

Lemma acquireLoop_world model startedAt rs ws : forall w,
  match finalWorld (acquireLoop model startedAt rs ws w) with
  | Some w' => calls w' = calls w
               /\ resolvedLaneModels w' = resolvedLaneModels w
  | None => True
  end.
Proof.
  induction ws as [|evs ws IH]; intros w; simpl;
    destruct (tryAcquire w model startedAt) as [w1 s] eqn:E;
    pose proof (tryAcquire_frame w model startedAt) as [Hc Hr];
    rewrite E in Hc, Hr; cbn [fst] in Hc, Hr;
    destruct s; cbn [finalWorld]; auto.
  specialize (IH (run w1 evs)).
  destruct (finalWorld _) as [w'|]; [|exact I].
  destruct (run_frame evs w1) as [H4 H5]. destruct IH as [H6 H7].
  split; congruence.
Qed.

Lemma releaseGate_world w model :
  calls (releaseGate w model) = calls w
  /\ resolvedLaneModels (releaseGate w model) = resolvedLaneModels w
  /\ clock (releaseGate w model) = clock w
  /\ gates (releaseGate w model) !! model = Some (mkGate false (clock w)).
Proof.
  unfold releaseGate, getGate.
  destruct (gates w !! model); cbn [calls resolvedLaneModels clock gates withGates];
    rewrite lookup_insert_eq; auto.
Qed.

Lemma callBackend_calls model timeoutMs w env r w2 env2 :
  callBackend model timeoutMs w env = Some (r, w2, env2) ->
  (calls w2 = calls w /\ exists e, r = inr e)
  \/ calls w2 = calls w ++ [(model, timeoutMs)].
Proof.
  unfold callBackend.
  destruct (responses env) as [|[text|e|] rs]; [discriminate| | |].
  - destruct (wakes env) as [|evs ws]; [discriminate|]. intros [= <- <- <-].
    right. now destruct (run_frame evs (logCall w model timeoutMs)) as [-> _].
  - destruct (wakes env) as [|evs ws]; [discriminate|]. intros [= <- <- <-].
    right. now destruct (run_frame evs (logCall w model timeoutMs)) as [-> _].
  - intros [= <- <- <-]. left. eauto.
Qed.

Lemma fallbackLoop_attempts lane label timeoutMs models :
  forall lastError w env,
  match finalWorld (fallbackLoop lane label timeoutMs models lastError w env) with
  | Some w' =>
      exists attempts,
        calls w' = calls w ++ attempts
        /\ sublist (map fst attempts) models
        /\ Forall (fun c => snd c = timeoutMs) attempts
  | None => True
  end.
Proof.
  induction models as [|model rest IH]; intros lastError w env.
  - simpl. exists []. rewrite app_nil_r. repeat constructor.
  - cbn [fallbackLoop]. unfold acquireGate.
    pose proof (acquireLoop_world model (clock w) (responses env) (wakes env) w) as Ha.
    destruct (acquireLoop _ _ _ _ w) as [[] w1 env1|e w1 env1|];
      cbn [finalWorld] in *; [|destruct Ha as [Ha _]|exact I].
    + destruct Ha as [Ha _].
      destruct (callBackend model timeoutMs w1 env1) as [[[r w2] env2]|] eqn:Ec;
        [|exact I].
      apply callBackend_calls in Ec.
      assert (Hstep : exists first, calls w2 = calls w ++ first
                        /\ sublist (map fst first) [model]
                        /\ Forall (fun c => snd c = timeoutMs) first).
      { destruct Ec as [[Ec _]|Ec].
        - exists []. rewrite app_nil_r. split; [congruence|].
          split; [apply sublist_nil_l|constructor].
        - exists [(model, timeoutMs)]. split; [congruence|].
          split; [reflexivity|]. now repeat constructor. }
      destruct Hstep as [first [Hc [Hs Hf]]].
      destruct r as [text|error].
      * cbn [finalWorld]. exists first.
        destruct (releaseGate_world (setResolved w2 lane model) model) as [-> _].
        cbn [calls setResolved]. split; [exact Hc|]. split; [|exact Hf].
        change (model :: rest) with ([model] ++ rest).
        now apply sublist_inserts_r.
      * destruct (shouldFallbackModelError error).
        -- specialize (IH (Some error) (releaseGate w2 model) env2).
           destruct (finalWorld _) as [w'|]; [|exact I].
           destruct IH as [more [Hm [Hsm Hfm]]].
           exists (first ++ more).
           destruct (releaseGate_world w2 model) as [Hr _].
           split; [rewrite Hm, Hr, Hc; now rewrite app_assoc|].
           split; [|now apply Forall_app].
           rewrite map_app. change (model :: rest) with ([model] ++ rest).
           now apply sublist_app.
        -- cbn [finalWorld]. exists first.
           destruct (releaseGate_world w2 model) as [-> _].
           split; [exact Hc|]. split; [|exact Hf].
           change (model :: rest) with ([model] ++ rest).
           now apply sublist_inserts_r.
    + exists []. rewrite app_nil_r. split; [congruence|].
      split; [apply sublist_nil_l|constructor].
Qed.

Lemma fallbackLoop_success lane label timeoutMs models :
  forall lastError w env text model w' env',
  fallbackLoop lane label timeoutMs models lastError w env
  = Returned (text, model) w' env' ->
  In model models
  /\ resolvedLaneModels w' lane = Some model
  /\ gates w' !! model = Some (mkGate false (clock w')).
Proof.
  induction models as [|m rest IH]; intros lastError w env text model w' env';
    [discriminate|].
  cbn [fallbackLoop].
  destruct (acquireGate m w env) as [[] w1 env1|e w1 env1|]; try discriminate.
  destruct (callBackend m timeoutMs w1 env1) as [[[[t|error] w2] env2]|];
    try discriminate.
  - intros [= <- <- <- <-]. split; [now left|].
    destruct (releaseGate_world (setResolved w2 lane m) m) as [_ [-> [-> ->]]].
    cbn [resolvedLaneModels clock setResolved].
    split; [|reflexivity]. now destruct lane.
  - destruct (shouldFallbackModelError error); [|discriminate].
    intros H. apply IH in H. destruct H as [H1 H2]. split; [now right|exact H2].
Qed.

End OrchestratorMore.

Lemma candidateModels_facts
    (w : Gate.World) (lane : Gate.LaneName) (preferred : string)
    (fallbacks : list string) :
  let models := Lanes.candidateModels w lane preferred fallbacks in
  NoDup models
  /\ (forall m, In m models <->
        m <> ""%string
        /\ (Gate.resolvedLaneModels w lane = Some m \/ m = preferred
            \/ In m fallbacks))
  /\ (forall sticky, Gate.resolvedLaneModels w lane = Some sticky ->
        sticky <> ""%string -> hd_error models = Some sticky).
Proof.
  intros models. unfold models, Lanes.candidateModels.
  split; [apply uniq_NoDup|]. split.
  - intros m. rewrite uniq_In, filter_In, negb_true_iff.
    assert (Hin : In m (match Gate.resolvedLaneModels w lane with
                        | Some r => r :: preferred :: fallbacks
                        | None => preferred :: fallbacks
                        end)
                  <-> (Gate.resolvedLaneModels w lane = Some m \/ m = preferred
                       \/ In m fallbacks)).
    { destruct (Gate.resolvedLaneModels w lane) as [r|]; simpl;
        split; intros H; intuition congruence. }
    rewrite Hin. destruct (String.eqb_spec m ""); simpl;
      intuition congruence.
  - intros sticky -> Hne. simpl.
    destruct (String.eqb_spec sticky ""); [contradiction|]. reflexivity.
Qed.

(** X12: the candidate list of a lane call has no repeated and no empty
    model name, contains only the sticky model, the preferred model and
    the fallbacks, and starts with the lane's sticky model whenever one
    is remembered. *)
Theorem candidate_models_are_distinct_sticky_first
    (w : Gate.World) (lane : Gate.LaneName) (preferred : string)
    (fallbacks : list string) :
  let models := Lanes.candidateModels w lane preferred fallbacks in
  NoDup models
  /\ (forall m, In m models <->
        m <> ""%string
        /\ (Gate.resolvedLaneModels w lane = Some m \/ m = preferred
            \/ In m fallbacks))
  /\ (forall sticky, Gate.resolvedLaneModels w lane = Some sticky ->
        sticky <> ""%string -> hd_error models = Some sticky).
Proof.
  exact (candidateModels_facts w lane preferred fallbacks).
Qed.

(** X13 (fallback termination): a lane call that ends, either way, has
    made at most one backend request per candidate model, in candidate
    order, each with the timeout of the call; so N candidates mean at
    most N requests. *)
Theorem fallback_attempts_bounded
    (lane : Gate.LaneName) (label : string) (preferred : string)
    (fallbacks : list string) (timeoutMs : Q) (w : Gate.World) (env : Lanes.Env) :
  match GateInv.finalWorld
          (Lanes.generateWithLaneFallback lane label preferred fallbacks
             timeoutMs w env) with
  | Some w' =>
      exists attempts,
        Gate.calls w' = Gate.calls w ++ attempts
        /\ sublist (map fst attempts)
                   (Lanes.candidateModels w lane preferred fallbacks)
        /\ Forall (fun c => snd c = timeoutMs) attempts
        /\ (length attempts
            <= length (Lanes.candidateModels w lane preferred fallbacks))%nat
  | None => True
  end.
Proof.
  unfold Lanes.generateWithLaneFallback.
  pose proof (fallbackLoop_attempts lane label timeoutMs
                (Lanes.candidateModels w lane preferred fallbacks) None w env) as H.
  destruct (GateInv.finalWorld _) as [w'|]; [|exact I].
  destruct H as [attempts [H1 [H2 H3]]]. exists attempts.
  repeat split; try assumption.
  apply sublist_length in H2. now rewrite length_map in H2.
Qed.

(** X14 (sticky model, guaranteed release): when a lane call succeeds,
    the model it returns is one of the candidates, it is now the lane's
    sticky model, its gate is released with [lastCompletedAt] equal to
    the time of return, and the next call of the lane will try it
    first. *)
Theorem success_makes_model_sticky_and_releases
    (lane : Gate.LaneName) (label : string) (preferred : string)
    (fallbacks : list string) (timeoutMs : Q) (w : Gate.World) (env : Lanes.Env)
    (text model : string) (w' : Gate.World) (env' : Lanes.Env) :
  Lanes.generateWithLaneFallback lane label preferred fallbacks timeoutMs w env
  = Lanes.Returned (text, model) w' env' ->
  In model (Lanes.candidateModels w lane preferred fallbacks)
  /\ Gate.resolvedLaneModels w' lane = Some model
  /\ Gate.gates w' !! model = Some (Gate.mkGate false (Gate.clock w'))
  /\ hd_error (Lanes.candidateModels w' lane preferred fallbacks) = Some model.
Proof.
  intros H. unfold Lanes.generateWithLaneFallback in H.
  apply fallbackLoop_success in H. destruct H as [H1 [H2 H3]].
  repeat split; try assumption.
  apply (candidateModels_facts w lane preferred fallbacks) in H1.
  destruct H1 as [Hne _].
  exact (proj2 (proj2 (candidateModels_facts
                         w' lane preferred fallbacks)) model H2 Hne).
Qed.

Lemma success_makes_model_sticky_and_releases_witness :
  let w := GateSpec.emptyWorld 1000000 in
  let env := Lanes.mkEnv [[Gate.Tick 300]; [Gate.Tick 400]]
               [Lanes.Rejected (Gate.ErrorObject (Some 404) None None);
                Lanes.Text (Some "{}"%string)] in
  exists w' env',
    Lanes.generateWithLaneFallback Gate.lite "Lite primary emotion"
      Sanitizer.LITE_MODEL Lanes.LITE_FALLBACK_MODELS 6500 w env
    = Lanes.Returned ("{}"%string, "gemini-2.5-flash"%string) w' env'
    /\ map fst (Gate.calls w') = ["gemini-2.5-flash-lite"; "gemini-2.5-flash"]%string
    /\ In "gemini-2.5-flash"%string
          (Lanes.candidateModels w Gate.lite Sanitizer.LITE_MODEL
             Lanes.LITE_FALLBACK_MODELS)
    /\ Gate.resolvedLaneModels w' Gate.lite = Some "gemini-2.5-flash"%string
    /\ Gate.gates w' !! "gemini-2.5-flash"%string
       = Some (Gate.mkGate false (Gate.clock w'))
    /\ hd_error (Lanes.candidateModels w' Gate.lite Sanitizer.LITE_MODEL
                   Lanes.LITE_FALLBACK_MODELS)
       = Some "gemini-2.5-flash"%string.
Proof.
  intros w env.
  destruct (Lanes.generateWithLaneFallback Gate.lite "Lite primary emotion"
              Sanitizer.LITE_MODEL Lanes.LITE_FALLBACK_MODELS 6500 w env)
    as [[text model] w' env'|e w' env'|] eqn:E.
  - pose proof (success_makes_model_sticky_and_releases _ _ _ _ _ _ _ _ _ _ _ E)
      as H.
    vm_compute in E. injection E as <- <- <- <-.
    eexists _, _. split; [reflexivity|]. split; [reflexivity|]. exact H.
  - vm_compute in E. discriminate.
  - vm_compute in E. discriminate.
Defined.

(** The gate-timeout error of any model is one the fallback classifier
    accepts (its message names the "model"); it ends the lane call only
    because it is raised outside the classified region. *)
Remark gate_timeout_error_is_fallback_eligible (model : string) :
  Lanes.shouldFallbackModelError (Lanes.gateTimeoutError model) = true.
Proof. reflexivity. Qed.

(** ** Tracker frames *)

Section TrackerFacts.
Import JS Fusion FusionSpec FusionInv Tracker.
Local Open Scope Q_scope.

Lemma nth_error_imap {A B} (f : nat -> A -> B) (l : list A) : forall i,
  nth_error (imap f l) i = option_map (f i) (nth_error l i).
Proof.
  revert f. induction l as [|a l IH]; intros f i.
  - now destruct i.
  - rewrite imap_cons. destruct i as [|i]; [reflexivity|].
    simpl. now rewrite IH.
Qed.

Lemma toNormalizedPoint_onGrid x y : onGrid (toNormalizedPoint x y).
Proof.
  unfold onGrid, toNormalizedPoint. cbn [fst snd].
  split; apply clamp_bounds; lra.
Qed.

Lemma toNormalizedPoint_comp x x' y y' :
  x == x' -> y == y' -> toNormalizedPoint x y = toNormalizedPoint x' y'.
Proof.
  intros Hx Hy. unfold toNormalizedPoint, round, roundZ.
  assert (H1 : y * 1000 + (1 # 2) == y' * 1000 + (1 # 2)) by (rewrite Hy; reflexivity).
  assert (H2 : x * 1000 + (1 # 2) == x' * 1000 + (1 # 2)) by (rewrite Hx; reflexivity).
  now rewrite (Qfloor_comp _ _ H1), (Qfloor_comp _ _ H2).
Qed.

Lemma track_points faceLandmarks timestampMs frame :
  track faceLandmarks timestampMs = Some frame ->
  exists primaryFace,
    primaryFace <> []
    /\ TrackedFaceFrame.points frame
       = imap (fun index landmark =>
                 TrackedLandmark.mk (Z.of_nat index)
                   (toNormalizedPoint (x landmark) (y landmark))) primaryFace
    /\ TrackedFaceFrame.parts frame
       = (fun part => if isUnknown part then None
                      else pointFromLandmarkSet primaryFace (FACIAL_PART_INDICES part))
    /\ TrackedFaceFrame.timestampMs frame = timestampMs.
Proof.
  unfold track. destruct faceLandmarks as [[|primaryFace others]|]; try discriminate.
  destruct primaryFace as [|lm rest] eqn:E; [discriminate|].
  intros [= <-]. exists (lm :: rest). repeat split. discriminate.
Qed.

Lemma growBox_encloses points : forall box minY minX maxY maxX,
  fold_left growBox points box = (minY, minX, maxY, maxX) ->
  (minY <= fst (fst (fst box)) /\ minX <= snd (fst (fst box))
   /\ snd (fst box) <= maxY /\ snd box <= maxX)
  /\ Forall (fun lm => (minY <= fst (TrackedLandmark.point lm)
                        /\ fst (TrackedLandmark.point lm) <= maxY)
                       /\ (minX <= snd (TrackedLandmark.point lm)
                           /\ snd (TrackedLandmark.point lm) <= maxX)) points.
Proof.
  induction points as [|lm rest IH]; intros box minY minX maxY maxX.
  - simpl. intros ->. cbn [fst snd]. repeat split; try apply Qle_refl. constructor.
  - cbn [fold_left]. intros H. apply IH in H. destruct H as [[H1 [H2 [H3 H4]]] HF].
    destruct box as [[[y0 x0] y1] x1]. unfold growBox in H1, H2, H3, H4.
    cbn [fst snd] in *.
    assert (Hlt : forall a b, Qltb a b = true -> a < b) by (intros; now apply Qltb_lt).
    assert (Hge : forall a b, Qltb a b = false -> b <= a) by (intros; now apply Qltb_ge).
    unfold Qgtb in *.
    destruct (Qltb (fst (TrackedLandmark.point lm)) y0) eqn:E1;
      destruct (Qltb (snd (TrackedLandmark.point lm)) x0) eqn:E2;
      destruct (Qltb y1 (fst (TrackedLandmark.point lm))) eqn:E3;
      destruct (Qltb x1 (snd (TrackedLandmark.point lm))) eqn:E4;
      try apply Hlt in E1; try apply Hlt in E2; try apply Hlt in E3;
      try apply Hlt in E4; try apply Hge in E1; try apply Hge in E2;
      try apply Hge in E3; try apply Hge in E4;
      (split; [repeat split; lra|]);
      (constructor; [repeat split; lra|exact HF]).
Qed.

End TrackerFacts.

(** X15: a frame produced by the tracker carries every landmark under its
    own position as index, has all its points on the 0..1000 grid and
    never lists a part "unknown"; hence [project] never throws on a
    tracker frame, whatever bindings the engine holds. *)
Theorem tracker_frames_are_indexed
    (faceLandmarks : option (list (list Tracker.Landmark))) (timestampMs : Q)
    (frame : TrackedFaceFrame.t)
    (e : Fusion.Engine) (nowMs : Q) (preserveStale : bool) :
  Tracker.track faceLandmarks timestampMs = Some frame ->
  FusionSpec.frameIndexed (Some frame)
  /\ Forall (fun lm => FusionInv.onGrid (TrackedLandmark.point lm))
            (TrackedFaceFrame.points frame)
  /\ TrackedFaceFrame.parts frame unknown = None
  /\ snd (Fusion.project e (Some frame) nowMs preserveStale) <> None.
Proof.
  intros H. destruct (track_points _ _ _ H) as [face [Hne [Hpts [Hparts _]]]].
  assert (Hidx : FusionSpec.frameIndexed (Some frame)).
  { intros i lm Hi. rewrite Hpts, nth_error_imap in Hi.
    destruct (nth_error face i); [|discriminate]. now injection Hi as <-. }
  split; [exact Hidx|]. split; [|split].
  - rewrite Hpts. apply Forall_forall. intros lm Hlm.
    apply elem_of_lookup_imap in Hlm. destruct Hlm as [i [l [-> _]]].
    apply toNormalizedPoint_onGrid.
  - now rewrite Hparts.
  - rewrite project_unfold. cbn [snd].
    destruct (Fusion.projectLoop e (Some frame) nowMs preserveStale
                (Fusion.bindings e)) as [kept [out|]] eqn:L; cbn [snd];
      [discriminate|].
    exfalso. exact (projectLoop_throws _ _ _ _ _ _ L Hidx).
Qed.

Lemma tracker_frames_are_indexed_witness :
  exists frame,
    Tracker.track (Some [Tracker.smallFace]) 33 = Some frame
    /\ Fusion.pointAt frame 13
       = Some (TrackedLandmark.mk 13 (705, 498)%Q)
    /\ FusionSpec.frameIndexed (Some frame)
    /\ Forall (fun lm => FusionInv.onGrid (TrackedLandmark.point lm))
              (TrackedFaceFrame.points frame)
    /\ TrackedFaceFrame.parts frame unknown = None
    /\ snd (Fusion.project FusionScenario.twoAnchorEngine (Some frame) 1033 false)
       <> None.
Proof.
  destruct (Tracker.track (Some [Tracker.smallFace]) 33) as [frame|] eqn:E;
    [|vm_compute in E; discriminate].
  pose proof (tracker_frames_are_indexed _ _ _ FusionScenario.twoAnchorEngine
                1033 false E) as H.
  exists frame. split; [reflexivity|]. split; [|exact H].
  vm_compute in E. injection E as <-. reflexivity.
Defined.

(** X16: when [computeFaceBox] returns a box, the box is not degenerate
    and every landmark point lies inside it. *)
Theorem face_box_encloses_points
    (points : list TrackedLandmark.t) (minY minX maxY maxX : Q) :
  Tracker.computeFaceBox points = Some (minY, minX, maxY, maxX) ->
  (minY < maxY /\ minX < maxX
   /\ Forall (fun lm => (minY <= fst (TrackedLandmark.point lm)
                         /\ fst (TrackedLandmark.point lm) <= maxY)
                        /\ (minX <= snd (TrackedLandmark.point lm)
                            /\ snd (TrackedLandmark.point lm) <= maxX)) points)%Q.
Proof.
  unfold Tracker.computeFaceBox. destruct points as [|lm rest]; [discriminate|].
  destruct (fold_left Tracker.growBox (lm :: rest) _) as [[[y0 x0] y1] x1] eqn:E.
  destruct (JS.Qleb y1 y0) eqn:Ey; [discriminate|].
  destruct (JS.Qleb x1 x0) eqn:Ex; [discriminate|].
  cbn [orb]. intros [= <- <- <- <-].
  assert (Hlt : forall a b, JS.Qleb a b = false -> (b < a)%Q).
  { intros a b H. apply Qltb_lt. unfold JS.Qltb, JS.Qleb in *. now rewrite H. }
  split; [now apply Hlt|]. split; [now apply Hlt|].
  exact (proj2 (growBox_encloses _ _ _ _ _ _ E)).
Qed.

Lemma face_box_encloses_points_witness :
  let points := FusionSpec.scenarioPoints (705, 498)%Q in
  Tracker.computeFaceBox points = Some (0, 0, 705, 498)%Q
  /\ (0 < 705 /\ 0 < 498
      /\ Forall (fun lm => (0 <= fst (TrackedLandmark.point lm)
                            /\ fst (TrackedLandmark.point lm) <= 705)
                           /\ (0 <= snd (TrackedLandmark.point lm)
                               /\ snd (TrackedLandmark.point lm) <= 498)) points)%Q.
Proof.
  intros points.
  assert (H : Tracker.computeFaceBox points = Some (0, 0, 705, 498)%Q)
    by reflexivity.
  split; [exact H|].
  exact (face_box_encloses_points points 0 0 705 498 H).
Defined.

(** X17: in a tracker frame, the point of a named facial part is exactly
    the tracked point of the part's landmark (mouth is landmark 13, nose
    and faceCenter are both landmark 1, ...), and the part is absent
    exactly when the face has no such landmark. *)
Theorem tracker_parts_are_landmark_points
    (faceLandmarks : option (list (list Tracker.Landmark))) (timestampMs : Q)
    (frame : TrackedFaceFrame.t) (part : FacialPartHint) (i : nat) :
  Tracker.track faceLandmarks timestampMs = Some frame ->
  Tracker.FACIAL_PART_INDICES part = [i] ->
  TrackedFaceFrame.parts frame part
  = option_map TrackedLandmark.point (Fusion.pointAt frame (Z.of_nat i)).
Proof.
  intros H Hpart. destruct (track_points _ _ _ H) as [face [_ [Hpts [Hparts _]]]].
  rewrite Hparts. unfold Fusion.pointAt.
  destruct (Z.ltb_spec (Z.of_nat i) 0); [lia|].
  rewrite Nat2Z.id, Hpts, nth_error_imap.
  assert (Hk : isUnknown part = false) by (destruct part; try reflexivity; discriminate).
  rewrite Hk. unfold Tracker.pointFromLandmarkSet. rewrite Hpart.
  cbn [Tracker.candidatesOf].
  destruct (nth_error face i) as [lm|]; [|reflexivity].
  cbn [option_map fold_left length TrackedLandmark.point]. f_equal.
  apply toNormalizedPoint_comp;
    change (inject_Z (Z.of_nat 1)) with 1%Q; field.
Qed.

Lemma tracker_parts_are_landmark_points_witness :
  exists frame,
    Tracker.track (Some [Tracker.smallFace]) 33 = Some frame
    /\ Tracker.FACIAL_PART_INDICES mouth = [13%nat]
    /\ TrackedFaceFrame.parts frame mouth = Some (705, 498)%Q
    /\ TrackedFaceFrame.parts frame chin = None
    /\ TrackedFaceFrame.parts frame mouth
       = option_map TrackedLandmark.point (Fusion.pointAt frame (Z.of_nat 13)).
Proof.
  destruct (Tracker.track (Some [Tracker.smallFace]) 33) as [frame|] eqn:E;
    [|vm_compute in E; discriminate].
  pose proof (tracker_parts_are_landmark_points _ _ _ mouth 13%nat E eq_refl) as H.
  exists frame. split; [reflexivity|]. split; [reflexivity|].
  split; [|split; [|exact H]]; vm_compute in E; injection E as <-; reflexivity.
Defined.

(** ** Point smoother *)

Section SmootherFacts.
Import JS Smoother.
Local Open Scope Q_scope.

Lemma round_mono (a b : Q) : a <= b -> round a <= round b.
Proof.
  intros H. unfold round, roundZ. rewrite <- Zle_Qle.
  apply Qfloor_resp_le. lra.
Qed.

Lemma clamp_mono (a b lo hi : Q) : a <= b -> clamp a lo hi <= clamp b lo hi.
Proof.
  intros H. unfold clamp.
  apply Q.min_le_compat_l. now apply Q.max_le_compat_l.
Qed.

Lemma interpolate_between (from to alpha : Q) :
  0 <= alpha -> alpha <= 1 ->
  Qmin from to <= interpolate from to alpha
  /\ interpolate from to alpha <= Qmax from to.
Proof.
  intros H0 H1. unfold interpolate.
  destruct (Qlt_le_dec to from) as [Hlt|Hle].
  - rewrite (Q.min_r from to) by lra. rewrite (Q.max_l from to) by lra.
    split; nra.
  - rewrite (Q.min_l from to) by lra. rewrite (Q.max_r from to) by lra.
    split; nra.
Qed.

End SmootherFacts.

(** X18: [smooth] always records the point it returns, with the call
    time, under the label id.  For a label with history the returned
    point lies on the 0..1000 grid and, coordinate by coordinate, between
    the (rounded, clamped) previous output and the new target: smoothing
    never overshoots, whatever [Math.exp] and [Math.sqrt] return. *)
Theorem smooth_records_and_never_overshoots
    (exp sqrt : Q -> Q) (s : Smoother.PointSmoother) (id : string)
    (nextPoint : NormalizedPoint) (nowMs : Q) :
  let '(s', r) := Smoother.smooth exp sqrt s id nextPoint nowMs in
  Smoother.states s' !! id = Some (Smoother.mkState r nowMs)
  /\ (forall id', id' <> id -> Smoother.states s' !! id' = Smoother.states s !! id')
  /\ match Smoother.states s !! id with
     | None => r = nextPoint
     | Some existing =>
         FusionInv.onGrid r
         /\ Smoother.between (fst (Smoother.point existing)) (fst nextPoint) (fst r)
         /\ Smoother.between (snd (Smoother.point existing)) (snd nextPoint) (snd r)
     end.
Proof.
  unfold Smoother.smooth.
  destruct (Smoother.states s !! id) as [existing|] eqn:E.
  - cbn [Smoother.states Smoother.withStates].
    split; [apply lookup_insert_eq|]. split.
    { intros id' Hne. now apply lookup_insert_ne. }
    assert (Ha : (0 <= Smoother.alphaOf exp sqrt s existing nextPoint nowMs
                  /\ Smoother.alphaOf exp sqrt s existing nextPoint nowMs <= 1)%Q).
    { unfold Smoother.alphaOf.
      match goal with
      | |- context [JS.clamp ?v (1 # 10) (95 # 100)] =>
          destruct (clamp_bounds v (1 # 10) (95 # 100)) as [H1 H2]; [lra|]
      end. split; lra. }
    destruct Ha as [Ha0 Ha1].
    split.
    { unfold FusionInv.onGrid. cbn [fst snd]. split; apply clamp_bounds; lra. }
    unfold Smoother.between. cbn [fst snd].
    split; (split; apply clamp_mono, round_mono;
            apply interpolate_between; assumption).
  - cbn [Smoother.states Smoother.withStates].
    split; [apply lookup_insert_eq|]. split; [|reflexivity].
    intros id' Hne. now apply lookup_insert_ne.
Qed.

(** X19: after [prune], a label keeps its smoothing state exactly when
    that state is at most [maxStateAgeMs] old; a label whose state was
    pruned gets its next sample back unsmoothed. *)
Theorem prune_drops_exactly_the_old_states
    (exp sqrt : Q -> Q) (s : Smoother.PointSmoother) (nowMs : Q) (id : string) :
  Smoother.states (Smoother.prune s nowMs) !! id
  = match Smoother.states s !! id with
    | Some st => if Smoother.fresh s nowMs st then Some st else None
    | None => None
    end
  /\ (forall st nextPoint laterMs,
        Smoother.states s !! id = Some st ->
        Smoother.fresh s nowMs st = false ->
        snd (Smoother.smooth exp sqrt (Smoother.prune s nowMs) id nextPoint laterMs)
        = nextPoint).
Proof.
  assert (H : Smoother.states (Smoother.prune s nowMs) !! id
              = match Smoother.states s !! id with
                | Some st => if Smoother.fresh s nowMs st then Some st else None
                | None => None
                end).
  { unfold Smoother.prune. cbn [Smoother.states Smoother.withStates].
    destruct (Smoother.states s !! id) as [st|] eqn:E.
    - destruct (Smoother.fresh s nowMs st) eqn:F.
      + apply map_lookup_filter_Some. split; [exact E|exact F].
      + apply map_lookup_filter_None. right. intros st' E' F'.
        cbn [snd] in F'. congruence.
    - apply map_lookup_filter_None. now left. }
  split; [exact H|].
  intros st nextPoint laterMs E F. unfold Smoother.smooth.
  rewrite H, E, F. reflexivity.
Qed.

(** ** Adaptive quality manager *)

Section QualityFacts.
Import JS Json Quality.
Local Open Scope Q_scope.


Lemma appendWindow_length window v max :
  (length window <= max)%nat -> (length (appendWindow window v max) <= max)%nat.
Proof.
  intros H. unfold appendWindow.
  destruct (Nat.ltb_spec max (length (window ++ [v]))) as [Hlt|Hge]; [|exact Hge].
  rewrite length_app in Hlt. simpl in Hlt.
  destruct window as [|x w]; simpl in *; [lia|].
  rewrite length_app. simpl. lia.
Qed.

Lemma appendWindow_Forall (P : Q -> Prop) window v max :
  Forall P window -> P v -> Forall P (appendWindow window v max).
Proof.
  intros Hw Hv. unfold appendWindow.
  assert (H : Forall P (window ++ [v])) by (apply Forall_app; auto).
  destruct (max <? length (window ++ [v]))%nat; [|exact H].
  destruct (window ++ [v]); [constructor|]. now inversion H.
Qed.

Lemma accepted_positive v q : accepted v = Some q -> 0 < q.
Proof.
  unfold accepted. destruct v as [x| | |]; try discriminate.
  destruct (Qgtb x 0) eqn:E; [|discriminate]. intros [= <-].
  now apply Qltb_lt.
Qed.

Lemma report_consistent m r : consistent m -> consistent (report m r).
Proof.
  intros [H1 [H2 [H3 [H4 H5]]]].
  apply Forall_app in H4. destruct H4 as [Hf H4].
  apply Forall_app in H4. destruct H4 as [Hd Ht].
  destruct r as [v|v|v]; cbn [report];
    unfold reportFastRtt, reportDepthRtt, reportFrameTime;
    destruct (accepted v) as [q|] eqn:E;
    try (repeat split; try assumption; repeat (apply Forall_app; split);
         assumption);
    apply accepted_positive in E;
    unfold consistent, recomputeTier;
    cbn [fastRtts depthRtts frameTimes current];
    (split; [try assumption; now apply appendWindow_length|]);
    (split; [try assumption; now apply appendWindow_length|]);
    (split; [try assumption; now apply appendWindow_length|]);
    (split; [|reflexivity]);
    repeat (apply Forall_app; split); try assumption;
    now apply appendWindow_Forall.
Qed.

Lemma feed_consistent reports : forall m,
  consistent m -> consistent (fold_left report reports m).
Proof.
  induction reports as [|r rest IH]; intros m H; [exact H|].
  simpl. apply IH. now apply report_consistent.
Qed.

Lemma sum_lower (c : Q) (l : list Q) : forall a,
  Forall (fun v => c <= v) l ->
  a + c * inject_Z (Z.of_nat (length l)) <= fold_left Qplus l a.
Proof.
  induction l as [|x l IH]; intros a H.
  - cbn [fold_left length]. change (inject_Z (Z.of_nat 0)) with 0. lra.
  - inversion H; subst. cbn [fold_left length].
    eapply Qle_trans; [|apply IH; assumption].
    rewrite Nat2Z.inj_succ, <- Z.add_1_r, inject_Z_plus.
    change (inject_Z 1) with 1. lra.
Qed.

Lemma sum_upper (c : Q) (l : list Q) : forall a,
  Forall (fun v => v <= c) l ->
  fold_left Qplus l a <= a + c * inject_Z (Z.of_nat (length l)).
Proof.
  induction l as [|x l IH]; intros a H.
  - cbn [fold_left length]. change (inject_Z (Z.of_nat 0)) with 0. lra.
  - inversion H; subst. cbn [fold_left length].
    eapply Qle_trans; [apply IH; assumption|].
    rewrite Nat2Z.inj_succ, <- Z.add_1_r, inject_Z_plus.
    change (inject_Z 1) with 1. lra.
Qed.

Lemma length_positive {A} (x : A) (l : list A) :
  0 < inject_Z (Z.of_nat (length (x :: l))).
Proof.
  change 0 with (inject_Z 0). rewrite <- Zlt_Qlt. simpl. lia.
Qed.

Lemma average_above (c : Q) (l : list Q) :
  l <> [] -> Forall (fun v => c < v) l -> c < average l.
Proof.
  destruct l as [|x l]; [congruence|]. intros _ H. unfold average, sum.
  apply Qlt_shift_div_l; [apply length_positive|].
  inversion H; subst. cbn [fold_left length].
  assert (Hl : Forall (fun v => c <= v) l).
  { eapply Forall_impl; [eassumption|]. intros v Hv. simpl in Hv. lra. }
  pose proof (sum_lower c l (0 + x) Hl) as Hs.
  rewrite Nat2Z.inj_succ, <- Z.add_1_r, inject_Z_plus.
  change (inject_Z 1) with 1. lra.
Qed.

Lemma average_at_most (c : Q) (l : list Q) :
  0 <= c -> Forall (fun v => v <= c) l -> average l <= c.
Proof.
  intros Hc H. destruct l as [|x l]; [exact Hc|]. unfold average, sum.
  apply Qle_shift_div_r; [apply length_positive|].
  pose proof (sum_upper c (x :: l) 0 H) as Hs. lra.
Qed.

End QualityFacts.

(** X20: whatever sequence of reports a new quality manager receives
    (including non-finite, zero and negative samples, which it ignores),
    its windows never exceed 24 fast, 24 deep and 60 frame-time samples,
    hold only positive samples, and its tier is always the one the
    threshold ladder assigns to the current window averages. *)
Theorem quality_manager_stays_consistent (reports : list Quality.Report) :
  Quality.consistent (Quality.feed reports).
Proof.
  apply feed_consistent. unfold Quality.consistent. cbn.
  repeat split; try lia. constructor.
Qed.

(** X21: after any sequence of reports, the manager is in tier "low"
    whenever its fast-lane window is non-empty and all its samples exceed
    900 ms, and in tier "high" whenever no fast sample exceeds 520 ms, no
    deep sample 2100 ms and no frame time 19 ms. *)
Theorem quality_tier_follows_thresholds (reports : list Quality.Report) :
  let m := Quality.feed reports in
  (Quality.fastRtts m <> [] ->
   Forall (fun v => 900 < v)%Q (Quality.fastRtts m) ->
   Quality.current m = Quality.low)
  /\ (Forall (fun v => v <= 520)%Q (Quality.fastRtts m) ->
      Forall (fun v => v <= 2100)%Q (Quality.depthRtts m) ->
      Forall (fun v => v <= 19)%Q (Quality.frameTimes m) ->
      Quality.current m = Quality.high).
Proof.
  intros m.
  destruct (quality_manager_stays_consistent reports) as [_ [_ [_ [_ Ht]]]].
  fold m in Ht. split.
  - intros Hne Hall. rewrite Ht. unfold Quality.tierOf.
    assert (H : JS.Qgtb (Quality.average (Quality.fastRtts m)) 900 = true).
    { apply Qltb_lt. now apply average_above. }
    now rewrite H.
  - intros Hf Hd Hr. rewrite Ht. unfold Quality.tierOf.
    assert (Hle : forall l c c', (0 <= c)%Q -> (c <= c')%Q ->
                    Forall (fun v => v <= c)%Q l ->
                    JS.Qgtb (Quality.average l) c' = false).
    { intros l c c' H0 Hcc Hl. apply Qltb_ge.
      pose proof (average_at_most c l H0 Hl). lra. }
    rewrite (Hle _ 520 900)%Q, (Hle _ 2100 3500)%Q, (Hle _ 19 26)%Q,
            (Hle _ 520 520)%Q, (Hle _ 2100 2100)%Q, (Hle _ 19 19)%Q;
      try assumption; try lra. reflexivity.
Qed.

(** The two scenarios of the specification: ten fast samples of 1000 ms
    give "low"; ten rounds of 200 ms fast, 500 ms deep and 10 ms frame
    time give "high". *)
Lemma quality_tier_follows_thresholds_witness :
  let slow := repeat (Quality.FastRtt (Json.Fin 1000)) 10 in
  let quick := concat (repeat [Quality.FastRtt (Json.Fin 200);
                               Quality.DepthRtt (Json.Fin 500);
                               Quality.FrameTime (Json.Fin 10)] 10) in
  Quality.current (Quality.feed slow) = Quality.low
  /\ Quality.maxVisibleTags (Quality.getProfile (Quality.feed slow)) = 4%Q
  /\ Quality.current (Quality.feed quick) = Quality.high.
Proof.
  intros slow quick. split; [|split].
  - apply (proj1 (quality_tier_follows_thresholds slow)).
    + vm_compute. discriminate.
    + vm_compute. repeat constructor.
  - vm_compute. reflexivity.
  - apply (proj2 (quality_tier_follows_thresholds quick));
      vm_compute; repeat constructor; discriminate.
Defined.

(** ** Performance telemetry *)

(** X22: the percentile of a non-empty sample list is one of the samples
    (no interpolation), for every fraction [p], also outside [0, 1]; the
    percentile of an empty list is 0. *)
Theorem percentile_is_a_sample (values : list Q) (p : Q) :
  match values with
  | [] => Perf.percentile values p = 0%Q
  | _ => In (Perf.percentile values p) values
  end.
Proof.
  destruct values as [|x rest]; [reflexivity|].
  unfold Perf.percentile.
  set (sorted := JS.js_sort Perf.ascending (x :: rest)).
  apply (js_sort_In Perf.ascending). fold sorted.
  apply nth_In.
  assert (Hlen : length sorted = S (length rest))
    by (unfold sorted; now rewrite js_sort_length).
  rewrite Hlen. lia.
Qed.

Lemma perf_counters reports : forall t,
  (0 <= Perf.droppedFrames t <= Perf.renderedFrames t)%Z ->
  (0 <= Perf.droppedFrames (fold_left Perf.report reports t)
   <= Perf.renderedFrames (fold_left Perf.report reports t))%Z.
Proof.
  induction reports as [|r rest IH]; intros t H; [exact H|].
  simpl. apply IH.
  destruct r as [v|v|v|v]; cbn [Perf.report];
    unfold Perf.reportOverlayFps, Perf.reportFrameTime, Perf.reportFastRtt,
      Perf.reportDepthRtt;
    destruct (Quality.accepted v) as [q|]; try exact H;
    cbn [Perf.droppedFrames Perf.renderedFrames]; try exact H.
  destruct (JS.Qgtb q 34); lia.
Qed.

(** X23: after any sequence of reports, the dropped-frame ratio of a
    snapshot lies between 0 and 1 (it is 0 while no frame time has been
    accepted). *)
Theorem dropped_frame_ratio_is_a_fraction (reports : list Perf.Report) :
  (0 <= Perf.droppedFrameRatio (Perf.snapshot (Perf.feed reports))
   /\ Perf.droppedFrameRatio (Perf.snapshot (Perf.feed reports)) <= 1)%Q.
Proof.
  unfold Perf.feed.
  pose proof (perf_counters reports Perf.initial) as H.
  cbn [Perf.initial Perf.droppedFrames Perf.renderedFrames] in H.
  specialize (H ltac:(lia)).
  set (t := fold_left Perf.report reports _) in *.
  unfold Perf.snapshot. cbn [Perf.droppedFrameRatio].
  destruct (Z.eqb_spec (Perf.renderedFrames t) 0) as [E|E]; [lra|].
  assert (Hr : (0 < inject_Z (Perf.renderedFrames t))%Q).
  { change 0%Q with (inject_Z 0). rewrite <- Zlt_Qlt. lia. }
  split.
  - apply Qle_shift_div_l; [exact Hr|]. rewrite Qmult_0_l.
    change 0%Q with (inject_Z 0). rewrite <- Zle_Qle. lia.
  - apply Qle_shift_div_r; [exact Hr|]. rewrite Qmult_1_l.
    rewrite <- Zle_Qle. lia.
Qed.

(** ** Sanitizers: part names, primary emotion, anchor ids *)

Section SanitizerMore.
Import JS Json Sanitizer SanitizerInv.

Lemma partOfName_partName p : partOfName (partName p) = p.
Proof. destruct p; reflexivity. Qed.

Lemma trim_partName p : trim (partName p) = partName p.
Proof. destruct p; reflexivity. Qed.

Lemma partOfName_named s p :
  partOfName s = p -> p <> unknown -> s = partName p.
Proof.
  unfold partOfName.
  repeat match goal with
         | |- context [String.eqb s ?t] =>
             destruct (String.eqb_spec s t) as [->|_];
             [intros <- _; reflexivity|]
         end.
  intros <- H. congruence.
Qed.

Lemma substring_length_le n s : (String.length (substring 0 n s) <= n)%nat.
Proof.
  revert s. induction n as [|n IH]; intros [|c s]; simpl; try lia.
  specialize (IH s). lia.
Qed.

Lemma sliceStr_nonempty n s :
  s <> ""%string -> sliceStr (S n) s <> ""%string.
Proof. destruct s; [contradiction|]. intros _. discriminate. Qed.

Lemma orElse_nonempty a b : b <> ""%string -> orElse a b <> ""%string.
Proof.
  intros Hb. unfold orElse. destruct (String.eqb_spec a ""); assumption.
Qed.

Lemma toStringOrFallback_nonempty value fallback :
  fallback <> ""%string -> toStringOrFallback value fallback <> ""%string.
Proof.
  intros Hf. unfold toStringOrFallback. destruct value; try assumption.
  destruct (String.eqb_spec (trim s) ""); assumption.
Qed.

Lemma liteCandidate_named stringToNumber record :
  EmotionCandidate.emotion (liteCandidate stringToNumber record) <> ""%string.
Proof. apply toStringOrFallback_nonempty. discriminate. Qed.

(** *** Anchor ids *)

Lemma dashFree_pretty_N_go (x : N) : forall s,
  dashFree s = true -> dashFree (pretty_N_go x s) = true.
Proof.
  induction (N.lt_wf_0 x) as [x _ IH]. intros s Hs.
  assert (x = 0 \/ 0 < x)%N as [->|Hx] by lia.
  - now rewrite pretty_N_go_0.
  - rewrite pretty_N_go_step by assumption. apply IH.
    + now apply N.div_lt.
    + simpl. rewrite Hs, andb_true_r. unfold pretty_N_char.
      repeat case_match; reflexivity.
Qed.

Lemma dashFree_pretty_nat (n : nat) : dashFree (pretty n) = true.
Proof.
  unfold pretty, pretty_nat, pretty, pretty_N.
  destruct (decide (N.of_nat n = 0%N)); [reflexivity|].
  now apply dashFree_pretty_N_go.
Qed.

Local Ltac string_app :=
  cbv beta iota delta [String.append] in *; fold String.append in *.

(** Two strings cut at their first dash. *)
Lemma split_first_dash (a : string) : forall b x y,
  dashFree a = true -> dashFree b = true ->
  (a ++ "-" ++ x)%string = (b ++ "-" ++ y)%string -> a = b /\ x = y.
Proof.
  induction a as [|c a IH]; intros [|d b] x y Ha Hb H; string_app; simpl in *.
  - injection H as ->. now split.
  - injection H as <- _. simpl in Hb. discriminate.
  - injection H as -> _. simpl in Ha. discriminate.
  - injection H as -> H. apply andb_true_iff in Ha, Hb.
    destruct (IH b x y (proj2 Ha) (proj2 Hb) H) as [-> ->]. now split.
Qed.

Lemma dashFree_no_dash (a b x : string) :
  dashFree x = true -> x <> (a ++ "-" ++ b)%string.
Proof.
  revert x. induction a as [|c a IH]; intros [|d x] Hx H; string_app; simpl in *;
    try discriminate.
  - injection H as -> _. discriminate.
  - injection H as -> H. apply andb_true_iff in Hx. now apply (IH x).
Qed.

(** Two strings cut at their last dash. *)
Lemma split_last_dash (a : string) : forall b x y,
  dashFree x = true -> dashFree y = true ->
  (a ++ "-" ++ x)%string = (b ++ "-" ++ y)%string -> a = b /\ x = y.
Proof.
  induction a as [|c a IH]; intros [|d b] x y Hx Hy H; string_app; simpl in *.
  - injection H as ->. now split.
  - injection H as <- H. exfalso. now apply (dashFree_no_dash b y x).
  - injection H as -> H. exfalso. symmetry in H.
    now apply (dashFree_no_dash a x y).
  - injection H as -> H.
    destruct (IH b x y Hx Hy H) as [-> ->]. now split.
Qed.

Lemma In_map_imap {A B C} (g : B -> C) (l : list A) : forall (f : nat -> A -> B) z,
  In z (map g (imap f l)) -> exists j y, z = g (f j y).
Proof.
  induction l as [|x l IH]; intros f z H; simpl in H; [contradiction|].
  destruct H as [<-|H]; [now exists 0%nat, x|].
  apply IH in H. destruct H as [j [y ->]]. now exists (S j), y.
Qed.

Lemma NoDup_map_imap {A B C} (g : B -> C) (l : list A) :
  forall (f : nat -> A -> B),
  (forall i j x y, g (f i x) = g (f j y) -> i = j) ->
  NoDup (map g (imap f l)).
Proof.
  induction l as [|x l IH]; intros f Hinj; simpl; constructor.
  - rewrite list_elem_of_In. intros H. apply In_map_imap in H.
    destruct H as [j [y H]]. apply Hinj in H. discriminate.
  - apply IH. intros i j a b H. apply Hinj in H. now injection H.
Qed.

Lemma depthAnchor_id_inj i j x y :
  SemanticAnchor.id (depthAnchor i x) = SemanticAnchor.id (depthAnchor j y) ->
  i = j.
Proof.
  unfold depthAnchor. cbn [SemanticAnchor.id].
  change ("depth-" ++ ?s)%string with ("depth-" ++ s)%string.
  intros H. simpl in H. injection H as H.
  apply split_first_dash in H; try apply dashFree_pretty_nat.
  destruct H as [H _]. now apply (inj pretty) in H.
Qed.

Lemma landmarkAnchor_id_inj i j x y :
  SemanticAnchor.id (landmarkAnchor i x) = SemanticAnchor.id (landmarkAnchor j y) ->
  i = j.
Proof.
  unfold landmarkAnchor. cbn [SemanticAnchor.id].
  intros H. simpl in H. injection H as H.
  apply split_first_dash in H; try apply dashFree_pretty_nat.
  destruct H as [H _]. now apply (inj pretty) in H.
Qed.


Lemma emotionId_inj k k' n n' :
  emotionId k n = emotionId k' n' -> k = k' /\ n = n'.
Proof.
  unfold emotionId. intros H. string_app. injection H as H.
  apply split_last_dash in H; try apply dashFree_pretty_nat.
  destruct H as [-> H]. split; [reflexivity|]. now apply (inj pretty) in H.
Qed.

Lemma emotionAnchor_id landmarks counters e :
  exists k,
    fst (emotionAnchor landmarks counters e)
    = <[k := S (default 0%nat (counters !! k))]> counters
    /\ SemanticAnchor.id (snd (emotionAnchor landmarks counters e))
       = emotionId k (S (default 0%nat (counters !! k))).
Proof. eexists. split; reflexivity. Qed.

Lemma emotionAnchors_ids landmarks emotions : forall counters,
  Forall (fun a => exists k n,
            SemanticAnchor.id a = emotionId k n
            /\ (default 0 (counters !! k) < n)%nat)
         (emotionAnchors landmarks counters emotions)
  /\ NoDup (map SemanticAnchor.id (emotionAnchors landmarks counters emotions)).
Proof.
  induction emotions as [|e emotions IH]; intros counters.
  - split; constructor.
  - cbn [emotionAnchors].
    destruct (emotionAnchor_id landmarks counters e) as [k [Hc Hid]].
    destruct (emotionAnchor landmarks counters e) as [counters' a].
    cbn [fst snd] in Hc, Hid. subst counters'.
    destruct (IH (<[k := S (default 0%nat (counters !! k))]> counters))
      as [Hall Hnd].
    split.
    + constructor.
      * exists k, (S (default 0%nat (counters !! k))). split; [exact Hid|lia].
      * eapply Forall_impl; [exact Hall|]. cbv beta.
        intros a' [k' [n' [Ha' Hlt]]]. exists k', n'. split; [exact Ha'|].
        destruct (decide (k = k')) as [<-|Hne].
        -- rewrite lookup_insert_eq in Hlt. simpl in Hlt. lia.
        -- now rewrite lookup_insert_ne in Hlt.
    + cbn [map]. constructor; [|exact Hnd].
      rewrite list_elem_of_In, in_map_iff. intros [a' [Heq Hin]].
      rewrite Forall_forall in Hall. apply list_elem_of_In, Hall in Hin.
      destruct Hin as [k' [n' [Ha' Hlt]]].
      rewrite Hid, Ha' in Heq. apply emotionId_inj in Heq.
      destruct Heq as [-> ->].
      rewrite lookup_insert_eq in Hlt. simpl in Hlt. lia.
Qed.

Lemma emotion_id_is_no_landmark_id k n i lm :
  emotionId k n <> SemanticAnchor.id (landmarkAnchor i lm).
Proof. unfold emotionId, landmarkAnchor. cbn [SemanticAnchor.id]. discriminate. Qed.

End SanitizerMore.

(** X24 (part names): [toFacialPart] yields a named facial part exactly
    for a string that, once trimmed, is that part's name; every other
    value, of any type, yields "unknown".  Each part is recovered from
    its own name. *)
Theorem toFacialPart_accepts_exactly_the_part_names
    (value : Json.JSValue) (p : FacialPartHint) :
  p <> unknown ->
  Sanitizer.toFacialPart (Json.JString (Sanitizer.partName p)) = p
  /\ (Sanitizer.toFacialPart value = p
      <-> exists s, value = Json.JString s
                    /\ Json.trim s = Sanitizer.partName p).
Proof.
  intros Hp. split.
  - unfold Sanitizer.toFacialPart. rewrite trim_partName.
    apply partOfName_partName.
  - split.
    + intros H. unfold Sanitizer.toFacialPart in H.
      destruct value as [| |b|n|s|items|fields];
        try (apply partOfName_named in H; [|exact Hp];
             destruct p; discriminate).
      exists s. split; [reflexivity|]. now apply partOfName_named.
    + intros [s [-> Hs]]. unfold Sanitizer.toFacialPart. rewrite Hs.
      apply partOfName_partName.
Qed.

Lemma toFacialPart_accepts_exactly_the_part_names_witness :
  mouthLeft <> unknown
  /\ Sanitizer.toFacialPart (Json.JString "mouthLeft") = mouthLeft
  /\ (Sanitizer.toFacialPart (Json.JString "  mouthLeft ") = mouthLeft
      <-> exists s, Json.JString "  mouthLeft " = Json.JString s
                    /\ Json.trim s = "mouthLeft"%string).
Proof.
  split; [discriminate|].
  exact (toFacialPart_accepts_exactly_the_part_names
           (Json.JString "  mouthLeft ") mouthLeft
           ltac:(discriminate)).
Defined.

(** X25 (primary emotion): whatever the lite model answered, the
    sanitized primary emotion is a non-empty string of at most 64 code
    units, no candidate has an empty emotion, and the mood sentence is
    present and non-empty. *)
Theorem lite_primary_emotion_is_named_and_short
    (stringToNumber : string -> Json.JSNum) (now : Q) (raw : Json.JSValue)
    (options : AnalyzeOptions.t) (model : string) :
  let r := Sanitizer.sanitizeLiteResult stringToNumber now raw options model in
  LiteAnalysisResult.primaryEmotion r <> ""%string
  /\ (String.length (LiteAnalysisResult.primaryEmotion r)
      <= Sanitizer.PRIMARY_EMOTION_MAX_CHARS)%nat
  /\ Forall (fun c => EmotionCandidate.emotion c <> ""%string)
            (LiteAnalysisResult.candidates r)
  /\ exists sentence,
       LiteAnalysisResult.moodSentence r = Some sentence
       /\ sentence <> ""%string.
Proof.
  intros r. subst r. unfold Sanitizer.sanitizeLiteResult.
  destruct (negb _).
  - cbn. split; [discriminate|].
    split; [unfold Sanitizer.PRIMARY_EMOTION_MAX_CHARS; simpl; lia|].
    split; [constructor|].
    eexists. split; [reflexivity|discriminate].
  - cbv zeta. cbn [LiteAnalysisResult.primaryEmotion
                   LiteAnalysisResult.candidates LiteAnalysisResult.moodSentence].
    split; [|split; [|split]].
    + apply sliceStr_nonempty, orElse_nonempty. discriminate.
    + apply substring_length_le.
    + unfold Sanitizer.sliceMap. destruct (Json.get raw "candidates");
        try constructor.
      apply Forall_forall. intros c Hc. apply list_elem_of_In, in_map_iff in Hc.
      destruct Hc as [record [<- _]]. apply liteCandidate_named.
    + eexists. split; [reflexivity|]. apply orElse_nonempty.
      unfold String.append. discriminate.
Qed.

(** X26 (anchor ids): the semantic anchors built from one response have
    pairwise distinct ids: the emotion anchors by their per-key running
    number, the landmark and depth anchors by their position, and no
    emotion id is a landmark id.  So the fusion engine, which keys its
    bindings by id, keeps one binding per anchor. *)
Theorem built_anchor_ids_are_distinct
    (emotions : list FastEmotion.t) (landmarks : list FastLandmark.t)
    (insights : list DepthInsight.t) :
  NoDup (map SemanticAnchor.id (Sanitizer.buildFastAnchors emotions landmarks))
  /\ NoDup (map SemanticAnchor.id (Sanitizer.buildDepthAnchors insights)).
Proof.
  split.
  - unfold Sanitizer.buildFastAnchors. rewrite map_app.
    destruct (emotionAnchors_ids landmarks emotions ∅) as [Hall Hnd].
    apply NoDup_app. split; [exact Hnd|]. split.
    + intros id He Hl. apply list_elem_of_In in He, Hl.
      apply in_map_iff in He. destruct He as [a [<- Ha]].
      rewrite Forall_forall in Hall. apply list_elem_of_In, Hall in Ha.
      destruct Ha as [k [n [Hid _]]].
      apply In_map_imap in Hl. destruct Hl as [j [lm Hl]].
      rewrite Hid in Hl. now apply emotion_id_is_no_landmark_id in Hl.
    + apply NoDup_map_imap. apply landmarkAnchor_id_inj.
  - unfold Sanitizer.buildDepthAnchors.
    apply NoDup_map_imap. apply depthAnchor_id_inj.
Qed.

(** ** Lane timeouts *)

Section TimeoutFacts.
Import JS Lanes.
Local Open Scope Q_scope.

Lemma Qgtb_gt (a b : Q) : Qgtb a b = true <-> b < a.
Proof. unfold Qgtb. apply Qltb_lt. Qed.

Lemma Qgtb_le (a b : Q) : Qgtb a b = false <-> a <= b.
Proof. unfold Qgtb. apply Qltb_ge. Qed.

(** [Math.round((length * 3) / 4)] *)
Lemma approxBytes_mono (a b : string) :
  (String.length a <= String.length b)%nat ->
  round (inject_Z (Z.of_nat (String.length a)) * 3 / 4)
  <= round (inject_Z (Z.of_nat (String.length b)) * 3 / 4).
Proof.
  intros H. apply round_mono.
  assert (inject_Z (Z.of_nat (String.length a))
          <= inject_Z (Z.of_nat (String.length b)))
    by (rewrite <- Zle_Qle; lia).
  unfold Qdiv. apply Qmult_le_compat_r; [|discriminate].
  apply Qmult_le_compat_r; [assumption|discriminate].
Qed.

End TimeoutFacts.

(** X27 (size-based timeout): without an explicit timeout, and with a
    base timeout that does not exceed the cap (the lite and flash
    lanes), the timeout of a lane call lies between the base and the
    cap, and a longer image never gets a shorter timeout.  With a base
    above the cap (the depth lane: 120000 against 58000) the timeout is
    the base or, for a large image, the smaller cap. *)
Theorem size_timeout_between_base_and_cap
    (baseTimeoutMs capTimeoutMs : Q) (image image' : string) :
  let t := Lanes.computeTimeoutMs None baseTimeoutMs image capTimeoutMs in
  let t' := Lanes.computeTimeoutMs None baseTimeoutMs image' capTimeoutMs in
  ((baseTimeoutMs <= capTimeoutMs ->
    baseTimeoutMs <= t /\ t <= capTimeoutMs
    /\ ((String.length image <= String.length image')%nat -> t <= t'))
   /\ (capTimeoutMs < baseTimeoutMs ->
       t == baseTimeoutMs \/ t == capTimeoutMs))%Q.
Proof.
  intros t t'. subst t t'. unfold Lanes.computeTimeoutMs.
  split.
  - intros Hle. split; [|split].
    + repeat (destruct (JS.Qgtb _ _)); try apply Qle_refl;
        apply Q.min_glb; lra.
    + repeat (destruct (JS.Qgtb _ _)); try assumption; apply Q.le_min_r.
    + intros Hlen. pose proof (approxBytes_mono image image' Hlen) as Hm.
      destruct (JS.Qgtb (JS.round (inject_Z (Z.of_nat (String.length image)) * 3 / 4))
                        380000) eqn:E1;
      destruct (JS.Qgtb (JS.round (inject_Z (Z.of_nat (String.length image)) * 3 / 4))
                        240000) eqn:E2;
      destruct (JS.Qgtb (JS.round (inject_Z (Z.of_nat (String.length image')) * 3 / 4))
                        380000) eqn:E3;
      destruct (JS.Qgtb (JS.round (inject_Z (Z.of_nat (String.length image')) * 3 / 4))
                        240000) eqn:E4;
      rewrite ?Qgtb_gt, ?Qgtb_le in *;
      try (exfalso; lra);
      try apply Qle_refl;
      try (apply Q.min_glb; [|apply Q.le_min_r]);
      try (eapply Qle_trans; [apply Q.le_min_l|]; lra);
      try (apply Q.min_glb; lra).
  - intros Hlt.
    repeat (destruct (JS.Qgtb _ _)); try (left; reflexivity);
      right; apply Q.min_r; lra.
Qed.

Lemma size_timeout_between_base_and_cap_witness :
  let image := string_of_list_ascii (repeat "A"%char 200) in
  let t := Lanes.computeTimeoutMs None Lanes.LITE_TIMEOUT_MS image 9000 in
  ((Lanes.LITE_TIMEOUT_MS <= 9000)
   /\ Lanes.LITE_TIMEOUT_MS <= t /\ t <= 9000)%Q.
Proof.
  intros image t.
  assert (H : (Lanes.LITE_TIMEOUT_MS <= 9000)%Q) by (vm_compute; discriminate).
  split; [exact H|].
  destruct (proj1 (size_timeout_between_base_and_cap
                     Lanes.LITE_TIMEOUT_MS 9000 image image) H) as [H1 [H2 _]].
  split; [exact H1|exact H2].
Defined.

(** ** Request validation *)

Section PayloadFacts.
Import JS Json Payload.
Local Open Scope Q_scope.



Lemma nonEmpty_Some s clip : nonEmpty s = Some clip -> clip = s.
Proof.
  unfold nonEmpty. destruct (String.eqb s ""); [discriminate|]. now intros [= <-].
Qed.

End PayloadFacts.


Example payload_accepts_fresh_and_rejects_stale :
  let body capturedAt :=
    Payload.bodyWith 128
      [("width"%string, Json.JNumber (Json.Fin 640));
       ("height"%string, Json.JNumber (Json.Fin 360));
       ("frameId"%string, Json.JNumber (Json.Fin 7));
       ("capturedAt"%string, Json.JNumber (Json.Fin capturedAt))] in
  Payload.parseAnalyzePayload (body 99000%Q) 720 100000
  = Payload.payload
      (Payload.mkPayload (string_of_list_ascii (repeat "A"%char 128))
                         7 99000 640 360 None None None)
  /\ Payload.parseAnalyzePayload (body 80000%Q) 720 100000
     = Payload.response "Stale frame rejected" 409
  /\ Payload.parseAnalyzePayload (body 99000%Q) 512 100000
     = Payload.response "Input must be downscaled to <= 512px" 400.
Proof. repeat split; vm_compute; reflexivity. Qed.

(** ** Overlay page: cover projection *)

Section PageFacts.
Import JS Page.
Local Open Scope Q_scope.

Lemma safeSide_positive v : 1 <= safeSide v.
Proof. apply Q.le_max_l. Qed.

Lemma sourceSide_positive field safe : 1 <= sourceSide field safe.
Proof. apply Q.le_max_l. Qed.

(** The three cases of [computeCoverProjection] on positive sides. *)
Lemma cover_cases (W H sw sh : Q) (p : CoverProjection) :
  1 <= W -> 1 <= H -> 1 <= sw -> 1 <= sh ->
  p = (if Qgtb (sw / sh) (W / H) then
         mkProjection ((W - H * (sw / sh)) / 2) 0 (H * (sw / sh)) H
       else if Qltb (sw / sh) (W / H) then
         mkProjection 0 ((H - W / (sw / sh)) / 2) W (W / (sw / sh))
       else mkProjection 0 0 W H) ->
  (offsetX p <= 0 /\ offsetY p <= 0)
  /\ (W <= offsetX p + renderWidth p /\ H <= offsetY p + renderHeight p)
  /\ (2 * offsetX p + renderWidth p == W /\ 2 * offsetY p + renderHeight p == H)
  /\ renderWidth p * sh == renderHeight p * sw
  /\ (renderWidth p == W \/ renderHeight p == H).
Proof.
  intros HW HH Hsw Hsh ->.
  assert (Ha : sw / sh * sh == sw) by (field; lra).
  assert (Hb : W / H * H == W) by (field; lra).
  assert (Hc : W / (sw / sh) * sw == W * sh) by (field; split; lra).
  assert (Hpos : 0 < sw / sh).
  { apply Qlt_shift_div_l; lra. }
  assert (Hd : W / (sw / sh) * (sw / sh) == W) by (field; split; lra).
  set (a := sw / sh) in *. set (b := W / H) in *.
  set (r := W / a) in *. clearbody r a b.
  cbv zeta.
  destruct (Qgtb a b) eqn:E1; [|destruct (Qltb a b) eqn:E2];
    cbn [offsetX offsetY renderWidth renderHeight];
    unfold Qdiv; change (/ 2) with (1 # 2).
  - apply Qgtb_gt in E1.
    assert (Hprod : 0 < (a - b) * H) by (apply Qmult_lt_0_compat; lra).
    assert (Hm : H * a == (a - b) * H + b * H) by ring.
    assert (Hasp : H * a * sh == H * sw)
      by (rewrite <- Qmult_assoc, Ha; reflexivity).
    set (m := H * a) in *. set (u := (a - b) * H) in *. set (v := b * H) in *.
    clearbody m u v.
    split; [split; lra|]. split; [split; lra|]. split; [split; lra|].
    split; [exact Hasp|]. right. reflexivity.
  - apply Qltb_lt in E2.
    assert (Hprod : 0 < (b - a) * H) by (apply Qmult_lt_0_compat; lra).
    assert (Hm : H * a == b * H - (b - a) * H) by ring.
    assert (Hr : H < r).
    { destruct (Qlt_le_dec H r) as [Hlt|Hge]; [exact Hlt|].
      exfalso. apply (Qmult_le_compat_r _ _ a) in Hge; [|lra].
      set (m := H * a) in *. set (u := (b - a) * H) in *. set (v := b * H) in *.
      set (x := r * a) in *. clearbody m u v x. lra. }
    split; [split; lra|]. split; [split; lra|]. split; [split; lra|].
    split; [symmetry; exact Hc|]. left. reflexivity.
  - apply Qgtb_le in E1. apply Qltb_ge in E2.
    assert (Hab : a == b) by lra.
    split; [split; lra|]. split; [split; lra|]. split; [split; lra|].
    split; [|left; reflexivity].
    rewrite <- Hb, <- Ha, Hab. ring.
Qed.

End PageFacts.

(** X29 (cover projection): the rectangle the video is drawn into
    covers the whole viewport (no letterbox on either axis), is centred
    on it, keeps the aspect ratio of the source, and matches the
    viewport exactly on one axis; so the middle of the normalised grid
    lands on the middle of the viewport.  Sides below 1 px count as
    1 px, and a missing or zero-sized video counts as viewport-sized. *)
Theorem cover_projection_covers_viewport
    (video : option Page.Video) (viewportWidth viewportHeight : Q) :
  let p := Page.computeCoverProjection video viewportWidth viewportHeight in
  let W := Page.safeSide viewportWidth in
  let H := Page.safeSide viewportHeight in
  let sw := Page.sourceSide (option_map Page.videoWidth video) W in
  let sh := Page.sourceSide (option_map Page.videoHeight video) H in
  ((Page.offsetX p <= 0 /\ Page.offsetY p <= 0)
   /\ (W <= Page.offsetX p + Page.renderWidth p
       /\ H <= Page.offsetY p + Page.renderHeight p)
   /\ (2 * Page.offsetX p + Page.renderWidth p == W
       /\ 2 * Page.offsetY p + Page.renderHeight p == H)
   /\ Page.renderWidth p * sh == Page.renderHeight p * sw
   /\ (Page.renderWidth p == W \/ Page.renderHeight p == H)
   /\ (fst (Page.toPixels (500, 500) p) == W / 2
       /\ snd (Page.toPixels (500, 500) p) == H / 2))%Q.
Proof.
  intros p W H sw sh.
  pose proof (cover_cases W H sw sh p (safeSide_positive _) (safeSide_positive _)
                (sourceSide_positive _ _) (sourceSide_positive _ _) eq_refl) as Hc.
  destruct Hc as [H1 [H2 [[H3 H4] [H5 H6]]]].
  split; [exact H1|]. split; [exact H2|]. split; [split; assumption|].
  split; [exact H5|]. split; [exact H6|].
  unfold Page.toPixels. cbn [fst snd].
  set (ox := Page.offsetX p) in *. set (oy := Page.offsetY p) in *.
  set (rw := Page.renderWidth p) in *. set (rh := Page.renderHeight p) in *.
  clearbody ox oy rw rh W H.
  unfold Qdiv. change (/ 1000) with (1 # 1000). change (/ 2) with (1 # 2).
  split; lra.
Qed.

(** ** Overlay page: one insight per keyword *)

Section DedupeFacts.
Import JS Json Fusion Page PageInv.
Local Open Scope Q_scope.

Lemma seeInsight_keys seen i :
  NoDup (map fst seen) -> NoDup (map fst (seeInsight seen i)).
Proof.
  intros H. unfold seeInsight. cbv zeta.
  destruct (map_get _ seen) as [prev|]; [destruct (Qgtb _ _)|];
    auto using map_set_NoDup.
Qed.

Lemma seeInsight_keyed seen i :
  Forall (fun kv => fst kv = insightKey (snd kv)) seen ->
  Forall (fun kv => fst kv = insightKey (snd kv)) (seeInsight seen i).
Proof.
  intros H. unfold seeInsight. cbv zeta.
  destruct (map_get _ seen) as [prev|]; [destruct (Qgtb _ _)|];
    try assumption; now apply map_set_Forall.
Qed.

Lemma map_set_In {V} (k : string) (v : V) (m : list (string * V)) kv :
  In kv (map_set k v m) -> kv = (k, v) \/ In kv m.
Proof.
  induction m as [|[k' v'] m IH]; simpl.
  - intros [<-|[]]. now left.
  - destruct (String.eqb k k'); simpl.
    + intros [<-|H]; [now left|right; now right].
    + intros [<-|H]; [right; now left|].
      destruct (IH H) as [->|H']; [now left|right; now right].
Qed.

Lemma seeInsight_In seen i kv :
  In kv (seeInsight seen i) -> In kv seen \/ snd kv = i.
Proof.
  unfold seeInsight. cbv zeta.
  destruct (map_get _ seen) as [prev|]; [destruct (Qgtb _ _)|];
    try (now left); intros H; apply map_set_In in H;
    destruct H as [->|H]; auto.
Qed.

Lemma covered_mono seen i k c :
  covered seen k c -> covered (seeInsight seen i) k c.
Proof.
  intros [v [Hv Hc]]. unfold seeInsight. cbv zeta.
  destruct (map_get (insightKey i) seen) as [prev|] eqn:E.
  - destruct (Qgtb _ _) eqn:G; [|now exists v].
    destruct (String.eqb_spec k (insightKey i)) as [->|Hne].
    + exists i. split; [apply map_get_set|].
      rewrite E in Hv. injection Hv as <-. apply Qgtb_gt in G. lra.
    + exists v. now rewrite map_get_set_ne.
  - destruct (String.eqb_spec k (insightKey i)) as [->|Hne].
    + congruence.
    + exists v. now rewrite map_get_set_ne.
Qed.

Lemma covered_new seen i :
  covered (seeInsight seen i) (insightKey i) (DepthInsight.confidence i).
Proof.
  unfold seeInsight. cbv zeta.
  destruct (map_get (insightKey i) seen) as [prev|] eqn:E.
  - destruct (Qgtb _ _) eqn:G.
    + exists i. split; [apply map_get_set|apply Qle_refl].
    + exists prev. split; [exact E|now apply Qgtb_le in G].
  - exists i. split; [apply map_get_set|apply Qle_refl].
Qed.

Lemma seen_loop insights : forall seen,
  NoDup (map fst seen) ->
  Forall (fun kv => fst kv = insightKey (snd kv)) seen ->
  NoDup (map fst (fold_left seeInsight insights seen))
  /\ Forall (fun kv => fst kv = insightKey (snd kv))
            (fold_left seeInsight insights seen)
  /\ (forall kv, In kv (fold_left seeInsight insights seen) ->
                 In kv seen \/ In (snd kv) insights)
  /\ (forall k c, covered seen k c ->
                  covered (fold_left seeInsight insights seen) k c)
  /\ (forall i, In i insights ->
                covered (fold_left seeInsight insights seen)
                        (insightKey i) (DepthInsight.confidence i)).
Proof.
  induction insights as [|x insights IH]; intros seen Hnd Hk; simpl.
  - repeat split; auto. intros i [].
  - destruct (IH (seeInsight seen x) (seeInsight_keys seen x Hnd)
                (seeInsight_keyed seen x Hk)) as [H1 [H2 [H3 [H4 H5]]]].
    split; [exact H1|]. split; [exact H2|]. split; [|split].
    + intros kv Hin. destruct (H3 kv Hin) as [H|H]; [|right; now right].
      apply seeInsight_In in H. destruct H as [H|H]; [now left|].
      right. now left.
    + intros k c Hc. apply H4. now apply covered_mono.
    + intros i [<-|Hi]; [|now apply H5]. apply H4. apply covered_new.
Qed.

End DedupeFacts.

(** X30 (one insight per keyword): [dedupeProInsights] returns only
    insights it was given, at most one per keyword (compared trimmed and
    in lower case), for every given insight one of the same keyword and
    of at least its confidence, and all in order of descending
    confidence. *)
Theorem dedupe_keeps_best_insight_per_keyword (insights : list DepthInsight.t) :
  let out := Page.dedupeProInsights insights in
  (forall o, In o out -> In o insights)
  /\ NoDup (map Page.insightKey out)
  /\ (forall i, In i insights ->
        exists o, In o out /\ Page.insightKey o = Page.insightKey i
                  /\ (DepthInsight.confidence i <= DepthInsight.confidence o)%Q)
  /\ Sorted (fun a b => (DepthInsight.confidence b <= DepthInsight.confidence a)%Q)
            out.
Proof.
  intros out. subst out. unfold Page.dedupeProInsights, Page.seenInsights.
  destruct (seen_loop insights [] (NoDup_nil_2) (Forall_nil_2 _))
    as [H1 [H2 [H3 [_ H5]]]].
  set (seen := fold_left Page.seeInsight insights []) in *.
  split; [|split; [|split]].
  - intros o Ho. apply js_sort_In, in_map_iff in Ho.
    destruct Ho as [kv [<- Hkv]]. destruct (H3 kv Hkv) as [[]|H]. exact H.
  - rewrite (Permutation_map Page.insightKey
               (js_sort_Permutation Page.byInsightConfidenceDesc (map snd seen))).
    replace (map Page.insightKey (map snd seen)) with (map fst seen);
      [exact H1|].
    rewrite map_map. apply map_ext_in. intros kv Hkv.
    rewrite Forall_forall in H2. apply H2. now apply list_elem_of_In.
  - intros i Hi. destruct (H5 i Hi) as [v [Hv Hc]].
    apply map_get_In in Hv. exists v. split; [|split; [|exact Hc]].
    + apply js_sort_In, in_map_iff. now exists (Page.insightKey i, v).
    + rewrite Forall_forall in H2. apply list_elem_of_In, H2 in Hv.
      cbn [fst snd] in Hv. now symmetry.
  - apply (Sorted_weaken
             (fun a b => JS.Qgtb (Page.byInsightConfidenceDesc a b) 0 = false)).
    + intros a b H. unfold Page.byInsightConfidenceDesc in H.
      apply Qgtb_le in H. lra.
    + apply js_sort_Sorted. intros a b H.
      unfold Page.byInsightConfidenceDesc in *.
      apply Qgtb_gt in H. apply Qgtb_le. lra.
Qed.
